(** * samtools_irods: the iRODS stdio emulation layer (isio.c)

    A shallow embedding of [src/isio.c] and [src/isio.h]: the cached
    file handle [ISIO_FILE], the handle table [_cacheInfo], the cache
    algorithms [isioFileRead], [isioFileWrite], [isioFileSeek],
    [isioFileTell], [isioFlush], [isioFileClose] and the stdio-shaped
    dispatchers [irodsfopen], [irodsfread], ...

    The C heap is a list of blocks, pointers are block/offset pairs, and
    the iRODS client library (rcDataObjRead and friends) is an interface
    the development is parametric in.  Undefined behaviour of the C
    program (a copy outside a block, a NULL dereference) is the outcome
    [Fault]. *)

From Stdlib Require Import ZArith List String Strings.Byte Lia Bool.
From stdpp Require Import base list.

Open Scope Z_scope.

(** ** Machine integers

    The target is LP64: [int] has 32 bits, [long] and [size_t] have 64.
    Values are kept in [Z] and every conversion to a narrower or signed
    type is written out.  Where the arithmetic of the code can leave
    the range of [int] (undefined in C) the result wraps around. *)

Definition to_int (z : Z) : Z := (z + 2 ^ 31) mod 2 ^ 32 - 2 ^ 31.
Definition to_long (z : Z) : Z := (z + 2 ^ 63) mod 2 ^ 64 - 2 ^ 63.
Definition to_size_t (z : Z) : Z := z mod 2 ^ 64.

Definition int_range (z : Z) : Prop := - 2 ^ 31 <= z < 2 ^ 31.
Definition size_t_range (z : Z) : Prop := 0 <= z < 2 ^ 64.

Definition INT_MAX : Z := 2 ^ 31 - 1.
Definition SIZE_MAX : Z := 2 ^ 64 - 1.

(** ** Constants of isio.c and of the headers it includes *)

Definition IRODS_PREFIX : string := "irods:".
Definition ISIO_MAX_OPEN_FILES : Z := 20.
Definition ISIO_INITIAL_BUF_SIZE : Z := 65536.
Definition ISIO_MAX_BUF_SIZE : Z := 2097152.

Definition O_RDONLY : Z := 0.
Definition O_WRONLY : Z := 1.
Definition O_RDWR : Z := 2.
Definition SEEK_SET : Z := 0.
Definition SEEK_CUR : Z := 1.
Definition SEEK_END : Z := 2.
Definition EOF : Z := -1.
(** rodsErrorTable.h of the iRODS client library. *)
Definition CAT_NO_ROWS_FOUND : Z := -808000.

(** ** Pointers and the heap *)

Definition block := nat.

Inductive pointer : Type :=
| NULL
| Ptr (b : block) (ofs : Z).

Definition is_null (p : pointer) : bool :=
  match p with NULL => true | Ptr _ _ => false end.

Definition ptr_ofs (p : pointer) : Z :=
  match p with NULL => 0 | Ptr _ o => o end.

(** [p + k] on [char *]. *)
Definition ptr_add (p : pointer) (k : Z) : pointer :=
  match p with NULL => NULL | Ptr b o => Ptr b (o + k) end.

(** [p - q] on [char *].  For two pointers into one block this is the C
    difference; isio.c only ever forms [ifp->ptr - ifp->base], and keeps
    both in the same block except after a failed realloc. *)
Definition ptr_diff (p q : pointer) : Z := ptr_ofs p - ptr_ofs q.

(** A block is its bytes; a freed block is [None]. *)
Definition heap := list (option (list byte)).

Definition zeros (n : Z) : list byte := repeat x00 (Z.to_nat n).

Definition load (h : heap) (p : pointer) (n : Z) : option (list byte) :=
  match p with
  | NULL => None
  | Ptr b o =>
      match h !! b with
      | Some (Some bytes) =>
          if (0 <=? o) && (0 <=? n) && (o + n <=? Z.of_nat (length bytes))
          then Some (take (Z.to_nat n) (drop (Z.to_nat o) bytes))
          else None
      | _ => None
      end
  end.

Definition store (h : heap) (p : pointer) (bs : list byte) : option heap :=
  match p with
  | NULL => None
  | Ptr b o =>
      match h !! b with
      | Some (Some bytes) =>
          if (0 <=? o) && (o + Z.of_nat (length bs) <=? Z.of_nat (length bytes))
          then Some (<[b := Some (take (Z.to_nat o) bytes ++ bs
                                    ++ drop (Z.to_nat o + length bs) bytes)]> h)
          else None
      | _ => None
      end
  end.

(** ** The cached file handle (isio.h) *)

Record ISIO_FILE : Type := mkISIO_FILE {
  base_offset : Z;     (* long: how far base is from start of file *)
  base : pointer;      (* char *: actual data cache *)
  bufferSize : Z;      (* int: size of cache (actual space malloced) *)
  ptr : pointer;       (* char *: current read position in cache *)
  count : Z;           (* int: how many unread bytes remain in cache *)
  dirty : Z;           (* int: buffer contents differ from iRODS storage *)
  l1descInx : Z        (* long: returned by rcDataObjCreate() *)
}.

Definition set_base_offset (v : Z) (f : ISIO_FILE) : ISIO_FILE :=
  mkISIO_FILE v (base f) (bufferSize f) (ptr f) (count f) (dirty f) (l1descInx f).
Definition set_base (v : pointer) (f : ISIO_FILE) : ISIO_FILE :=
  mkISIO_FILE (base_offset f) v (bufferSize f) (ptr f) (count f) (dirty f) (l1descInx f).
Definition set_bufferSize (v : Z) (f : ISIO_FILE) : ISIO_FILE :=
  mkISIO_FILE (base_offset f) (base f) v (ptr f) (count f) (dirty f) (l1descInx f).
Definition set_ptr (v : pointer) (f : ISIO_FILE) : ISIO_FILE :=
  mkISIO_FILE (base_offset f) (base f) (bufferSize f) v (count f) (dirty f) (l1descInx f).
Definition set_count (v : Z) (f : ISIO_FILE) : ISIO_FILE :=
  mkISIO_FILE (base_offset f) (base f) (bufferSize f) (ptr f) v (dirty f) (l1descInx f).
Definition set_dirty (v : Z) (f : ISIO_FILE) : ISIO_FILE :=
  mkISIO_FILE (base_offset f) (base f) (bufferSize f) (ptr f) (count f) v (l1descInx f).

(** The spec's names for the bookkeeping: [cursor] is [ptr - base],
    [unreadCount] is [count], [bufferCapacity] is [bufferSize]. *)
Definition cursor (f : ISIO_FILE) : Z := ptr_diff (ptr f) (base f).

(** ** The iRODS client library

    rcConnect, clientLogin, parseRodsPathStr and the rcDataObj* calls
    belong to the iRODS client library, not to this repository.  [R] is
    the state of the server as seen through one connection. *)

Inductive connect_result : Type :=
| Connected
| ConnectFailed (errstatus : Z).   (* Comm == NULL, errMsg.status *)

Class RemoteSession (R : Type) : Type := {
  getRodsEnv : R -> Z * R;
  rcConnect : R -> connect_result * R;
  clientLogin : R -> Z * R;
  (* status and dataObjInp.objPath *)
  parseRodsPathStr : string -> Z * string;
  (* objPath, openFlags; the status is the l1descInx on success *)
  rcDataObjOpen : string -> Z -> R -> Z * R;
  rcDataObjCreate : string -> Z -> R -> Z * R;
  (* l1descInx, len; the status and the bytes placed in the caller's buffer *)
  rcDataObjRead : Z -> Z -> R -> (Z * list byte) * R;
  (* l1descInx, bytes; the status *)
  rcDataObjWrite : Z -> list byte -> R -> Z * R;
  (* l1descInx, offset, whence; the status and seekResult (NULL or ->offset) *)
  rcDataObjLseek : Z -> Z -> Z -> R -> (Z * option Z) * R;
  rcDataObjClose : Z -> R -> Z * R;
  rcDisconnect : R -> Z * R
}.

(** Every call that goes to the server leaves a record, in order. *)
Inductive call : Type :=
| CallConnect
| CallLogin
| CallOpen (objPath : string) (openFlags : Z)
| CallCreate (objPath : string) (openFlags : Z)
| CallRead (idx len : Z)
| CallWrite (idx : Z) (data : list byte)
| CallLseek (idx offset whence : Z)
| CallClose (idx : Z)
| CallDisconnect.

(** ** The state of the process and the monad the code runs in *)

Record world (R : Type) : Type := mkWorld {
  mem : heap;
  (* outcome of the coming allocations, in order; none left: success *)
  alloc_plan : list bool;
  remote : R;
  calls : list call;
  setupFlag : Z;
  (* static ISIO_FILE *_cacheInfo[ISIO_MAX_OPEN_FILES]; a slot holds
     the struct its pointer refers to *)
  _cacheInfo : list (option ISIO_FILE)
}.

Arguments mkWorld {R}.
Arguments mem {R}.
Arguments alloc_plan {R}.
Arguments remote {R}.
Arguments calls {R}.
Arguments setupFlag {R}.
Arguments _cacheInfo {R}.

Inductive outcome (S A : Type) : Type :=
| Ok (a : A) (s : S)
| Fault.

Arguments Ok {S A}.
Arguments Fault {S A}.

Definition M (R A : Type) : Type := world R -> outcome (world R) A.

Definition ret {R A} (a : A) : M R A := fun w => Ok a w.
Definition bind {R A B} (m : M R A) (k : A -> M R B) : M R B :=
  fun w => match m w with Ok a w' => k a w' | Fault => Fault end.
Definition fault {R A} : M R A := fun _ => Fault.

Notation "'do' x <- m ; k" := (bind m (fun x => k))
  (at level 10, x name, m at level 100, k at level 200, only parsing).
Notation "'do' ' pat <- m ; k" := (bind m (fun x => match x with pat => k end))
  (at level 10, pat pattern, m at level 100, k at level 200, only parsing).
Notation "'do_' m ; k" := (bind m (fun _ => k))
  (at level 10, m at level 100, k at level 200, only parsing).

Section Machine.
Context {R : Type}.

Definition set_mem (h : heap) (w : world R) : world R :=
  mkWorld h (alloc_plan w) (remote w) (calls w) (setupFlag w) (_cacheInfo w).
Definition set_alloc_plan (p : list bool) (w : world R) : world R :=
  mkWorld (mem w) p (remote w) (calls w) (setupFlag w) (_cacheInfo w).
Definition set_setupFlag (v : Z) (w : world R) : world R :=
  mkWorld (mem w) (alloc_plan w) (remote w) (calls w) v (_cacheInfo w).
Definition set_cacheInfo (t : list (option ISIO_FILE)) (w : world R) : world R :=
  mkWorld (mem w) (alloc_plan w) (remote w) (calls w) (setupFlag w) t.

(** One call of the client library: the server moves on and the call is
    recorded. *)
Definition remote_call {A} (c : call) (f : R -> A * R) : M R A :=
  fun w => let '(a, r) := f (remote w) in
           Ok a (mkWorld (mem w) (alloc_plan w) r (calls w ++ [c])
                         (setupFlag w) (_cacheInfo w)).

(** Whether the coming allocation succeeds. *)
Definition next_alloc : M R bool :=
  fun w => match alloc_plan w with
           | [] => Ok true w
           | ok :: rest => Ok ok (set_alloc_plan rest w)
           end.

(** malloc(n).  C leaves the content of the new block indeterminate;
    here it holds zeros, and no property below says what a block holds
    before the code has written to it. *)
Definition malloc (n : Z) : M R pointer :=
  do ok <- next_alloc;
  if (ok : bool)
  then fun w => Ok (Ptr (length (mem w)) 0) (set_mem (mem w ++ [Some (zeros n)]) w)
  else ret NULL.

(** free(p), p not NULL *)
Definition free (p : pointer) : M R unit :=
  fun w => match p with
           | Ptr b 0 =>
               match mem w !! b with
               | Some (Some _) => Ok tt (set_mem (<[b := None]> (mem w)) w)
               | _ => Fault
               end
           | _ => Fault
           end.

(** realloc(p, n): on failure the old block is untouched; on success the
    bytes move to a new block and the old one is released.  The bytes
    added at the end are indeterminate in C and zeros here. *)
Definition realloc (p : pointer) (n : Z) : M R pointer :=
  match p with
  | NULL => malloc n
  | Ptr b 0 =>
      fun w => match mem w !! b with
               | Some (Some bytes) =>
                   (do ok <- next_alloc;
                    if (ok : bool)
                    then fun w' =>
                      Ok (Ptr (length (mem w')) 0)
                         (set_mem (<[b := None]> (mem w')
                                   ++ [Some (take (Z.to_nat n) bytes
                                             ++ zeros (n - Z.of_nat (length bytes)))])
                                  w')
                    else ret NULL) w
               | _ => Fault
               end
  | Ptr _ _ => fault
  end.

(** memcpy(dst, src, n) *)
Definition memcpy (dst src : pointer) (n : Z) : M R unit :=
  fun w => match load (mem w) src n with
           | Some bs =>
               match store (mem w) dst bs with
               | Some h => Ok tt (set_mem h w)
               | None => Fault
               end
           | None => Fault
           end.

Definition load_bytes (p : pointer) (n : Z) : M R (list byte) :=
  fun w => match load (mem w) p n with
           | Some bs => Ok bs w
           | None => Fault
           end.

Definition store_bytes (p : pointer) (bs : list byte) : M R unit :=
  fun w => match store (mem w) p bs with
           | Some h => Ok tt (set_mem h w)
           | None => Fault
           end.

End Machine.

(** ** isio.c *)

(** What a dispatcher did: the call went to the cache layer, or to the
    local stdio function of the same name (which is not modelled). *)
Inductive dispatch (A : Type) : Type :=
| Cached (a : A)
| Passthrough.

Arguments Cached {A}.
Arguments Passthrough {A}.

Section Isio.
Context {R : Type} `{RemoteSession R}.

(** The library stores what the server sent in the caller's buffer. *)
Definition do_rcDataObjRead (idx : Z) (buf : pointer) (len : Z) : M R Z :=
  do '(status, data) <- remote_call (CallRead idx len) (rcDataObjRead idx len);
  if status <? 0 then ret status
  else do_ store_bytes buf data; ret status.

(** The library sends [len] bytes found at [buf]. *)
Definition do_rcDataObjWrite (idx : Z) (buf : pointer) (len : Z) : M R Z :=
  do data <- load_bytes buf len;
  remote_call (CallWrite idx data) (rcDataObjWrite idx data).

Definition do_rcDataObjLseek (idx offset whence : Z) : M R (Z * option Z) :=
  remote_call (CallLseek idx offset whence) (rcDataObjLseek idx offset whence).

(** isioSetup: subsequent calls after successful setup just return 0. *)
Definition isioSetup : M R Z :=
  do flag <- (fun w => Ok (setupFlag w) w);
  if negb (flag =? 0) then ret 0
  else
    (* getRodsEnv reads the user's environment files; an error is only logged *)
    do _status <- (fun w => let '(st, r) := getRodsEnv (remote w) in
                            Ok st (mkWorld (mem w) (alloc_plan w) r (calls w)
                                           (setupFlag w) (_cacheInfo w)));
    do comm <- remote_call CallConnect rcConnect;
    match comm with
    | ConnectFailed errstatus => ret errstatus
    | Connected =>
        do status <- remote_call CallLogin clientLogin;
        if status =? 0
        then do_ (fun w => Ok tt (set_setupFlag 1 w)); ret status
        else ret status
    end.

(** new_isio_file: NULL is [None].  The struct itself takes one
    allocation (calloc), its buffer another (malloc). *)
Definition new_isio_file (l1descInx : Z) : M R (option ISIO_FILE) :=
  do ok <- next_alloc;
  if (ok : bool) then
    do b <- malloc ISIO_INITIAL_BUF_SIZE;
    if is_null b then ret None
    else ret (Some (mkISIO_FILE 0 b ISIO_INITIAL_BUF_SIZE b 0 0 l1descInx))
  else ret None.

(** destroy_isio_file: free(ifp->base), then free(ifp).  The struct has
    no block of its own here: a slot of the table holds the struct
    itself where the C table holds a pointer to it, so that only the
    release of the buffer shows, and a slot keeps the last value of a
    struct that C has freed. *)
Definition destroy_isio_file (ifp : ISIO_FILE) : M R Z :=
  do_ (if is_null (base ifp) then ret tt else free (base ifp));
  ret 0.

(** add_to_map: the first free slot among [idxs], in order. *)
Fixpoint add_to_map_scan (idxs : list nat) (tbl : list (option ISIO_FILE)) : option nat :=
  match idxs with
  | [] => None
  | i :: rest =>
      match tbl !! i with
      | Some None => Some i
      | _ => add_to_map_scan rest tbl
      end
  end.

(** The FILE * handed out is the slot index plus one; NULL is 0. *)
Definition add_to_map (ifp : option ISIO_FILE) : M R Z :=
  match ifp with
  | None => ret 0
  | Some f =>
      fun w =>
        match add_to_map_scan (seq 0 (Z.to_nat ISIO_MAX_OPEN_FILES)) (_cacheInfo w) with
        | Some i => Ok (Z.of_nat i + 1) (set_cacheInfo (<[i := Some f]> (_cacheInfo w)) w)
        | None => Ok 0 w
        end
  end.

Definition is_in_map (idx : Z) : M R (option ISIO_FILE) :=
  let idx := to_int (idx - 1) in
  if (0 <=? idx) && (idx <? ISIO_MAX_OPEN_FILES)
  then fun w => match _cacheInfo w !! Z.to_nat idx with
                | Some slot => Ok slot w
                | None => Fault
                end
  else ret None.

(** The struct behind a slot is updated in place by the routines below. *)
Definition update_map (idx : Z) (ifp : ISIO_FILE) : M R unit :=
  fun w => Ok tt (set_cacheInfo (<[Z.to_nat (to_int (idx - 1)) := Some ifp]> (_cacheInfo w)) w).

Definition isioFileOpen (filename modes : string) : M R (option ISIO_FILE) :=
  do st <- isioSetup;
  if negb (st =? 0) then ret None
  else
    (* copy_filename: strdup *)
    do ok <- next_alloc;
    if negb ok then ret None
    else
      let '(status, objPath) := parseRodsPathStr filename in
      if status <? 0 then ret None
      else
        let openFlags := O_RDONLY in
        let openFlags := if String.prefix "w" modes then O_WRONLY else openFlags in
        let openFlags := if String.prefix "r+" modes then O_RDWR else openFlags in
        do status <- remote_call (CallOpen objPath openFlags) (rcDataObjOpen objPath openFlags);
        do status <- (if (status =? CAT_NO_ROWS_FOUND) && (openFlags =? O_WRONLY)
                      then remote_call (CallCreate objPath openFlags)
                                       (rcDataObjCreate objPath openFlags)
                      else ret status);
        if status <? 0 then ret None
        else new_isio_file status.

Definition irodsfopen (filename modes : string) : M R (dispatch Z) :=
  let len := String.length IRODS_PREFIX in
  if String.prefix IRODS_PREFIX filename
  then
    do ifp <- isioFileOpen (substring len (String.length filename - len) filename) modes;
    do fp <- add_to_map ifp;
    ret (Cached fp)
  else ret Passthrough.

(** isioFlush: if the dirty flag is set, write the contents of the
    current cache buffer and clear the flag. *)
Definition isioFlush (ifp : ISIO_FILE) : M R (Z * ISIO_FILE) :=
  if negb (dirty ifp =? 0) then
    let len := to_int (ptr_diff (ptr ifp) (base ifp) + count ifp) in
    do status <- do_rcDataObjWrite (l1descInx ifp) (base ifp) len;
    let ifp := if 0 <=? status then set_dirty 0 ifp else ifp in
    ret (status, ifp)
  else ret (0, ifp).

Definition isioFileTell (ifp : ISIO_FILE) : M R Z :=
  do '(_status, seekResult) <- do_rcDataObjLseek (l1descInx ifp) 0 SEEK_CUR;
  match seekResult with
  | Some offset => ret (to_int offset)
  | None => fault
  end.

(** isioFillBuffer: fill the cache buffer from the current position in
    the file; base_offset becomes that position. *)
Definition isioFillBuffer (ifp : ISIO_FILE) : M R (Z * ISIO_FILE) :=
  if is_null (base ifp) then ret (-1, ifp)
  else if bufferSize ifp <=? 0 then ret (-2, ifp)
  else
    do pos <- isioFileTell ifp;
    let ifp := set_base_offset pos ifp in
    do status <- do_rcDataObjRead (l1descInx ifp) (base ifp) (bufferSize ifp);
    if status <? 0 then ret (status, ifp)
    else
      let ifp := set_ptr (base ifp) ifp in
      let ifp := set_count status ifp in
      ret (0, ifp).

(** isioFileRead: transfer maxToRead bytes from the current position in
    the cache to the user buffer, refilling the cache when it runs out,
    and reading straight into the user buffer when the rest of the
    request is larger than ISIO_MAX_BUF_SIZE allows.
    Returns the number of bytes read, or < 0 to indicate error. *)
Definition isioFileRead (ifp : ISIO_FILE) (buffer : pointer) (maxToRead : Z)
  : M R (Z * ISIO_FILE) :=
  if maxToRead =? 0 then ret (0, ifp)
  else
    (* If the buffer had been used for writing, flush it *)
    do '(status, ifp) <- isioFlush ifp;
    if status <? 0 then ret (status, ifp)
    else
      let reqSize := to_int maxToRead in
      let destPtr := buffer in
      let read_count := 0 in
      (* the cached part of the request; [None] when it was all there *)
      do cached <-
        (if 0 <? count ifp then
           if reqSize <=? count ifp then
             do_ memcpy destPtr (ptr ifp) (to_size_t reqSize);
             let ifp := set_ptr (ptr_add (ptr ifp) reqSize) ifp in
             let ifp := set_count (to_int (count ifp - reqSize)) ifp in
             ret (None, ifp)
           else
             do_ memcpy destPtr (ptr ifp) (to_size_t (count ifp));
             let reqSize := to_int (reqSize - count ifp) in
             let read_count := count ifp in
             let destPtr := ptr_add destPtr (count ifp) in
             (* mark cache buffer as empty *)
             let ifp := set_ptr (base ifp) ifp in
             let ifp := set_count 0 ifp in
             ret (Some (reqSize, read_count, destPtr), ifp)
         else ret (Some (reqSize, read_count, destPtr), ifp));
      match cached with
      | (None, ifp) => ret (to_int maxToRead, ifp)
      | (Some (reqSize, read_count, destPtr), ifp) =>
          let newBufSize := to_int (2 * reqSize + 8) in
          let ifp := if is_null (base ifp) then set_bufferSize 0 ifp else ifp in
          (* if necessary, set up a new ifp buffer for the read *)
          do prepared <-
            (if bufferSize ifp <? newBufSize then
               if newBufSize <=? ISIO_MAX_BUF_SIZE then
                 (* allocate larger cache buffer *)
                 do b <- realloc (base ifp) (to_size_t newBufSize);
                 let ifp := set_base b ifp in
                 if is_null b then ret (Some (-99), ifp, None)
                 else
                   let ifp := set_bufferSize newBufSize ifp in
                   let ifp := set_ptr (base ifp) ifp in
                   let ifp := set_count 0 ifp in
                   ret (None, ifp, None)
               else
                 (* Read directly into user's buffer. *)
                 let saved_base := base ifp in
                 let saved_bufferSize := bufferSize ifp in
                 let ifp := set_base destPtr ifp in
                 let ifp := set_ptr (base ifp) ifp in
                 let ifp := set_bufferSize reqSize ifp in
                 ret (None, ifp, Some (saved_base, saved_bufferSize))
             else
               (* current cache buffer is big enough: use it, marked empty *)
               let ifp := set_ptr (base ifp) ifp in
               let ifp := set_count 0 ifp in
               ret (None, ifp, None));
          match prepared with
          | (Some err, ifp, _) => ret (err, ifp)
          | (None, ifp, usingUsersBuffer) =>
              do '(status, ifp) <- isioFillBuffer ifp;
              if status <? 0 then ret (status, ifp)
              else
                let second_read_count :=
                  if count ifp <? reqSize then count ifp else reqSize in
                let read_count := to_int (read_count + second_read_count) in
                match usingUsersBuffer with
                | Some (saved_base, saved_bufferSize) =>
                    (* restore saved cache buffer, marked empty *)
                    let ifp := set_base saved_base ifp in
                    let ifp := set_bufferSize saved_bufferSize ifp in
                    let ifp := set_ptr (base ifp) ifp in
                    let ifp := set_count 0 ifp in
                    ret (read_count, ifp)
                | None =>
                    (* do the copy to the user's buffer *)
                    if 0 <? second_read_count then
                      do_ memcpy destPtr (ptr ifp) (to_size_t second_read_count);
                      let ifp := set_ptr (ptr_add (ptr ifp) second_read_count) ifp in
                      let ifp := set_count (to_int (count ifp - second_read_count)) ifp in
                      ret (read_count, ifp)
                    else ret (read_count, ifp)
                end
          end
      end.

(** isioFileWrite: transfer countToWrite bytes from the user buffer to
    the current position in the cache, flushing to iRODS as needed, and
    sending the rest straight from the user buffer when it is larger
    than ISIO_MAX_BUF_SIZE.
    Returns the number of bytes, or < 0 to indicate error. *)
Definition isioFileWrite (ifp : ISIO_FILE) (buffer : pointer) (countToWrite : Z)
  : M R (Z * ISIO_FILE) :=
  if countToWrite =? 0 then ret (0, ifp)
  else
    let ifp := set_dirty 1 ifp in
    let srcPtr := buffer in
    let spaceInBuffer := to_int (bufferSize ifp - ptr_diff (ptr ifp) (base ifp)) in
    (* min(countToWrite, spaceInBuffer), compared as size_t *)
    let wrtSize :=
      to_int (if countToWrite <=? to_size_t spaceInBuffer
              then countToWrite else to_size_t spaceInBuffer) in
    (* write out anything that fits in the cache *)
    do_ memcpy (ptr ifp) srcPtr (to_size_t wrtSize);
    let srcPtr := ptr_add srcPtr wrtSize in
    let ifp := set_ptr (ptr_add (ptr ifp) wrtSize) ifp in
    let ifp := set_count (to_int (count ifp - wrtSize)) ifp in
    let ifp := if count ifp <? 0 then set_count 0 ifp else ifp in
    let write_count := wrtSize in
    if to_size_t wrtSize =? countToWrite then ret (write_count, ifp)
    else
      (* there is still data left to write: flush the full cache buffer *)
      do '(status, ifp) <- isioFlush ifp;
      if status <? 0 then ret (status, ifp)
      else
        (* mark cache buffer as empty *)
        let ifp := set_ptr (base ifp) ifp in
        let ifp := set_count 0 ifp in
        let wrtSize := to_int (to_size_t (countToWrite - to_size_t wrtSize)) in
        if ISIO_MAX_BUF_SIZE <? wrtSize then
          (* Too big to cache, just send it *)
          do status <- do_rcDataObjWrite (l1descInx ifp) srcPtr wrtSize;
          if status <? 0 then ret (status, ifp)
          else
            (* update base_offset *)
            let ifp := set_base_offset
                         (to_long (base_offset ifp + to_int (bufferSize ifp + wrtSize)))
                         ifp in
            ret (status, ifp)
        else
          (* expand the cache buffer if necessary *)
          do grown <-
            (if bufferSize ifp <? wrtSize then
               let newBufSize := to_int (2 * wrtSize + 8) in
               do b <- realloc (base ifp) (to_size_t newBufSize);
               let ifp := set_base b ifp in
               if is_null b then ret (false, ifp)
               else ret (true, set_ptr (base ifp) ifp)
             else ret (true, ifp));
          match grown with
          | (false, ifp) => ret (0, ifp)
          | (true, ifp) =>
              do_ memcpy (ptr ifp) srcPtr (to_size_t wrtSize);
              let ifp := set_dirty 1 ifp in
              let ifp := set_ptr (ptr_add (ptr ifp) wrtSize) ifp in
              let ifp := set_count (to_int (count ifp - wrtSize)) ifp in
              let ifp := if count ifp <? 0 then set_count 0 ifp else ifp in
              let write_count := to_int (write_count + wrtSize) in
              ret (write_count, ifp)
          end.

(** offset_in_current_buffer: whether the requested position is within
    the current cache buffer; [Some adj] is the C result 1 with [*adj]. *)
Definition offset_in_current_buffer (ifp : ISIO_FILE) (offset whence : Z) : option Z :=
  if is_null (base ifp) || is_null (ptr ifp) || (bufferSize ifp <=? 0)
     || (ptr_diff (ptr ifp) (base ifp) + count ifp <=? 0)
  then None
  else if whence =? SEEK_SET then
    if (0 <=? offset) && (base_offset ifp <=? offset)
       && (offset <? base_offset ifp + ptr_diff (ptr ifp) (base ifp) + count ifp)
    then Some (offset - base_offset ifp - ptr_diff (ptr ifp) (base ifp))
    else None
  else if whence =? SEEK_CUR then
    if 0 <? offset then
      if offset <=? count ifp then Some offset else None
    else if offset <? 0 then
      if 0 <? ptr_diff (ptr ifp) (base ifp) + offset then Some offset else None
    else Some 0   (* zero offset must be in buffer *)
  else if whence =? SEEK_END then None   (* just do the data read to buffer *)
  else None.                             (* unrecognised whence value ignored? *)

(** isioFileSeek: if the new position is within the cached data, adjust
    the cache bookkeeping; otherwise seek on the server and mark the
    cache empty. *)
Definition isioFileSeek (ifp : ISIO_FILE) (offset whence : Z) : M R (Z * ISIO_FILE) :=
  do '(status, ifp) <-
    match offset_in_current_buffer ifp offset whence with
    | Some adj =>
        let ifp := set_ptr (ptr_add (ptr ifp) adj) ifp in
        let ifp := set_count (to_int (count ifp - adj)) ifp in
        ret (0, ifp)
    | None =>
        do '(status, ifp) <- isioFlush ifp;
        if status <? 0 then ret (status, ifp)
        else
          do '(status, _seekResult) <- do_rcDataObjLseek (l1descInx ifp) offset whence;
          do pos <- isioFileTell ifp;
          let ifp := set_base_offset (to_int (pos - status)) ifp in
          (* mark cache buffer as empty *)
          let ifp := set_ptr (base ifp) ifp in
          let ifp := set_count 0 ifp in
          ret (status, ifp)
    end;
  (* fseek should return 0 for success, so adjust *)
  ret (if 0 <? status then 0 else status, ifp).

Definition isioFileClose (ifp : ISIO_FILE) : M R Z :=
  (* If the buffer had been used for writing, flush it *)
  do '(status, ifp) <- isioFlush ifp;
  if status <? 0 then ret status
  else
    do _r <- destroy_isio_file ifp;
    remote_call (CallClose (l1descInx ifp)) (rcDataObjClose (l1descInx ifp)).

(** A local [int] variable whose address is passed on: four bytes, least
    significant first, alive for the duration of [body]. *)
Definition byte_of_Z (z : Z) : byte :=
  match Byte.of_N (Z.to_N (z mod 256)) with Some b => b | None => x00 end.

Definition Z_of_byte (b : byte) : Z := Z.of_N (Byte.to_N b).

Definition int_bytes (z : Z) : list byte :=
  [byte_of_Z z; byte_of_Z (z / 2 ^ 8); byte_of_Z (z / 2 ^ 16); byte_of_Z (z / 2 ^ 24)].

Definition int_of_bytes (bs : list byte) : Z :=
  match bs with
  | [b0; b1; b2; b3] =>
      to_int (Z_of_byte b0 + 2 ^ 8 * Z_of_byte b1 + 2 ^ 16 * Z_of_byte b2
              + 2 ^ 24 * Z_of_byte b3)
  | _ => 0
  end.

Definition with_local_int {A} (init : Z) (body : pointer -> M R A) : M R (A * Z) :=
  do p <- (fun w => Ok (Ptr (length (mem w)) 0)
                       (set_mem (mem w ++ [Some (int_bytes init)]) w));
  do a <- body p;
  do bs <- load_bytes p 4;
  do_ free p;
  ret (a, int_of_bytes bs).

Definition isioFilePutc (inchar : Z) (ifp : ISIO_FILE) : M R (Z * ISIO_FILE) :=
  do '(r, _mychar) <- with_local_int inchar (fun p => isioFileWrite ifp p 1);
  ret r.

Definition isioFileGetc (ifp : ISIO_FILE) : M R (Z * ISIO_FILE) :=
  do '((status, ifp), mychar) <- with_local_int 0 (fun p => isioFileRead ifp p 1);
  if status =? 0 then ret (EOF, ifp)
  else if status <? 0 then ret (status, ifp)
  else ret (mychar, ifp).

(** *** The stdio-shaped entry points

    [fi_stream] is the FILE * as an integer; a value that is not a slot
    of the table goes to the local stdio function. *)

Definition on_handle {A} (fi_stream : Z) (op : ISIO_FILE -> M R (A * ISIO_FILE))
  : M R (dispatch A) :=
  let i := to_int (to_size_t fi_stream) in
  do found <- is_in_map i;
  match found with
  | Some ifp =>
      do '(a, ifp) <- op ifp;
      do_ update_map i ifp;
      ret (Cached a)
  | None => ret Passthrough
  end.

(** The quotient of a [size_t] division; dividing by zero is undefined. *)
Definition size_t_div (a b : Z) : M R Z :=
  if b =? 0 then fault else ret (to_size_t a / b).

Definition irodsfread (buffer : pointer) (itemsize nitems fi_stream : Z)
  : M R (dispatch Z) :=
  do r <- on_handle fi_stream
            (fun ifp => isioFileRead ifp buffer (to_size_t (itemsize * nitems)));
  match r with
  | Cached st => do q <- size_t_div st itemsize; ret (Cached q)
  | Passthrough => ret Passthrough
  end.

Definition irodsfwrite (buffer : pointer) (itemsize nitems fi_stream : Z)
  : M R (dispatch Z) :=
  do r <- on_handle fi_stream
            (fun ifp => isioFileWrite ifp buffer (to_size_t (itemsize * nitems)));
  match r with
  | Cached st => do q <- size_t_div st itemsize; ret (Cached q)
  | Passthrough => ret Passthrough
  end.

(** irodsfclose: the table is not touched; the slot keeps its pointer to
    the destroyed struct. *)
Definition irodsfclose (fi_stream : Z) : M R (dispatch Z) :=
  let i := to_int (to_size_t fi_stream) in
  do found <- is_in_map i;
  match found with
  | Some ifp => do st <- isioFileClose ifp; ret (Cached st)
  | None => ret Passthrough
  end.

Definition irodsftell (fi_stream : Z) : M R (dispatch Z) :=
  on_handle fi_stream (fun ifp => do pos <- isioFileTell ifp; ret (pos, ifp)).

Definition irodsfseek (fi_stream offset whence : Z) : M R (dispatch Z) :=
  on_handle fi_stream (fun ifp => isioFileSeek ifp offset whence).

Definition irodsfflush (fi_stream : Z) : M R (dispatch Z) :=
  on_handle fi_stream isioFlush.

Definition irodsfputc (inchar fi_stream : Z) : M R (dispatch Z) :=
  on_handle fi_stream (isioFilePutc inchar).

Definition irodsfgetc (fi_stream : Z) : M R (dispatch Z) :=
  on_handle fi_stream isioFileGetc.

End Isio.

Section Exit.
Context {R : Type} `{RemoteSession R}.

(** irodsexit: disconnect if the session was set up; the result is the
    value the process exits with. *)
Definition irodsexit (exitValue : Z) : M R Z :=
  do flag <- (fun w => Ok (setupFlag w) w);
  do_ (if 0 <? flag
       then do _status <- remote_call CallDisconnect rcDisconnect; ret tt
       else ret tt);
  ret exitValue.

End Exit.

(** ** A server to run the code against *)

(** Modelled from the spec: the remote object store behind the iRODS
    client library, which is not part of this repository.  One
    in-memory object with a position, as the contract of the Remote
    Session describes it: a read returns the bytes from the position on
    (fewer than asked for at the end of the object, none past it), a
    write replaces or appends bytes at the position, a seek moves the
    position and reports it.  [script] overrides the status of the
    coming calls: a negative status is a failure that changes nothing, a
    non-negative one caps the number of bytes a read or write
    transfers. *)
Record sim : Type := mkSim {
  obj : list byte;
  pos : Z;
  next_fd : Z;
  script : list (option Z)
}.

Definition sim_next (s : sim) : option Z * sim :=
  match script s with
  | [] => (None, s)
  | o :: rest => (o, mkSim (obj s) (pos s) (next_fd s) rest)
  end.

Definition sim_open (objPath : string) (openFlags : Z) (s : sim) : Z * sim :=
  let '(forced, s) := sim_next s in
  match forced with
  | Some st => (st, s)
  | None => (next_fd s, mkSim (obj s) (pos s) (next_fd s + 1) (script s))
  end.

Definition sim_read (idx len : Z) (s : sim) : (Z * list byte) * sim :=
  let '(forced, s) := sim_next s in
  let avail := take (Z.to_nat len) (drop (Z.to_nat (pos s)) (obj s)) in
  match forced with
  | Some st =>
      if st <? 0 then ((st, []), s)
      else
        let data := take (Z.to_nat st) avail in
        ((Z.of_nat (length data), data),
         mkSim (obj s) (pos s + Z.of_nat (length data)) (next_fd s) (script s))
  | None =>
      ((Z.of_nat (length avail), avail),
       mkSim (obj s) (pos s + Z.of_nat (length avail)) (next_fd s) (script s))
  end.

Definition sim_put (data : list byte) (s : sim) : sim :=
  let p := Z.to_nat (pos s) in
  mkSim (take p (obj s) ++ repeat x00 (p - length (obj s)) ++ data
         ++ drop (p + length data) (obj s))
        (pos s + Z.of_nat (length data)) (next_fd s) (script s).

Definition sim_write (idx : Z) (data : list byte) (s : sim) : Z * sim :=
  let '(forced, s) := sim_next s in
  match forced with
  | Some st =>
      if st <? 0 then (st, s)
      else
        let sent := take (Z.to_nat st) data in
        (Z.of_nat (length sent), sim_put sent s)
  | None => (Z.of_nat (length data), sim_put data s)
  end.

Definition sim_lseek (idx offset whence : Z) (s : sim) : (Z * option Z) * sim :=
  let '(forced, s) := sim_next s in
  let target :=
    if whence =? SEEK_SET then offset
    else if whence =? SEEK_CUR then pos s + offset
    else Z.of_nat (length (obj s)) + offset in
  match forced with
  | Some st => if st <? 0 then ((st, None), s) else ((st, Some (pos s)), s)
  | None =>
      if target <? 0 then ((-1, None), s)
      else ((0, Some target), mkSim (obj s) target (next_fd s) (script s))
  end.

Definition sim_close (idx : Z) (s : sim) : Z * sim :=
  let '(forced, s) := sim_next s in
  match forced with
  | Some st => (st, s)
  | None => (0, s)
  end.

#[export] Instance sim_session : RemoteSession sim := {
  getRodsEnv := fun s => (0, s);
  rcConnect := fun s => (Connected, s);
  clientLogin := fun s => (0, s);
  parseRodsPathStr := fun path => (0, path);
  rcDataObjOpen := sim_open;
  rcDataObjCreate := sim_open;
  rcDataObjRead := sim_read;
  rcDataObjWrite := sim_write;
  rcDataObjLseek := sim_lseek;
  rcDataObjClose := sim_close;
  rcDisconnect := fun s => (0, s)
}.

(** An empty object on a server that answers every call normally. *)
Definition sim0 : sim := mkSim [] 0 3 [].

(** The process at start: nothing allocated but the caller's own buffer
    (block 0, holding [user]), every allocation succeeding, the table
    empty. *)
Definition world0 (user : list byte) (r : sim) : world sim :=
  mkWorld [Some user] [] r [] 0 (replicate (Z.to_nat ISIO_MAX_OPEN_FILES) None).

Definition user_buffer : pointer := Ptr 0%nat 0.

(** ** The vocabulary of the properties *)

(** The bookkeeping invariant: [0 <= cursor <= bufferCapacity] and
    [cursor + unreadCount <= bufferCapacity]. *)
Definition bounds_invariant (f : ISIO_FILE) : Prop :=
  0 <= cursor f <= bufferSize f /\ cursor f + count f <= bufferSize f.

Definition bounds_invariantb (f : ISIO_FILE) : bool :=
  (0 <=? cursor f) && (cursor f <=? bufferSize f)
  && (cursor f + count f <=? bufferSize f).

(** What the assertions of isio.c ask of a handle, with the ranges of
    the C types: a buffer, a position in it, and the bounds. *)
Definition handle_ok (f : ISIO_FILE) : Prop :=
  is_null (base f) = false /\ is_null (ptr f) = false
  /\ bounds_invariant f /\ 0 <= count f /\ int_range (bufferSize f).

(** The server never returns more bytes than a read asked for. *)
Definition read_bounded (R : Type) `{RemoteSession R} : Prop :=
  forall (idx len : Z) (r : R),
    0 <= len -> fst (fst (rcDataObjRead idx len r)) <= len.

(** [post m w Q]: if [m] returns from [w], its result and final state
    satisfy [Q]. *)
Definition post {R A} (m : M R A) (w : world R) (Q : A -> world R -> Prop) : Prop :=
  match m w with
  | Ok a w' => Q a w'
  | Fault => True
  end.

(** What a computation returns. *)
Definition result_of {R A} (m : M R A) (w : world R) : option A :=
  match m w with
  | Ok a _ => Some a
  | Fault => None
  end.

(** The number of calls made to the server so far. *)
Definition ncalls {R} (w : world R) : Z := Z.of_nat (length (calls w)).

(** [m] never calls the server. *)
Definition silent {R A} (m : M R A) : Prop :=
  forall w, post m w (fun _ w' => ncalls w' = ncalls w).

(** The calls a computation adds to the record. *)
Definition new_calls {R A} (m : M R A) (w : world R) : option (list call) :=
  match m w with
  | Ok _ w' => Some (drop (length (calls w)) (calls w'))
  | Fault => None
  end.

(** A call to the server without the bytes it carries: which primitive,
    on which descriptor, and for a seek where to. *)
Inductive call_kind : Type :=
| KRead (idx : Z)
| KWrite (idx : Z)
| KLseek (idx offset whence : Z)
| KOther.

Definition kind_of (c : call) : call_kind :=
  match c with
  | CallRead idx _ => KRead idx
  | CallWrite idx _ => KWrite idx
  | CallLseek idx offset whence => KLseek idx offset whence
  | _ => KOther
  end.

(** The kinds of the calls made so far, and of those made since [w]. *)
Definition kinds {R} (w : world R) : list call_kind := map kind_of (calls w).


(** [m] leaves the record of calls as it is. *)
Definition quiet {R A} (m : M R A) : Prop :=
  forall w, post m w (fun _ w' => kinds w' = kinds w).



(** The world once the server has answered one call. *)
Definition after_call {R} (w : world R) (r : R) (c : call) : world R :=
  mkWorld (mem w) (alloc_plan w) r (calls w ++ [c]) (setupFlag w) (_cacheInfo w).

(** The sizes of the writes the server has received, in order. *)
Definition sent {R} (w : world R) : list Z :=
  omap (fun c => match c with
                 | CallWrite _ data => Some (Z.of_nat (length data))
                 | _ => None
                 end) (calls w).

(** The slots of the table that hold NULL. *)
Definition free_slots {R} (w : world R) : Z :=
  Z.of_nat (length (List.filter
                      (fun slot => match slot with None => true | Some _ => false end)
                      (_cacheInfo w))).

(** The struct behind the FILE * [fp]. *)
Definition no_handle : ISIO_FILE := mkISIO_FILE 0 NULL 0 NULL 0 0 0.

Definition handle_of {R} (fp : Z) (w : world R) : ISIO_FILE :=
  match _cacheInfo w !! Z.to_nat (fp - 1) with
  | Some (Some f) => f
  | _ => no_handle
  end.

(** [returns m w Q]: [m] returns from [w], with a result and a final
    state that satisfy [Q]. *)
Definition returns {R A} (m : M R A) (w : world R) (Q : A -> world R -> Prop) : Prop :=
  match m w with
  | Ok a w' => Q a w'
  | Fault => False
  end.

(** The flags isioFileOpen opens an object with, by the mode string. *)
Definition open_flags (modes : string) : Z :=
  if String.prefix "r+" modes then O_RDWR
  else if String.prefix "w" modes then O_WRONLY
  else O_RDONLY.

(** The size of block [b] of the heap, or -1 if it is not allocated. *)
Definition block_size (h : heap) (b : block) : Z :=
  match h !! b with
  | Some (Some bytes) => Z.of_nat (length bytes)
  | _ => -1
  end.

(** The buffer of [f] lies within one allocated block of [h], and the
    position in the same block. *)
Definition buffer_in (h : heap) (f : ISIO_FILE) : Prop :=
  match base f, ptr f with
  | Ptr b bo, Ptr b' _ => b' = b /\ 0 <= bo /\ bo + bufferSize f <= block_size h b
  | _, _ => False
  end.

(** [p] points to [n] bytes of an allocated block other than [b]. *)
Definition room_at (h : heap) (p : pointer) (n : Z) (b : block) : Prop :=
  match p with
  | Ptr b' o => b' <> b /\ 0 <= o /\ o + n <= block_size h b'
  | NULL => False
  end.

(** The block a pointer points into. *)
Definition ptr_block (p : pointer) : block :=
  match p with NULL => O | Ptr b _ => b end.

(** ** States to run the code from

    Each is what the code itself leaves behind when run from the start
    of the process against the server above. *)

Definition world_after {A} (m : M sim A) (w : world sim) : world sim :=
  match m w with Ok _ w' => w' | Fault => w end.

(** What a computation returns, the sizes of the writes the server has
    received by then, and the server's position. *)
Definition run_summary {A} (m : M sim A) (w : world sim) : option (A * list Z * Z) :=
  match m w with
  | Ok a w' => Some (a, sent w', pos (remote w'))
  | Fault => None
  end.

(** [n] bytes that differ from place to place: 0, 1, ..., 250, 0, ... *)
Definition period : list byte :=
  map (fun i => byte_of_Z (Z.of_nat i)) (seq 0 251).

Fixpoint pattern_from (k : nat) (rest : list byte) : list byte :=
  match k with
  | O => []
  | S k' =>
      match rest with
      | b :: rest' => b :: pattern_from k' rest'
      | [] => x00 :: pattern_from k' (tail period)
      end
  end.

Definition pattern (n : Z) : list byte := pattern_from (Z.to_nat n) period.

Fixpoint bytes_eqb (xs ys : list byte) : bool :=
  match xs, ys with
  | [], [] => true
  | x :: xs', y :: ys' => Byte.eqb x y && bytes_eqb xs' ys'
  | _, _ => false
  end.

(** One remote file opened for update: its FILE * is 1. *)
Definition opened (user : list byte) (r : sim) : world sim :=
  world_after (irodsfopen "irods:/zone/home/data.bam" "r+") (world0 user r).

(** A fresh handle on an empty object, and [n] bytes to write. *)
Definition fresh (n : Z) : world sim := opened (zeros n) sim0.

(** ... with the coming allocation failing. *)
Definition fresh_no_memory (n : Z) : world sim := set_alloc_plan [false] (fresh n).

(** A server holding a four-byte object. *)
Definition sim4 : sim := mkSim [x01; x02; x03; x04] 0 3 [].

(** A fresh handle on a sixteen-byte object, the caller's buffer having
    room for [n] bytes; [answers] are the statuses forced on the calls
    after the open. *)
Definition reading (n : Z) (answers : list (option Z)) : world sim :=
  opened (zeros n) (mkSim (pattern 16) 0 3 (None :: answers)).

(** A fresh handle and the first [n] bytes of the caller's buffer
    written to it. *)
Definition written (user : list byte) (n : Z) (r : sim) : world sim :=
  world_after (irodsfwrite user_buffer 1 n 1) (opened user r).


(** Three bytes written to a handle whose server will refuse the next
    write with status -2. *)
Definition refusing : world sim :=
  written (zeros 65536) 3 (mkSim [] 0 3 [None; Some (-2)]).

(** The round trip of the spec on a fresh handle: write the caller's
    [n] bytes at offset 0, seek to 0, wipe the caller's buffer, read [n]
    bytes.  The result is what the three calls returned and the first
    [k] bytes of the caller's buffer, [k] being what the read returned
    (none if that is not a count within the buffer). *)
Definition round_trip (n : Z) : M sim (Z * Z * Z * list byte) :=
  do wr <- irodsfwrite user_buffer 1 n 1;
  do sk <- irodsfseek 1 0 SEEK_SET;
  do_ store_bytes user_buffer (zeros n);
  do rd <- irodsfread user_buffer 1 n 1;
  match wr, sk, rd with
  | Cached wr, Cached sk, Cached rd =>
      do got <- (if (0 <=? rd) && (rd <=? n) then load_bytes user_buffer rd else ret []);
      ret (wr, sk, rd, got)
  | _, _, _ => fault
  end.

(** Whether the round trip gave back the [n] bytes of [data]. *)
Definition round_trip_holds (data : list byte) : bool :=
  let n := Z.of_nat (length data) in
  match result_of (round_trip n) (opened data sim0) with
  | Some (wr, sk, rd, got) => (wr =? n) && (sk =? 0) && (rd =? n) && bytes_eqb got data
  | None => false
  end.

(** What the round trip returned, the bytes cut down to their first
    [k]. *)
Definition round_trip_outcome (k : nat) (data : list byte)
  : option (Z * Z * Z * list byte) :=
  match result_of (round_trip (Z.of_nat (length data))) (opened data sim0) with
  | Some (wr, sk, rd, got) => Some (wr, sk, rd, take k got)
  | None => None
  end.

(** [k] remote files opened one after the other. *)
Fixpoint open_many (k : nat) : M sim (list (dispatch Z)) :=
  match k with
  | O => ret []
  | S k' =>
      do fps <- open_many k';
      do fp <- irodsfopen "irods:/zone/home/data.bam" "r";
      ret (fps ++ [fp])
  end.

(** Twenty files open: every slot of the table taken. *)
Definition table_full : world sim :=
  world_after (open_many 20) (world0 [] sim0).

(** A handle on the four-byte object after one byte was read: the other
    three are in the cache, unread. *)
Definition read_one : world sim :=
  world_after (irodsfread user_buffer 1 1 1) (opened (zeros 4) sim4).

(** ** bam_decode.c: matching barcode reads against the barcode file

    The functions of [src/bam_decode.c] that do the matching.  A C
    string is the [string] of its characters before the terminator; a
    [char *] that may be NULL is an [option].  A result [None] on the
    outside is undefined behaviour of the C program (a read past the
    end of a string, a NULL passed to strlen or strdup).  The barcode
    hash is the list of its entries in the order the iteration visits
    them. *)

Module BamDecode.
Import Stdlib.Strings.Ascii.

Definition DEFAULT_MAX_LOW_QUALITY_TO_CONVERT : Z := 15.

(** [char] is signed on the target. *)
Definition char_value (c : Ascii.ascii) : Z :=
  let n := Z.of_nat (Ascii.nat_of_ascii c) in
  if n <? 128 then n else n - 256.

(** strdup, which returns NULL when there is no memory. *)
Definition strdup (ok : bool) (s : string) : option string :=
  if ok then Some s else None.

Record bc_details_t : Type := mk_bc_details {
  seq : string;
  name : string;
  reads : Z;
  pf_reads : Z;
  perfect : Z;
  pf_perfect : Z;
  one_mismatch : Z;
  pf_one_mismatch : Z
}.

(** The fields of state_t the matching reads. *)
Record state_t : Type := mk_state {
  tag_length : Z;
  convert_low_quality : bool;
  max_low_quality_to_convert : Z;
  max_no_calls : Z;
  max_mismatches : Z;
  min_mismatch_delta : Z
}.

(** checkBarcodeQuality: a new barcode read with the low quality bases
    converted to 'N'. *)
Fixpoint checkBarcodeQuality_loop (barcode quality : string) (mlq : Z) : string :=
  match barcode, quality with
  | String b barcode', String q quality' =>
      String (if char_value q - 33 <=? mlq then "N"%char else b)
             (checkBarcodeQuality_loop barcode' quality' mlq)
  | _, _ => EmptyString
  end.

Definition checkBarcodeQuality (strdup_ok : bool) (barcode quality : option string)
  (threshold : Z) : option (option string) :=
  match quality with
  | None =>
      match barcode with
      | Some b => Some (strdup strdup_ok b)
      | None => None
      end
  | Some q =>
      match barcode with
      | None => Some None
      | Some b =>
          if negb (String.length b =? String.length q)%nat then Some None
          else
            let mlq := if negb (threshold =? 0)
                       then threshold
                       else DEFAULT_MAX_LOW_QUALITY_TO_CONVERT in
            match strdup strdup_ok b with
            | Some _ => Some (Some (checkBarcodeQuality_loop b q mlq))
            | None => if (String.length q =? 0)%nat then Some None else None
            end
      end
  end.

(** isNoCall: true if base is a noCall. *)
Definition isNoCall (b : Ascii.ascii) : bool :=
  Ascii.eqb b "N"%char || Ascii.eqb b "n"%char || Ascii.eqb b "."%char.

(** noCalls: the number of noCalls in a sequence. *)
Fixpoint noCalls_from (s : string) (n : Z) : Z :=
  match s with
  | EmptyString => n
  | String c s' => noCalls_from s' (if isNoCall c then to_int (n + 1) else n)
  end.

Definition noCalls (s : string) : Z := noCalls_from s 0.

(** countMismatches: the number of mismatches between two sequences,
    ignoring noCalls.  The loop runs over [tag]; [b] is what the pointer
    into the barcode read points to: the rest of the string, which is
    empty at the terminator, or [None] past the terminator.  The barcode
    read is looked at only where the tag has no noCall. *)
Fixpoint countMismatches_from (t : string) (b : option string) (n : Z) : option Z :=
  match t with
  | EmptyString => Some n
  | String tc t' =>
      let b' := match b with Some (String _ rest) => Some rest | _ => None end in
      if isNoCall tc then countMismatches_from t' b' n
      else
        match b with
        | None => None
        | Some bs =>
            let bc := match bs with String c _ => c | EmptyString => Ascii.zero end in
            countMismatches_from t' b'
              (if isNoCall bc then n
               else if Ascii.eqb tc bc then n else to_int (n + 1))
        end
  end.

Definition countMismatches (tag barcode : string) : option Z :=
  countMismatches_from tag (Some barcode) 0.

(** findBestMatch: the best match in the barcode file for a barcode
    read; the tag if a match was found, else NULL. *)
Fixpoint findBestMatch_loop (entries : list bc_details_t) (barcode : string)
  (best_match : option string) (nmBest nm2Best : Z) : option (option string * Z * Z) :=
  match entries with
  | [] => Some (best_match, nmBest, nm2Best)
  | bcd :: rest =>
      match countMismatches (seq bcd) barcode with
      | None => None
      | Some nMismatches =>
          if nMismatches <? nmBest then
            findBestMatch_loop rest barcode (Some (seq bcd)) nMismatches
              (match best_match with Some _ => nmBest | None => nm2Best end)
          else
            findBestMatch_loop rest barcode best_match nmBest
              (if nMismatches <? nm2Best then nMismatches else nm2Best)
      end
  end.

(** noCalls(barcode) dereferences [barcode] first. *)
Definition findBestMatch (strdup_ok : bool) (barcode : option string)
  (barcodeHash : list bc_details_t) (state : state_t) : option (option string) :=
  match barcode with
  | None => None
  | Some barcode =>
      let bcLen := tag_length state in
      let nCalls := noCalls barcode in
      match findBestMatch_loop barcodeHash barcode None bcLen bcLen with
      | None => None
      | Some (best_match, nmBest, nm2Best) =>
          match best_match with
          | Some s =>
              if (nCalls <=? max_no_calls state) && (nmBest <=? max_mismatches state)
                 && (min_mismatch_delta state <=? to_int (nm2Best - nmBest))
              then Some (strdup strdup_ok s)
              else Some None
          | None => Some None
          end
      end
  end.

(** updateMetrics: [seq] is NULL for a read that matched no barcode. *)
Definition updateMetrics (bcd : bc_details_t) (read : option string) (isPf : bool)
  : option bc_details_t :=
  match (match read with
         | Some s => countMismatches (seq bcd) s
         | None => Some 99
         end) with
  | None => None
  | Some n =>
      let bump (hit : bool) (v : Z) : Z := if hit then to_int (v + 1) else v in
      Some (mk_bc_details (seq bcd) (name bcd)
              (bump true (reads bcd))
              (bump isPf (pf_reads bcd))
              (bump (n =? 0) (perfect bcd))
              (bump ((n =? 0) && isPf) (pf_perfect bcd))
              (bump (n =? 1) (one_mismatch bcd))
              (bump ((n =? 1) && isPf) (pf_one_mismatch bcd)))
  end.

(** kh_get: the entry whose key is [s]. *)
Fixpoint kh_get (barcodeHash : list bc_details_t) (s : string) : option nat :=
  match barcodeHash with
  | [] => None
  | bcd :: rest =>
      if String.eqb (seq bcd) s then Some O
      else match kh_get rest s with Some i => Some (S i) | None => None end
  end.

(** findBarcodeName: the best match in the barcode file, and the name of
    its entry; NULL if no match was found.  The metrics of the entry, or
    of nullMetric, are updated.  A failed assert ends the program, which
    is [None] as well. *)
Definition findBarcodeName (strdup_ok : bool) (barcode : option string)
  (barcodeHash : list bc_details_t) (nullMetric : bc_details_t) (state : state_t)
  (isPf : bool) : option (option string * list bc_details_t * bc_details_t) :=
  match findBestMatch strdup_ok barcode barcodeHash state with
  | None => None
  | Some None =>
      match updateMetrics nullMetric None isPf with
      | Some nullMetric' => Some (None, barcodeHash, nullMetric')
      | None => None
      end
  | Some (Some s) =>
      match kh_get barcodeHash s with
      | None => None
      | Some k =>
          match barcodeHash !! k with
          | None => None
          | Some bcd =>
              match updateMetrics bcd barcode isPf with
              | Some bcd' => Some (Some (name bcd), <[k := bcd']> barcodeHash, nullMetric)
              | None => None
              end
          end
      end
  end.

(** What decode does with the barcode tag [seq] of a record and its
    quality tag [qual] (NULL if the record has none): the name the
    record is tagged with.  The three flags say whether the strdup of
    decode, of checkBarcodeQuality and of findBestMatch succeed. *)
Definition decode_barcode (newseq_ok quality_ok match_ok : bool) (barcode_tag : string)
  (quality_tag : option string) (barcodeHash : list bc_details_t)
  (nullMetric : bc_details_t) (state : state_t) (isPf : bool)
  : option (string * list bc_details_t * bc_details_t) :=
  let newseq := strdup newseq_ok barcode_tag in
  match (if convert_low_quality state then
           match quality_tag with
           | Some qual =>
               checkBarcodeQuality quality_ok (Some barcode_tag) (Some qual)
                                   (max_low_quality_to_convert state)
           | None => Some newseq
           end
         else Some newseq) with
  | None => None
  | Some newseq =>
      match findBarcodeName match_ok newseq barcodeHash nullMetric state isPf with
      | None => None
      | Some (found, barcodeHash', nullMetric') =>
          Some (match found with Some n => n | None => "0"%string end,
                barcodeHash', nullMetric')
      end
  end.

(** writeMetrics: the reads counted in all, nullMetric included, as the
    first loop adds them up in an int. *)
Definition total_reads (barcodeHash : list bc_details_t) (nullMetric : bc_details_t) : Z :=
  fold_left (fun total bcd => to_int (total + reads bcd)) barcodeHash (reads nullMetric).

End BamDecode.

Arguments to_int : simpl never.
Arguments to_long : simpl never.
Arguments to_size_t : simpl never.

(** * Properties *)

(** ** Integer conversions *)

Lemma to_int_id (z : Z) : int_range z -> to_int z = z.
Proof.
  unfold int_range, to_int. intros Hz.
  rewrite Z.mod_small by lia. lia.
Qed.

Lemma to_size_t_id (z : Z) : size_t_range z -> to_size_t z = z.
Proof.
  unfold size_t_range, to_size_t. intros Hz.
  apply Z.mod_small. lia.
Qed.

Lemma to_size_t_neg (z : Z) : - 2 ^ 64 <= z < 0 -> to_size_t z = 2 ^ 64 + z.
Proof.
  unfold to_size_t. intros Hz.
  symmetry. apply (Z.mod_unique z (2 ^ 64) (-1)); lia.
Qed.

Lemma to_int_range (z : Z) : int_range (to_int z).
Proof.
  unfold int_range, to_int.
  pose proof (Z.mod_pos_bound (z + 2 ^ 31) (2 ^ 32)). lia.
Qed.

Lemma bounds_invariantb_spec (f : ISIO_FILE) :
  bounds_invariantb f = true <-> bounds_invariant f.
Proof.
  unfold bounds_invariantb, bounds_invariant.
  rewrite !andb_true_iff, !Z.leb_le. tauto.
Qed.

(** ** The heap *)


Lemma load_length (h : heap) (p : pointer) (n : Z) (bs : list byte) :
  load h p n = Some bs -> Z.of_nat (length bs) = n.
Proof.
  unfold load. destruct p as [|b o]; [discriminate|].
  destruct (h !! b) as [[bytes|]|]; try discriminate.
  destruct (_ && _) eqn:E; [|discriminate].
  intros [= <-]. apply andb_true_iff in E as [E E3].
  apply andb_true_iff in E as [E1 E2].
  apply Z.leb_le in E1, E2, E3.
  rewrite length_take, length_drop. lia.
Qed.

(** ** The monad *)

Lemma bind_eq {R A B} (m : M R A) (k : A -> M R B) (w w' : world R) (a : A) :
  m w = Ok a w' -> bind m k w = k a w'.
Proof. intros Hm. unfold bind. now rewrite Hm. Qed.

Lemma post_ret {R A} (a : A) (w : world R) (Q : A -> world R -> Prop) :
  Q a w -> post (ret a) w Q.
Proof. trivial. Qed.

Lemma post_bind {R A B} (m : M R A) (k : A -> M R B) (w : world R)
  (Q : B -> world R -> Prop) :
  post m w (fun a w' => post (k a) w' Q) -> post (bind m k) w Q.
Proof. unfold post, bind. destruct (m w); trivial. Qed.

Lemma post_mono {R A} (m : M R A) (w : world R) (Q Q' : A -> world R -> Prop) :
  post m w Q -> (forall a w', Q a w' -> Q' a w') -> post m w Q'.
Proof. unfold post. destruct (m w); auto. Qed.

Lemma post_fault {R A} (w : world R) (Q : A -> world R -> Prop) :
  post fault w Q.
Proof. exact I. Qed.

(** ** Which primitives reach the server *)

Section Silent.
Context {R : Type}.

Lemma next_alloc_silent : silent (@next_alloc R).
Proof. intros w. unfold post, next_alloc. destruct (alloc_plan w); reflexivity. Qed.

Lemma malloc_silent (n : Z) : silent (@malloc R n).
Proof.
  intros w. unfold post, malloc, bind, next_alloc, ret.
  destruct (alloc_plan w) as [|[] ?]; reflexivity.
Qed.

Lemma free_silent (p : pointer) : silent (@free R p).
Proof.
  intros w. unfold post, free.
  destruct p as [|b [| |]]; trivial.
  destruct (mem w !! b) as [[|]|]; trivial.
Qed.

Lemma realloc_silent (p : pointer) (n : Z) : silent (@realloc R p n).
Proof.
  intros w. destruct p as [|b [| |]]; try exact I.
  - apply malloc_silent.
  - unfold post, realloc.
    destruct (mem w !! b) as [[|]|]; trivial.
    unfold bind, next_alloc, ret.
    destruct (alloc_plan w) as [|[] ?]; reflexivity.
Qed.

Lemma memcpy_silent (dst src : pointer) (n : Z) : silent (@memcpy R dst src n).
Proof.
  intros w. unfold post, memcpy.
  destruct (load (mem w) src n); trivial.
  destruct (store (mem w) dst l); trivial.
Qed.

Lemma load_bytes_silent (p : pointer) (n : Z) : silent (@load_bytes R p n).
Proof. intros w. unfold post, load_bytes. destruct (load (mem w) p n); trivial. Qed.

Lemma store_bytes_silent (p : pointer) (bs : list byte) : silent (@store_bytes R p bs).
Proof. intros w. unfold post, store_bytes. destruct (store (mem w) p bs); trivial. Qed.

Lemma remote_call_one {A} (c : call) (f : R -> A * R) (w : world R) :
  post (remote_call c f) w (fun _ w' => ncalls w' = ncalls w + 1).
Proof.
  unfold post, remote_call. destruct (f (remote w)). unfold ncalls. simpl.
  rewrite length_app. simpl. lia.
Qed.

End Silent.

(** ** isioFlush *)

Section Flush.
Context {R : Type} `{RemoteSession R}.

Lemma isioFlush_clean (ifp : ISIO_FILE) (w : world R) :
  dirty ifp = 0 -> isioFlush ifp w = Ok (0, ifp) w.
Proof.
  intros Hd. unfold isioFlush. rewrite Hd. reflexivity.
Qed.

Lemma isioFlush_dirty (ifp : ISIO_FILE) (w : world R) (data : list byte) (st : Z) (r' : R) :
  dirty ifp <> 0 ->
  load (mem w) (base ifp) (to_int (cursor ifp + count ifp)) = Some data ->
  rcDataObjWrite (l1descInx ifp) data (remote w) = (st, r') ->
  isioFlush ifp w
  = Ok (st, if 0 <=? st then set_dirty 0 ifp else ifp)
       (after_call w r' (CallWrite (l1descInx ifp) data)).
Proof.
  intros Hd Hload Hwrite.
  unfold isioFlush, do_rcDataObjWrite, load_bytes, remote_call, bind, ret.
  apply Z.eqb_neq in Hd. rewrite Hd. simpl.
  unfold cursor in Hload. rewrite Hload, Hwrite. reflexivity.
Qed.

Lemma new_calls_one {A} (m : M R A) (w : world R) (a : A) (r' : R) (c : call) :
  m w = Ok a (after_call w r' c) -> new_calls m w = Some [c].
Proof.
  intros Hm. unfold new_calls. rewrite Hm. simpl.
  now rewrite drop_app_length.
Qed.

End Flush.

(** ** isioFileRead on a handle that was written to *)

Section ReadAfterWrite.
Context {R : Type} `{RemoteSession R}.

(** A read on a dirty handle whose flush fails returns the status of
    the flush. *)
Lemma isioFileRead_flush_error
  (ifp : ISIO_FILE) (buffer : pointer) (maxToRead : Z) (w : world R)
  (data : list byte) (st : Z) (r' : R) :
  dirty ifp <> 0 ->
  maxToRead <> 0 ->
  load (mem w) (base ifp) (to_int (cursor ifp + count ifp)) = Some data ->
  rcDataObjWrite (l1descInx ifp) data (remote w) = (st, r') ->
  st < 0 ->
  isioFileRead ifp buffer maxToRead w
  = Ok (st, ifp) (after_call w r' (CallWrite (l1descInx ifp) data)).
Proof.
  intros Hd Hn Hload Hwrite Hst.
  pose proof (isioFlush_dirty ifp w data st r' Hd Hload Hwrite) as Hflush.
  apply Z.eqb_neq in Hn.
  unfold isioFileRead. rewrite Hn. cbv iota.
  rewrite (bind_eq _ _ _ _ _ Hflush).
  assert (E1 : (0 <=? st) = false) by now apply Z.leb_gt.
  assert (E2 : (st <? 0) = true) by now apply Z.ltb_lt.
  rewrite E1, E2. reflexivity.
Qed.


End ReadAfterWrite.

(** ** Counting the calls to the server *)

Ltac bool_to_prop :=
  repeat match goal with
  | H : (_ <? _) = true |- _ => apply Z.ltb_lt in H
  | H : (_ <? _) = false |- _ => apply Z.ltb_ge in H
  | H : (_ <=? _) = true |- _ => apply Z.leb_le in H
  | H : (_ <=? _) = false |- _ => apply Z.leb_gt in H
  | H : (_ =? _) = true |- _ => apply Z.eqb_eq in H
  | H : (_ =? _) = false |- _ => apply Z.eqb_neq in H
  | H : negb _ = true |- _ => apply negb_true_iff in H
  | H : negb _ = false |- _ => apply negb_false_iff in H
  | H : (_ && _) = true |- _ => apply andb_true_iff in H; destruct H
  | H : (_ || _) = false |- _ => apply orb_false_iff in H; destruct H
  end.

(** One step of a computation under [post]. *)
Ltac post_step :=
  lazymatch goal with
  | |- post (bind _ _) _ _ => apply post_bind
  | |- post (ret _) _ _ => apply post_ret; cbv beta
  | |- post fault _ _ => apply post_fault
  | |- post (if ?c then _ else _) _ _ => destruct c eqn:?
  | |- post (match ?x with _ => _ end) _ _ => destruct x eqn:?
  | |- post (let _ := _ in _) _ _ => cbv zeta
  end.

Section CallCount.
Context {R : Type} `{RemoteSession R}.

Lemma do_rcDataObjWrite_one (idx : Z) (buf : pointer) (len : Z) (w : world R) :
  post (do_rcDataObjWrite idx buf len) w (fun _ w' => ncalls w' = ncalls w + 1).
Proof.
  unfold do_rcDataObjWrite. post_step.
  eapply post_mono; [apply load_bytes_silent|]. intros data w1 E1. simpl in E1.
  eapply post_mono; [apply remote_call_one|]. intros st w2 E2. simpl in E2. lia.
Qed.

Lemma do_rcDataObjRead_one (idx : Z) (buf : pointer) (len : Z) (w : world R) :
  post (do_rcDataObjRead idx buf len) w (fun _ w' => ncalls w' = ncalls w + 1).
Proof.
  unfold do_rcDataObjRead. post_step.
  eapply post_mono; [apply remote_call_one|]. intros [st data] w1 E1. simpl in E1.
  repeat post_step; trivial.
  eapply post_mono; [apply store_bytes_silent|]. intros [] w2 E2. simpl in E2.
  post_step. lia.
Qed.

Lemma do_rcDataObjLseek_one (idx offset whence : Z) (w : world R) :
  post (do_rcDataObjLseek idx offset whence) w (fun _ w' => ncalls w' = ncalls w + 1).
Proof. apply remote_call_one. Qed.

(** isioFlush changes nothing but the dirty flag, and calls the server
    once if the handle is dirty. *)
Lemma isioFlush_calls (ifp : ISIO_FILE) (w : world R) :
  post (isioFlush ifp) w
    (fun '(st, f') w' =>
       ncalls w' = ncalls w + (if dirty ifp =? 0 then 0 else 1)
       /\ (f' = ifp \/ f' = set_dirty 0 ifp)
       /\ (dirty ifp = 0 -> st = 0 /\ f' = ifp)
       /\ (0 <= st -> dirty f' = 0)).
Proof.
  unfold isioFlush. destruct (dirty ifp =? 0) eqn:Hd; simpl.
  - apply post_ret. bool_to_prop. repeat split; auto; lia.
  - post_step. eapply post_mono; [apply do_rcDataObjWrite_one|].
    intros st w1 E1. simpl in E1. post_step.
    bool_to_prop. repeat split; trivial.
    + destruct (0 <=? st); auto.
    + contradiction.
    + contradiction.
    + intros Hst. apply Z.leb_le in Hst. now rewrite Hst.
Qed.

Lemma isioFileTell_one (ifp : ISIO_FILE) (w : world R) :
  post (isioFileTell ifp) w (fun _ w' => ncalls w' = ncalls w + 1).
Proof.
  unfold isioFileTell. post_step.
  eapply post_mono; [apply do_rcDataObjLseek_one|].
  intros [st [offset|]] w1 E1; simpl in E1; post_step; trivial.
Qed.

(** isioFillBuffer asks for the position and reads: two calls, unless
    there is no buffer to fill. *)
Lemma isioFillBuffer_calls (ifp : ISIO_FILE) (w : world R) :
  post (isioFillBuffer ifp) w
    (fun '(st, f') w' =>
       (ncalls w' = ncalls w + 2
        /\ base f' = base ifp /\ bufferSize f' = bufferSize ifp
        /\ (0 <= st -> ptr f' = base ifp /\ 0 <= count f'))
       \/ (ncalls w' = ncalls w /\ st < 0 /\ f' = ifp)).
Proof.
  unfold isioFillBuffer.
  repeat post_step; try (right; repeat split; trivial; lia).
  eapply post_mono; [apply isioFileTell_one|]. intros p w1 E1. simpl in E1.
  cbv zeta. post_step.
  eapply post_mono; [apply do_rcDataObjRead_one|]. intros st w2 E2. simpl in E2.
  repeat post_step; bool_to_prop; left; simpl; repeat split; trivial; lia.
Qed.

End CallCount.

Ltac post_auto :=
  repeat first
    [ post_step
    | eapply post_mono; [apply memcpy_silent|]; intros [] ? ?
    | eapply post_mono; [apply realloc_silent|]; intros ? ? ?
    | eapply post_mono; [apply isioFlush_calls|]; intros [? ?] ? (? & ? & ? & ?)
    | eapply post_mono; [apply isioFillBuffer_calls|];
      intros [? ?] ? [(? & ? & ? & ?)|(? & ? & ?)]
    | eapply post_mono; [apply isioFileTell_one|]; intros ? ? ?
    | eapply post_mono; [apply do_rcDataObjWrite_one|]; intros ? ? ?
    | eapply post_mono; [apply do_rcDataObjLseek_one|]; intros [? ?] ? ? ].

Ltac split_ifs :=
  repeat match goal with
  | H : context [if ?c then _ else _] |- _ => destruct c eqn:?; simpl in H
  end.

Ltac flushed_cases :=
  repeat match goal with
  | H : _ = _ \/ _ = set_dirty 0 _ |- _ => destruct H
  end.

Section CallCountOperations.
Context {R : Type} `{RemoteSession R}.

(** isioFileRead: nothing when the request is empty or the unread bytes
    cover it, else a position query and a read; one write before
    either if the handle was dirty. *)
Lemma isioFileRead_calls (ifp : ISIO_FILE) (buffer : pointer) (maxToRead : Z)
  (w : world R) :
  post (isioFileRead ifp buffer maxToRead) w
    (fun '(st, f') w' =>
       let k := ncalls w' - ncalls w in
       let flushed := if dirty ifp =? 0 then 0 else 1 in
       let hit := 0 < count ifp /\ to_int maxToRead <= count ifp in
       (k = 0 \/ k = flushed \/ k = flushed + 2)
       /\ (maxToRead = 0 -> k = 0)
       /\ (maxToRead <> 0 -> hit -> k = flushed)
       /\ (maxToRead <> 0 -> ~ hit -> 0 <= st -> k = flushed + 2)).
Proof.
  unfold isioFileRead.
  post_auto; cbv zeta; bool_to_prop; flushed_cases; subst; simpl in *.
  all: try (repeat split; intros; try tauto; lia).
Qed.

(** What isioFileWrite computes first: the room left in the buffer and
    the part of the request that goes there. *)
Lemma write_sizes (ifp : ISIO_FILE) (n : Z) :
  bounds_invariant ifp -> int_range (bufferSize ifp) -> 0 <= n <= INT_MAX ->
  let space := bufferSize ifp - cursor ifp in
  to_int (bufferSize ifp - ptr_diff (ptr ifp) (base ifp)) = space
  /\ to_size_t space = space
  /\ to_int (if n <=? space then n else space) = Z.min n space
  /\ to_size_t (Z.min n space) = Z.min n space
  /\ to_int (to_size_t (n - Z.min n space)) = n - Z.min n space.
Proof.
  intros (Hc & Hs) Hb Hn space.
  unfold int_range, INT_MAX in *.
  fold (cursor ifp). fold space.
  assert (Hspace : 0 <= space < 2 ^ 31) by (unfold space; lia).
  assert (Hmin : 0 <= Z.min n space < 2 ^ 31) by lia.
  repeat split.
  - apply to_int_id. unfold int_range. lia.
  - apply to_size_t_id. unfold size_t_range. lia.
  - destruct (n <=? space) eqn:E; bool_to_prop;
      rewrite to_int_id by (unfold int_range; lia); lia.
  - apply to_size_t_id. unfold size_t_range. lia.
  - rewrite to_size_t_id by (unfold size_t_range; lia).
    apply to_int_id. unfold int_range. lia.
Qed.

(** isioFileWrite: nothing when the bytes fit in the buffer; else the
    flush, and one more write when the rest goes past the cache. *)
Lemma isioFileWrite_calls (ifp : ISIO_FILE) (buffer : pointer) (countToWrite : Z)
  (w : world R) :
  bounds_invariant ifp -> int_range (bufferSize ifp) ->
  0 <= countToWrite <= INT_MAX ->
  post (isioFileWrite ifp buffer countToWrite) w
    (fun '(st, f') w' =>
       let k := ncalls w' - ncalls w in
       let space := bufferSize ifp - cursor ifp in
       (countToWrite <= space -> k = 0)
       /\ (space < countToWrite -> countToWrite - space <= ISIO_MAX_BUF_SIZE -> k = 1)
       /\ (space < countToWrite -> ISIO_MAX_BUF_SIZE < countToWrite - space ->
           (k = 1 /\ st < 0) \/ k = 2)).
Proof.
  intros Hinv Hb Hn.
  destruct (write_sizes ifp countToWrite Hinv Hb Hn) as (E1 & E2 & E3 & E4 & E5).
  unfold isioFileWrite. cbv zeta. simpl bufferSize. simpl ptr. simpl base.
  rewrite E1, E2, E3, E4, E5.
  clear E1 E2 E3 E4 E5.
  unfold bounds_invariant, int_range, INT_MAX, ISIO_MAX_BUF_SIZE in *.
  post_auto; cbv zeta; bool_to_prop; split_ifs; simpl in *.
  all: repeat split; intros; lia.
Qed.

(** isioFileSeek: nothing inside the cached window; else the remote
    seek and a position query, after the flush of a dirty handle. *)
Lemma isioFileSeek_calls (ifp : ISIO_FILE) (offset whence : Z) (w : world R) :
  post (isioFileSeek ifp offset whence) w
    (fun '(st, f') w' =>
       let k := ncalls w' - ncalls w in
       let flushed := if dirty ifp =? 0 then 0 else 1 in
       (offset_in_current_buffer ifp offset whence <> None -> k = 0)
       /\ (offset_in_current_buffer ifp offset whence = None ->
           k = flushed + 2 \/ (k = 1 /\ st < 0 /\ dirty ifp <> 0))).
Proof.
  unfold isioFileSeek.
  destruct (offset_in_current_buffer ifp offset whence) as [adj|].
  - post_auto. split; [intros _; lia | discriminate].
  - post_auto; cbv zeta; bool_to_prop; split_ifs; bool_to_prop; simpl in *.
    all: repeat match goal with
         | Hd : dirty ?f = 0, Himp : dirty ?f = 0 -> _ |- _ =>
             destruct (Himp Hd); clear Himp
         end.
    all: split; [congruence | intros _].
    all: try destruct (0 <? _) eqn:?; bool_to_prop; lia.
Qed.

End CallCountOperations.

(** ** Which calls each operation makes, and in which order *)


Section Quiet.
Context {R : Type}.

Lemma next_alloc_quiet : quiet (@next_alloc R).
Proof. intros w. unfold post, next_alloc. destruct (alloc_plan w); reflexivity. Qed.






End Quiet.

Section CallKinds.
Context {R : Type} `{RemoteSession R}.








End CallKinds.




Section CallKindsOperations.
Context {R : Type} `{RemoteSession R}.





End CallKindsOperations.





(** ** The item counts irodsfread and irodsfwrite return *)

Section ItemCount.
Context {R : Type} `{RemoteSession R}.

Lemma is_in_map_handle_of (fp : Z) (f : ISIO_FILE) (w : world R) :
  1 <= fp <= ISIO_MAX_OPEN_FILES ->
  _cacheInfo w !! Z.to_nat (fp - 1) = Some (Some f) ->
  is_in_map (to_int (to_size_t fp)) w = Ok (Some (handle_of fp w)) w.
Proof.
  unfold ISIO_MAX_OPEN_FILES. intros Hfp Hslot.
  unfold is_in_map, handle_of.
  rewrite to_size_t_id by (unfold size_t_range; lia).
  rewrite (to_int_id fp) by (unfold int_range; lia).
  rewrite (to_int_id (fp - 1)) by (unfold int_range; lia).
  assert (E : (0 <=? fp - 1) && (fp - 1 <? ISIO_MAX_OPEN_FILES) = true).
  { unfold ISIO_MAX_OPEN_FILES. apply andb_true_iff.
    split; [apply Z.leb_le | apply Z.ltb_lt]; lia. }
  rewrite E, Hslot. reflexivity.
Qed.

Lemma on_handle_found {A} (fi_stream : Z) (op : ISIO_FILE -> M R (A * ISIO_FILE))
  (w w' : world R) (ifp ifp' : ISIO_FILE) (a : A) :
  is_in_map (to_int (to_size_t fi_stream)) w = Ok (Some ifp) w ->
  op ifp w = Ok (a, ifp') w' ->
  result_of (on_handle fi_stream op) w = Some (Cached a).
Proof.
  intros Hmap Hop. unfold result_of, on_handle.
  rewrite (bind_eq _ _ _ _ _ Hmap). rewrite (bind_eq _ _ _ _ _ Hop).
  reflexivity.
Qed.

Lemma result_of_bind {A B} (m : M R A) (k : A -> M R B) (w : world R) (a : A) (b : B) :
  result_of m w = Some a -> (forall w', k a w' = Ok b w') ->
  result_of (bind m k) w = Some b.
Proof.
  unfold result_of, bind. destruct (m w) as [a' w'|]; [|discriminate].
  intros [= ->] Hk. now rewrite Hk.
Qed.

Lemma error_quotient (itemsize e : Z) :
  1 <= itemsize < 2 ^ 64 -> int_range e -> e < 0 ->
  let q := (2 ^ 64 + e) / itemsize in
  to_size_t e / itemsize = q
  /\ 0 <= q
  /\ (1 <= q <-> itemsize <= 2 ^ 64 + e)
  /\ (itemsize <= 2 ^ 32 -> 2 ^ 32 - 1 <= q).
Proof.
  intros Hi He Hneg q. unfold int_range in He.
  rewrite to_size_t_neg by lia. fold q.
  split; [reflexivity|]. split; [|split].
  - apply Z.div_pos; lia.
  - split; intros Hq.
    + destruct (Z_le_gt_dec itemsize (2 ^ 64 + e)); trivial.
      unfold q in Hq. rewrite Z.div_small in Hq by lia. lia.
    + apply Z.div_le_lower_bound; lia.
  - intros Hsmall. apply Z.div_le_lower_bound; [lia|]. nia.
Qed.

(** C10, as the code has it.  When the cached read or write returns a
    negative status [e], irodsfread and irodsfwrite return the item
    count [(2^64 + e) / itemsize]: the status, converted to size_t,
    divided by itemsize.  That count is never negative; it is positive
    exactly for the item sizes up to [2^64 + e], at least [2^32 - 1]
    for the item sizes up to [2^32], and 0 for the item sizes above
    [2^64 + e]. *)
Theorem irodsf_error_item_count
  (buffer : pointer) (itemsize nitems fi_stream e : Z)
  (w : world R) (ifp : ISIO_FILE) :
  1 <= itemsize < 2 ^ 64 -> int_range e -> e < 0 ->
  is_in_map (to_int (to_size_t fi_stream)) w = Ok (Some ifp) w ->
  let q := (2 ^ 64 + e) / itemsize in
  (forall ifp' w',
     isioFileRead ifp buffer (to_size_t (itemsize * nitems)) w = Ok (e, ifp') w' ->
     result_of (irodsfread buffer itemsize nitems fi_stream) w = Some (Cached q))
  /\ (forall ifp' w',
       isioFileWrite ifp buffer (to_size_t (itemsize * nitems)) w = Ok (e, ifp') w' ->
       result_of (irodsfwrite buffer itemsize nitems fi_stream) w = Some (Cached q))
  /\ 0 <= q
  /\ (1 <= q <-> itemsize <= 2 ^ 64 + e)
  /\ (itemsize <= 2 ^ 32 -> 2 ^ 32 - 1 <= q).
Proof.
  intros Hi He Hneg Hmap q.
  destruct (error_quotient itemsize e Hi He Hneg) as (Hq & Hnonneg & Hpos & Hbig).
  fold q in Hq, Hnonneg, Hpos, Hbig.
  assert (Hdiv : forall w' : world R,
             (do q0 <- size_t_div e itemsize; ret (Cached q0)) w' = Ok (Cached q) w').
  { intros w'. unfold size_t_div, bind, ret.
    assert (E : (itemsize =? 0) = false) by (apply Z.eqb_neq; lia).
    rewrite E, Hq. reflexivity. }
  repeat split; trivial; try apply Hpos.
  - intros ifp' w' Hrun. unfold irodsfread.
    apply (result_of_bind _ _ w (Cached e)); [|exact Hdiv].
    now apply (on_handle_found _ _ w w' ifp ifp').
  - intros ifp' w' Hrun. unfold irodsfwrite.
    apply (result_of_bind _ _ w (Cached e)); [|exact Hdiv].
    now apply (on_handle_found _ _ w w' ifp ifp').
Qed.

End ItemCount.

(** C10, against the claim: with itemsize [SIZE_MAX] the status -2 of a
    failed read or write comes back as the item count 0. *)
Lemma irodsf_error_item_count_can_be_zero :
  result_of (isioFileRead (handle_of 1 refusing) user_buffer SIZE_MAX) refusing
  = Some (-2, handle_of 1 refusing)
  /\ result_of (irodsfread user_buffer SIZE_MAX 1 1) refusing = Some (Cached 0)
  /\ result_of (irodsfwrite user_buffer SIZE_MAX 1 1) refusing = Some (Cached 0).
Proof. vm_compute. repeat split. Qed.

(** With itemsize 1 the same failed read comes back as [2^64 - 2]
    items. *)
Lemma irodsf_error_item_count_witness :
  (1 <= 1 < 2 ^ 64 /\ int_range (-2) /\ -2 < 0)
  /\ result_of (irodsfread user_buffer 1 3 1) refusing = Some (Cached (2 ^ 64 - 2))
  /\ 1 <= (2 ^ 64 + -2) / 1.
Proof.
  assert (Hi : 1 <= 1 < 2 ^ 64) by lia.
  assert (He : int_range (-2)) by (unfold int_range; lia).
  assert (Hmap : is_in_map (to_int (to_size_t 1)) refusing
                 = Ok (Some (handle_of 1 refusing)) refusing).
  { apply (is_in_map_handle_of 1 (handle_of 1 refusing)).
    - unfold ISIO_MAX_OPEN_FILES. lia.
    - vm_compute. reflexivity. }
  destruct (irodsf_error_item_count user_buffer 1 3 1 (-2) refusing
              (handle_of 1 refusing) Hi He ltac:(lia) Hmap)
    as (Hread & _ & _ & Hpos & _).
  split; [auto with zarith|]. split.
  - apply (Hread (handle_of 1 refusing)
             (after_call refusing (mkSim [] 0 4 []) (CallWrite 3 [x00; x00; x00]))).
    apply (isioFileRead_flush_error (handle_of 1 refusing) user_buffer 3 refusing
             [x00; x00; x00] (-2) (mkSim [] 0 4 [])).
    + vm_compute. intros E. discriminate E.
    + discriminate.
    + vm_compute. reflexivity.
    + vm_compute. reflexivity.
    + lia.
  - apply Hpos. lia.
Defined.

(** ** The round trip *)

(** C2, on the code.  On a fresh handle the round trip gives the bytes
    back for 1 byte and for 65536 bytes (the initial capacity).  For
    65537 bytes the write returns 65537 and the seek to offset 0
    returns 0, but the read returns 1 item: byte 65536 of the data, the
    one byte left in the cache, which the seek took for offset 0
    because base_offset still was 0 after the cache had been flushed
    and refilled by the write. *)
Theorem round_trip_breaks_past_initial_capacity :
  round_trip_holds (pattern 1) = true
  /\ round_trip_holds (pattern 65536) = true
  /\ round_trip_holds (pattern 65537) = false
  /\ round_trip_outcome 2 (pattern 65537) = Some (65537, 0, 1, [x19])
  /\ take 2 (pattern 65537) = [x00; x01]
  /\ drop (Z.to_nat 65536) (pattern 65537) = [x19].
Proof. vm_compute. repeat split. Qed.

(** ** The handle table *)

Section Table.
Context {R : Type} `{RemoteSession R}.

Lemma is_in_map_pure (idx : Z) (w : world R) :
  post (is_in_map idx) w (fun _ w' => w' = w).
Proof.
  unfold post, is_in_map, ret.
  destruct (_ && _); [|reflexivity].
  now destruct (_cacheInfo w !! _).
Qed.

Lemma remote_call_keeps_table {A} (c : call) (f : R -> A * R) (w : world R) :
  post (remote_call c f) w (fun _ w' => _cacheInfo w' = _cacheInfo w).
Proof. unfold post, remote_call. now destruct (f (remote w)). Qed.

Lemma load_bytes_keeps_table (p : pointer) (n : Z) (w : world R) :
  post (load_bytes p n) w (fun _ w' => _cacheInfo w' = _cacheInfo w).
Proof. unfold post, load_bytes. now destruct (load (mem w) p n). Qed.

Lemma free_keeps_table (p : pointer) (w : world R) :
  post (free p) w (fun _ w' => _cacheInfo w' = _cacheInfo w).
Proof.
  unfold post, free. destruct p as [|b [| |]]; trivial.
  now destruct (mem w !! b) as [[|]|].
Qed.

Lemma isioFlush_keeps_table (ifp : ISIO_FILE) (w : world R) :
  post (isioFlush ifp) w (fun _ w' => _cacheInfo w' = _cacheInfo w).
Proof.
  unfold isioFlush, do_rcDataObjWrite. repeat post_step; trivial.
  eapply post_mono; [apply load_bytes_keeps_table|]. intros data w1 E1.
  eapply post_mono; [apply remote_call_keeps_table|]. intros st w2 E2.
  post_step. congruence.
Qed.

(** No slot is ever given back: after irodsfclose the table is what it
    was. *)
Lemma irodsfclose_keeps_table (fi_stream : Z) (w : world R) :
  post (irodsfclose fi_stream) w (fun _ w' => _cacheInfo w' = _cacheInfo w).
Proof.
  unfold irodsfclose. post_step.
  eapply post_mono; [apply is_in_map_pure|]. intros [ifp|] w0 ->.
  - unfold isioFileClose, destroy_isio_file. post_step. post_step.
    eapply post_mono; [apply isioFlush_keeps_table|]. intros [st f'] w1 E1.
    repeat post_step; trivial.
    + eapply post_mono; [apply remote_call_keeps_table|]. intros st2 w2 E2.
      post_step. congruence.
    + eapply post_mono; [apply free_keeps_table|]. intros [] w2 E2.
      post_step.
      eapply post_mono; [apply remote_call_keeps_table|]. intros st3 w3 E3.
      post_step. congruence.
  - post_step. reflexivity.
Qed.

(** With no NULL slot add_to_map returns NULL and leaves the table as it
    is. *)
Lemma add_to_map_scan_full (idxs : list nat) (tbl : list (option ISIO_FILE)) :
  Forall (fun slot => slot <> None) tbl -> add_to_map_scan idxs tbl = None.
Proof.
  intros Hfull. induction idxs as [|i rest IH]; [reflexivity|].
  simpl. destruct (tbl !! i) as [[f|]|] eqn:E; trivial.
  apply list_elem_of_lookup_2 in E.
  rewrite Forall_forall in Hfull. now destruct (Hfull None E).
Qed.

Lemma add_to_map_full (ifp : option ISIO_FILE) (w : world R) :
  Forall (fun slot => slot <> None) (_cacheInfo w) -> add_to_map ifp w = Ok 0 w.
Proof.
  intros Hfull. destruct ifp as [f|]; [|reflexivity].
  unfold add_to_map. now rewrite add_to_map_scan_full.
Qed.

End Table.

(** C7, on the code.  With twenty files open the table has no free slot
    and one more irodsfopen returns NULL (after isioFileOpen has opened
    the object and allocated a handle for it: the heap has one block
    more).  Closing handle 5 succeeds, but leaves its slot occupied, so
    the irodsfopen that follows returns NULL again. *)
Theorem table_slot_never_released :
  result_of (open_many 20) (world0 [] sim0)
  = Some (map (fun i => Cached (Z.of_nat i)) (seq 1 20))
  /\ free_slots table_full = 0
  /\ result_of (irodsfopen "irods:/zone/home/more.bam" "r") table_full = Some (Cached 0)
  /\ Z.of_nat (length (mem (world_after (irodsfopen "irods:/zone/home/more.bam" "r")
                                         table_full)))
     = Z.of_nat (length (mem table_full)) + 1
  /\ result_of (irodsfclose 5) table_full = Some (Cached 0)
  /\ free_slots (world_after (irodsfclose 5) table_full) = 0
  /\ result_of (irodsfopen "irods:/zone/home/more.bam" "r")
               (world_after (irodsfclose 5) table_full)
     = Some (Cached 0).
Proof. vm_compute. repeat split. Qed.

(** ** The bounds, operation by operation *)

(** Pointers that are known not to be NULL, as block and offset. *)
Ltac ptr_cases :=
  unfold cursor, ptr_diff in *; simpl in *;
  repeat match goal with
  | Hnull : is_null ?p = false |- _ =>
      destruct p as [|? ?] eqn:?; [discriminate Hnull|]; clear Hnull
  end;
  simpl in *.

(** Conversions of values that are in range anyway. *)
Ltac to_int_ids :=
  repeat match goal with
  | |- context [to_int ?e] =>
      let E := fresh "E" in
      assert (E : to_int e = e) by (apply to_int_id; unfold int_range; lia);
      rewrite !E in *; clear E
  | Hctx : context [to_int ?e] |- _ =>
      let E := fresh "E" in
      assert (E : to_int e = e) by (apply to_int_id; unfold int_range; lia);
      rewrite !E in *; clear E
  end.

(** What is left of [to_int e] once all that is known is its range. *)
Ltac to_int_atoms :=
  repeat match goal with
  | |- context [to_int ?e] =>
      let Hr := fresh "Hr" in
      pose proof (to_int_range e) as Hr; unfold int_range in Hr;
      let v := fresh "v" in
      set (v := to_int e) in *; clearbody v
  | Hctx : context [to_int ?e] |- _ =>
      let Hr := fresh "Hr" in
      pose proof (to_int_range e) as Hr; unfold int_range in Hr;
      let v := fresh "v" in
      set (v := to_int e) in *; clearbody v
  end.

Section Bounds.
Context {R : Type} `{RemoteSession R}.

Lemma isioFlush_bounds (ifp : ISIO_FILE) (w : world R) :
  handle_ok ifp -> post (isioFlush ifp) w (fun '(_, f') _ => handle_ok f').
Proof.
  intros Hok. eapply post_mono; [apply isioFlush_calls|].
  intros [st f'] w' (_ & [-> | ->] & _); exact Hok.
Qed.

Lemma isioFlush_result (ifp : ISIO_FILE) (w : world R) :
  post (isioFlush ifp) w
    (fun '(st, f') _ =>
       (st < 0 -> f' = ifp) /\ (0 <= st -> f' = ifp \/ f' = set_dirty 0 ifp)).
Proof.
  unfold isioFlush. destruct (negb (dirty ifp =? 0)).
  - post_step. eapply post_mono; [apply do_rcDataObjWrite_one|].
    intros st w1 _. post_step.
    destruct (0 <=? st) eqn:E; bool_to_prop; split; intros; auto; lia.
  - post_step. split; auto.
Qed.

(** isioFileSeek keeps the bounds. *)
Lemma isioFileSeek_bounds (ifp : ISIO_FILE) (offset whence : Z) (w : world R) :
  handle_ok ifp ->
  post (isioFileSeek ifp offset whence) w (fun '(_, f') _ => handle_ok f').
Proof.
  intros (Hbase & Hptr & (Hc & Hs) & Hcount & Hb).
  unfold isioFileSeek.
  destruct (offset_in_current_buffer ifp offset whence) as [adj|] eqn:Hin.
  - assert (Hadj : - cursor ifp <= adj <= count ifp).
    { unfold offset_in_current_buffer in Hin. fold (cursor ifp) in Hin.
      repeat match type of Hin with
             | (if ?c then _ else _) = _ => destruct c eqn:?
             end; try discriminate; injection Hin as <-; bool_to_prop; lia. }
    clear Hin. post_auto. unfold handle_ok, bounds_invariant, int_range in *.
    simpl. rewrite to_int_id by (unfold int_range; lia).
    ptr_cases. repeat split; trivial; lia.
  - clear Hin. post_auto; flushed_cases; subst;
      unfold handle_ok, bounds_invariant, int_range in *; ptr_cases;
      repeat split; trivial; lia.
Qed.

(** isioFileWrite keeps the bounds, except when it has enlarged the
    buffer: then it returns with the cursor past bufferSize. *)
Lemma isioFileWrite_bounds (ifp : ISIO_FILE) (buffer : pointer) (countToWrite : Z)
  (w : world R) :
  handle_ok ifp -> 0 <= countToWrite <= INT_MAX ->
  let rest := countToWrite - (bufferSize ifp - cursor ifp) in
  post (isioFileWrite ifp buffer countToWrite) w
    (fun '(st, f') _ =>
       (rest <= bufferSize ifp \/ ISIO_MAX_BUF_SIZE < rest \/ st < 0 -> handle_ok f')
       /\ (bufferSize ifp < rest <= ISIO_MAX_BUF_SIZE -> 0 < st ->
           st = countToWrite /\ cursor f' = rest /\ bufferSize f' = bufferSize ifp
           /\ ~ bounds_invariant f')).
Proof.
  intros (Hbase & Hptr & Hinv & Hcount & Hb) Hn rest.
  destruct (write_sizes ifp countToWrite Hinv Hb Hn) as (E1 & E2 & E3 & E4 & E5).
  unfold isioFileWrite. cbv zeta. simpl bufferSize. simpl ptr. simpl base.
  rewrite E1, E2, E3, E4, E5. clear E1 E2 E3 E4 E5.
  subst rest.
  unfold handle_ok, bounds_invariant, int_range, INT_MAX, ISIO_MAX_BUF_SIZE in *.
  destruct ifp as [bo [|bb bofs] bs [|pb pofs] c d l]; try discriminate.
  unfold cursor, ptr_diff in *. simpl in *.
  post_auto; cbv zeta; bool_to_prop; flushed_cases; subst.
  all: ptr_cases.
  all: repeat rewrite to_int_id in * by (unfold int_range; lia).
  all: repeat (match goal with
               | |- context [if ?c then _ else _] => destruct c eqn:?
               | Hif : context [if ?c then _ else _] |- _ => destruct c eqn:?
               end; simpl in *).
  all: bool_to_prop.
  all: repeat split; intros; trivial; try lia.
Qed.

Lemma do_rcDataObjRead_bounded (idx : Z) (buf : pointer) (len : Z) (w : world R) :
  read_bounded R -> 0 <= len ->
  post (do_rcDataObjRead idx buf len) w (fun st _ => st <= len).
Proof.
  intros Hlaw Hlen. unfold do_rcDataObjRead, post, bind, remote_call.
  specialize (Hlaw idx len (remote w) Hlen).
  destruct (rcDataObjRead idx len (remote w)) as [[st data] r]. simpl in *.
  destruct (st <? 0); simpl; trivial.
  unfold store_bytes. simpl. destruct (store _ _ _); simpl; trivial.
Qed.

Lemma isioFillBuffer_bounds (ifp : ISIO_FILE) (w : world R) :
  read_bounded R ->
  post (isioFillBuffer ifp) w
    (fun '(st, f') _ =>
       base f' = base ifp /\ bufferSize f' = bufferSize ifp
       /\ (0 <= st -> ptr f' = base ifp /\ 0 <= count f' <= bufferSize ifp)).
Proof.
  intros Hlaw. unfold isioFillBuffer.
  repeat post_step; try (repeat split; trivial; lia).
  eapply post_mono; [apply isioFileTell_one|]. intros p w1 _.
  cbv zeta. post_step. bool_to_prop.
  eapply post_mono; [apply do_rcDataObjRead_bounded; trivial; simpl; lia|].
  intros st w2 Hst. simpl in Hst.
  repeat post_step; bool_to_prop; simpl; repeat split; trivial; lia.
Qed.

(** isioFileRead keeps the bounds whenever it returns a count. *)
Lemma isioFileRead_bounds (ifp : ISIO_FILE) (buffer : pointer) (maxToRead : Z)
  (w : world R) :
  read_bounded R -> handle_ok ifp -> is_null buffer = false ->
  0 <= maxToRead <= INT_MAX ->
  post (isioFileRead ifp buffer maxToRead) w
    (fun '(st, f') _ => 0 <= st -> handle_ok f').
Proof.
  intros Hlaw Hok Hbuf Hn.
  assert (Hint : to_int maxToRead = maxToRead)
    by (apply to_int_id; unfold int_range, INT_MAX in *; lia).
  unfold isioFileRead. rewrite Hint.
  unfold handle_ok, bounds_invariant, int_range, INT_MAX, ISIO_MAX_BUF_SIZE in *.
  destruct Hok as (Hbase & Hptr & (Hc & Hs) & Hcount & Hb).
  destruct ifp as [bo [|bb bofs] bs [|pb pofs] c d l]; try discriminate.
  destruct buffer as [|ub uofs]; try discriminate.
  unfold cursor, ptr_diff in *. simpl in *.
  repeat first
    [ post_step
    | eapply post_mono; [apply memcpy_silent|]; intros [] ? _
    | eapply post_mono; [apply realloc_silent|]; intros ? ? _
    | eapply post_mono; [apply isioFlush_calls|]; intros [? ?] ? (_ & ? & _ & _)
    | eapply post_mono; [apply (isioFillBuffer_bounds _ _ Hlaw)|];
      intros [? ?] ? (? & ? & ?) ];
    cbv zeta; bool_to_prop; flushed_cases; subst; simpl in *.
  all: intros Hst.
  all: repeat match goal with
       | Himp : 0 <= ?z -> _ |- _ =>
           first [ destruct Himp as (? & ?); [lia|] | clear Himp ]
       end.
  all: try lia.
  all: repeat match goal with
       | f : ISIO_FILE |- _ =>
           destruct f as [? [|? ?] ? [|? ?] ? ? ?]; simpl in *; subst;
           try discriminate
       end.
  all: repeat rewrite to_int_id in * by (unfold int_range; lia).
  all: repeat (match goal with
               | |- context [if ?c then _ else _] => destruct c eqn:?
               | Hif : context [if ?c then _ else _] |- _ => destruct c eqn:?
               end; simpl in *).
  all: bool_to_prop; simpl in *.
  all: repeat match goal with
       | Heq : Ptr _ _ = Ptr _ _ |- _ => injection Heq as ? ?; subst
       | Hnull : is_null ?p = false |- _ =>
           destruct p as [|? ?]; [discriminate Hnull|]; clear Hnull; simpl in *
       end.
  all: to_int_ids.
  all: to_int_atoms.
  all: repeat split; trivial; lia.
Qed.

(** The read that goes past the cache: when it returns a count the
    handle has its own buffer and capacity back and the cache is empty;
    when the server's read fails (the flush having succeeded) base is
    left pointing into the caller's buffer and bufferSize is the size of
    the request. *)
Lemma isioFileRead_bypass (ifp : ISIO_FILE) (buffer : pointer) (maxToRead : Z)
  (w : world R) :
  handle_ok ifp -> is_null buffer = false ->
  let rest := maxToRead - count ifp in
  0 < rest -> bufferSize ifp < 2 * rest + 8 -> ISIO_MAX_BUF_SIZE < 2 * rest + 8 ->
  2 * rest + 8 < 2 ^ 31 -> 0 < maxToRead <= INT_MAX ->
  post (isioFileRead ifp buffer maxToRead) w
    (fun '(st, f') _ =>
       (0 <= st ->
        base f' = base ifp /\ bufferSize f' = bufferSize ifp
        /\ cursor f' = 0 /\ count f' = 0)
       /\ (st < 0 ->
           f' = ifp
           \/ (base f' = (if 0 <? count ifp then ptr_add buffer (count ifp) else buffer)
               /\ bufferSize f' = rest))).
Proof.
  intros Hok Hbuf rest Hrest Hgrow Hmax Hno Hn. subst rest.
  assert (Hint : to_int maxToRead = maxToRead)
    by (apply to_int_id; unfold int_range, INT_MAX in *; lia).
  unfold isioFileRead. rewrite Hint.
  unfold handle_ok, bounds_invariant, int_range, INT_MAX, ISIO_MAX_BUF_SIZE in *.
  destruct Hok as (Hbase & Hptr & (Hc & Hs) & Hcount & Hb).
  destruct ifp as [bo [|bb bofs] bs [|pb pofs] c d l]; try discriminate.
  destruct buffer as [|ub uofs]; try discriminate.
  unfold cursor, ptr_diff in *. simpl in *.
  repeat first
    [ post_step
    | eapply post_mono; [apply memcpy_silent|]; intros [] ? _
    | eapply post_mono; [apply realloc_silent|]; intros ? ? _
    | eapply post_mono; [apply isioFlush_result|]; intros [? ?] ? (? & ?)
    | eapply post_mono; [apply isioFillBuffer_calls|];
      intros [? ?] ? [(_ & ? & ? & ?)|(_ & ? & ?)] ];
    cbv zeta; bool_to_prop;
    repeat match goal with
    | Himp : ?z < 0 -> _, Hz : ?z < 0 |- _ => specialize (Himp Hz)
    | Himp : 0 <= ?z -> _, Hz : 0 <= ?z |- _ => specialize (Himp Hz)
    | Himp : ?z < 0 -> _, Hz : 0 <= ?z |- _ => clear Himp
    | Himp : 0 <= ?z -> _, Hz : ?z < 0 |- _ => clear Himp
    end;
    flushed_cases; subst; simpl in *.
  all: to_int_ids; try lia.
  all: repeat match goal with
       | f : ISIO_FILE |- _ =>
           destruct f as [? [|? ?] ? [|? ?] ? ? ?]; simpl in *; subst;
           try discriminate
       end.
  all: repeat (match goal with
               | |- context [if ?c then _ else _] => destruct c eqn:?
               | Hif : context [if ?c then _ else _] |- _ => destruct c eqn:?
               end; simpl in * ).
  all: bool_to_prop; simpl in *; try lia.
  all: repeat match goal with
       | Himp : 0 <= ?z -> _ |- _ =>
           first [ destruct Himp as (? & ?); [lia|] | clear Himp ]
       | Hconj : _ /\ _ |- _ => destruct Hconj
       end.
  all: try discriminate.
  all: to_int_ids.
  all: split; intros Hst; try lia.
  all: try (repeat split; trivial; lia).
  all: try (left; reflexivity).
  all: right; split; [first [reflexivity | assumption] | lia].
Qed.

Lemma do_rcDataObjWrite_status (idx : Z) (buf : pointer) (len : Z) (w : world R) :
  post (do_rcDataObjWrite idx buf len) w
    (fun st w' =>
       exists data, Z.of_nat (length data) = len
                    /\ rcDataObjWrite idx data (remote w) = (st, remote w')).
Proof.
  unfold do_rcDataObjWrite, post, bind, load_bytes, remote_call.
  destruct (load (mem w) buf len) as [data|] eqn:Hload; [|exact I].
  destruct (rcDataObjWrite idx data (remote w)) as [st r] eqn:Hw.
  exists data. split; [now apply (load_length (mem w) buf)|exact Hw].
Qed.

(** The write that goes past the cache returns what the server
    answered to the write of the rest (not the bytes written in all),
    and moves base_offset by bufferSize plus the size of the rest. *)
Lemma isioFileWrite_bypass (ifp : ISIO_FILE) (buffer : pointer) (countToWrite : Z)
  (w : world R) :
  handle_ok ifp -> 0 <= countToWrite <= INT_MAX ->
  let rest := countToWrite - (bufferSize ifp - cursor ifp) in
  ISIO_MAX_BUF_SIZE < rest ->
  post (isioFileWrite ifp buffer countToWrite) w
    (fun '(st, f') w' =>
       0 <= st ->
       (exists (r : R) (data : list byte),
           Z.of_nat (length data) = rest
           /\ rcDataObjWrite (l1descInx ifp) data r = (st, remote w'))
       /\ base_offset f'
          = to_long (base_offset ifp + to_int (bufferSize ifp + rest))
       /\ cursor f' = 0 /\ count f' = 0).
Proof.
  intros (Hbase & Hptr & Hinv & Hcount & Hb) Hn rest Hrest.
  destruct (write_sizes ifp countToWrite Hinv Hb Hn) as (E1 & E2 & E3 & E4 & E5).
  unfold isioFileWrite. cbv zeta. simpl bufferSize. simpl ptr. simpl base.
  rewrite E1, E2, E3, E4, E5. clear E1 E2 E3 E4 E5.
  subst rest.
  unfold handle_ok, bounds_invariant, int_range, INT_MAX, ISIO_MAX_BUF_SIZE in *.
  destruct ifp as [bo [|bb bofs] bs [|pb pofs] c d l]; try discriminate.
  unfold cursor, ptr_diff in *. simpl in *.
  assert (Hmin : Z.min countToWrite (bs - (pofs - bofs)) = bs - (pofs - bofs)) by lia.
  rewrite !Hmin.
  destruct (to_int (c - (bs - (pofs - bofs))) <? 0) eqn:Hclamp; simpl.
  all: repeat first
    [ post_step
    | eapply post_mono; [apply memcpy_silent|]; intros [] ? _
    | eapply post_mono; [apply isioFlush_result|]; intros [? ?] ? (? & ?) ];
    cbv zeta; bool_to_prop; try lia.
  all: repeat match goal with
       | Himp : ?z < 0 -> _, Hz : ?z < 0 |- _ => specialize (Himp Hz)
       | Himp : 0 <= ?z -> _, Hz : 0 <= ?z |- _ => specialize (Himp Hz)
       | Himp : ?z < 0 -> _, Hz : 0 <= ?z |- _ => clear Himp
       | Himp : 0 <= ?z -> _, Hz : ?z < 0 |- _ => clear Himp
       end; flushed_cases; subst; simpl in *.
  all: try (intros; lia).
  all: try (eapply post_mono; [apply do_rcDataObjWrite_status|];
            intros st w2 (data & Hlen & Hwr); simpl in *;
            repeat post_step; bool_to_prop; intros Hst; try lia;
            (split; [exists (remote w'0), data; split; [lia|exact Hwr]|]);
            simpl; repeat split; lia).
Qed.

(** An operation that comes back with base NULL has failed to enlarge
    the buffer: isioFileRead then returns -99, isioFileWrite 0. *)
Lemma isioFileRead_no_memory (ifp : ISIO_FILE) (buffer : pointer) (maxToRead : Z)
  (w : world R) :
  handle_ok ifp -> is_null buffer = false ->
  post (isioFileRead ifp buffer maxToRead) w
    (fun '(st, f') _ => is_null (base f') = true -> st = -99).
Proof.
  intros (Hbase & Hptr & _) Hbuf.
  unfold isioFileRead.
  destruct ifp as [bo [|bb bofs] bs [|pb pofs] c d l]; try discriminate.
  destruct buffer as [|ub uofs]; try discriminate.
  simpl in *.
  repeat first
    [ post_step
    | eapply post_mono; [apply memcpy_silent|]; intros [] ? _
    | eapply post_mono; [apply realloc_silent|]; intros ? ? _
    | eapply post_mono; [apply isioFlush_result|]; intros [? ?] ? (? & ?)
    | eapply post_mono; [apply isioFillBuffer_calls|];
      intros [? ?] ? [(_ & ? & ? & ?)|(_ & ? & ?)] ];
    cbv zeta; bool_to_prop;
    repeat match goal with
    | Himp : ?z < 0 -> _, Hz : ?z < 0 |- _ => specialize (Himp Hz)
    | Himp : 0 <= ?z -> _, Hz : 0 <= ?z |- _ => specialize (Himp Hz)
    | Himp : ?z < 0 -> _, Hz : 0 <= ?z |- _ => clear Himp
    | Himp : 0 <= ?z -> _, Hz : ?z < 0 |- _ => clear Himp
    end;
    flushed_cases; subst; simpl in *.
  all: trivial; try discriminate; try congruence.
  all: intros Hnull; repeat match goal with
       | Heq : base ?f = _ |- _ => rewrite Heq in *
       end; simpl in *; congruence.
Qed.

Lemma isioFileWrite_no_memory (ifp : ISIO_FILE) (buffer : pointer) (countToWrite : Z)
  (w : world R) :
  handle_ok ifp ->
  post (isioFileWrite ifp buffer countToWrite) w
    (fun '(st, f') _ => is_null (base f') = true -> st = 0).
Proof.
  intros (Hbase & Hptr & _).
  unfold isioFileWrite. cbv zeta.
  destruct ifp as [bo [|bb bofs] bs [|pb pofs] c d l]; try discriminate.
  simpl in *.
  match goal with
  | |- context [if ?c <? 0 then set_count 0 ?f else ?f] =>
      destruct (c <? 0) eqn:Hclamp
  end.
  all: repeat first
    [ post_step
    | eapply post_mono; [apply memcpy_silent|]; intros [] ? _
    | eapply post_mono; [apply realloc_silent|]; intros ? ? _
    | eapply post_mono; [apply do_rcDataObjWrite_one|]; intros ? ? _
    | eapply post_mono; [apply isioFlush_result|]; intros [? ?] ? (? & ?) ];
    cbv zeta; bool_to_prop;
    repeat match goal with
    | Himp : ?z < 0 -> _, Hz : ?z < 0 |- _ => specialize (Himp Hz)
    | Himp : 0 <= ?z -> _, Hz : 0 <= ?z |- _ => specialize (Himp Hz)
    | Himp : ?z < 0 -> _, Hz : 0 <= ?z |- _ => clear Himp
    | Himp : 0 <= ?z -> _, Hz : ?z < 0 |- _ => clear Himp
    end;
    flushed_cases; subst; simpl in *.
  all: trivial; try discriminate; try congruence.
  all: try (match goal with
            | |- context [if ?c then _ else _] => destruct c
            end; simpl; congruence).
Qed.

(** Writing 2097153 bytes to an empty 65536-byte buffer: the 2031617
    bytes that do not fit are not more than ISIO_MAX_BUF_SIZE, so they
    are not sent past the cache; the one call is the flush, and the
    write leaves them in the enlarged buffer. *)
Lemma isioFileWrite_2097153_stays_in_cache (ifp : ISIO_FILE) (buffer : pointer)
  (w : world R) :
  handle_ok ifp -> bufferSize ifp = ISIO_INITIAL_BUF_SIZE -> cursor ifp = 0 ->
  post (isioFileWrite ifp buffer 2097153) w
    (fun '(st, f') w' =>
       ncalls w' - ncalls w = 1
       /\ (0 < st -> st = 2097153 /\ cursor f' = 2031617)).
Proof.
  intros Hok Hsize Hcur.
  assert (Hn : 0 <= 2097153 <= INT_MAX) by (unfold INT_MAX; lia).
  pose proof (isioFileWrite_bounds ifp buffer 2097153 w Hok Hn) as Hb.
  destruct Hok as (_ & _ & Hinv & _ & Hrange).
  pose proof (isioFileWrite_calls ifp buffer 2097153 w Hinv Hrange Hn) as Hc.
  unfold post in *. destruct (isioFileWrite ifp buffer 2097153 w) as [[st f'] w'|];
    [|exact I].
  cbv zeta in Hb, Hc. rewrite Hsize, Hcur in Hb, Hc.
  unfold ISIO_INITIAL_BUF_SIZE, ISIO_MAX_BUF_SIZE in *.
  destruct Hb as (_ & Hgrow). destruct Hc as (_ & Hone & _).
  split; [apply Hone; lia|].
  intros Hst. destruct (Hgrow ltac:(lia) Hst) as (E1 & E2 & _).
  split; [exact E1 | lia].
Qed.

End Bounds.

(** ** The failing runs of write and read *)

(** C1, on the code.  A fresh handle satisfies the bounds.  Writing
    131073 bytes to it fills the 65536 bytes of the buffer, flushes
    them, and finds the other 65537 larger than the buffer: the buffer
    is reallocated, bufferSize is left at 65536, and the write returns
    with the cursor at 65537. *)
Theorem isioFileWrite_grow_breaks_bounds :
  let w := fresh 131073 in
  let ifp := handle_of 1 w in
  let f' := mkISIO_FILE 0 (Ptr 2%nat 0) 65536 (Ptr 2%nat 65537) 0 1 3 in
  bounds_invariant ifp
  /\ result_of (isioFileWrite ifp user_buffer 131073) w = Some (131073, f')
  /\ cursor f' = 65537 /\ bufferSize f' = 65536
  /\ ~ bounds_invariant f'.
Proof.
  intros w ifp f'.
  split; [apply bounds_invariantb_spec; vm_compute; reflexivity|].
  split; [vm_compute; reflexivity|].
  split; [reflexivity|]. split; [reflexivity|].
  rewrite <- bounds_invariantb_spec. vm_compute. intros E. discriminate E.
Qed.

(** C4, on the code.  Writing 65536 + 2097153 bytes to a fresh handle
    sends the first 65536 through the cache and the other 2097153
    directly; both writes succeed, the server's position and
    base_offset end at 2162689, and isioFileWrite returns 2097153, the
    status of the second write, not the 2162689 bytes written. *)
Theorem isioFileWrite_bypass_returns_last_status :
  let n := 65536 + 2097153 in
  let w := fresh n in
  let ifp := handle_of 1 w in
  run_summary (isioFileWrite ifp user_buffer n) w
  = Some ((2097153, set_base_offset n ifp), [65536; 2097153], n).
Proof. vm_compute. reflexivity. Qed.

(** C6, on the code.  With no memory for a larger buffer, the read that
    has to grow the buffer returns -99, and the write that has to grow
    it returns 0, after its first 65536 bytes went to the server; both
    leave base NULL. *)
Theorem alloc_failure_statuses :
  let w := fresh_no_memory 131073 in
  let ifp := handle_of 1 w in
  run_summary (isioFileRead ifp user_buffer 65536) w
  = Some ((-99, set_base NULL ifp), [], 0)
  /\ run_summary (isioFileWrite ifp user_buffer 131073) w
     = Some ((0, set_base NULL ifp), [65536], 65536).
Proof. vm_compute. repeat split. Qed.

(** C8, on the code.  A read of 1048573 bytes with an empty cache goes
    straight to the caller's buffer.  When the server's read succeeds,
    the handle comes back with its own buffer and capacity and an empty
    cache.  When the server's read fails with -5, isioFileRead returns
    -5 at once: base still points to the caller's buffer and bufferSize
    still is 1048573. *)
Theorem bypass_read_error_leaves_user_buffer :
  let ok := reading 1048573 [] in
  let bad := reading 1048573 [None; Some (-5)] in
  let ifp := handle_of 1 ok in
  ifp = mkISIO_FILE 0 (Ptr 1%nat 0) 65536 (Ptr 1%nat 0) 0 0 3
  /\ handle_of 1 bad = ifp
  /\ result_of (isioFileRead ifp user_buffer 1048573) ok = Some (16, ifp)
  /\ result_of (isioFileRead ifp user_buffer 1048573) bad
     = Some (-5, mkISIO_FILE 0 user_buffer 1048573 user_buffer 0 0 3).
Proof. vm_compute. repeat split. Qed.

(** * Further properties of isio.c *)

(** ** The handle table: add_to_map and is_in_map *)

Section TableLookup.
Context {R : Type} `{RemoteSession R}.

Lemma add_to_map_scan_seq (s n : nat) (tbl : list (option ISIO_FILE)) (i : nat) :
  add_to_map_scan (seq s n) tbl = Some i ->
  (s <= i < s + n)%nat /\ tbl !! i = Some None
  /\ forall j : nat, (s <= j < i)%nat -> tbl !! j <> Some None.
Proof.
  revert s. induction n as [|n IH]; intros s; simpl; [discriminate|].
  destruct (tbl !! s) as [[f|]|] eqn:E.
  - intros Hscan. destruct (IH _ Hscan) as (Hi & Hslot & Hbefore).
    split; [lia|]. split; [exact Hslot|].
    intros j Hj. destruct (decide (j = s)) as [->|Hne]; [congruence|].
    apply Hbefore. lia.
  - intros [= <-]. split; [lia|]. split; [exact E|]. intros j Hj. lia.
  - intros Hscan. destruct (IH _ Hscan) as (Hi & Hslot & Hbefore).
    split; [lia|]. split; [exact Hslot|].
    intros j Hj. destruct (decide (j = s)) as [->|Hne]; [congruence|].
    apply Hbefore. lia.
Qed.

Lemma add_to_map_scan_none (s n : nat) (tbl : list (option ISIO_FILE)) :
  add_to_map_scan (seq s n) tbl = None ->
  forall j : nat, (s <= j < s + n)%nat -> tbl !! j <> Some None.
Proof.
  revert s. induction n as [|n IH]; intros s; simpl; [intros; lia|].
  destruct (tbl !! s) as [[f|]|] eqn:E; try discriminate.
  - intros Hscan j Hj. destruct (decide (j = s)) as [->|Hne]; [congruence|].
    apply (IH _ Hscan). lia.
  - intros Hscan j Hj. destruct (decide (j = s)) as [->|Hne]; [congruence|].
    apply (IH _ Hscan). lia.
Qed.

Lemma is_in_map_slot (fp : Z) (w : world R) (slot : option ISIO_FILE) :
  1 <= fp <= ISIO_MAX_OPEN_FILES ->
  _cacheInfo w !! Z.to_nat (fp - 1) = Some slot ->
  is_in_map fp w = Ok slot w.
Proof.
  unfold ISIO_MAX_OPEN_FILES. intros Hfp Hslot. unfold is_in_map.
  rewrite (to_int_id (fp - 1)) by (unfold int_range; lia).
  assert (E : (0 <=? fp - 1) && (fp - 1 <? ISIO_MAX_OPEN_FILES) = true).
  { unfold ISIO_MAX_OPEN_FILES. apply andb_true_iff.
    split; [apply Z.leb_le | apply Z.ltb_lt]; lia. }
  rewrite E, Hslot. reflexivity.
Qed.

Lemma add_to_map_returns (f : ISIO_FILE) (w : world R) :
  exists (fp : Z) (w' : world R),
    add_to_map (Some f) w = Ok fp w'
    /\ ((fp = 0 /\ w' = w
         /\ forall j : nat, Z.of_nat j < ISIO_MAX_OPEN_FILES ->
                            _cacheInfo w !! j <> Some None)
        \/ (1 <= fp <= ISIO_MAX_OPEN_FILES
            /\ _cacheInfo w !! Z.to_nat (fp - 1) = Some None
            /\ (forall j : nat, (j < Z.to_nat (fp - 1))%nat ->
                                _cacheInfo w !! j <> Some None)
            /\ w' = set_cacheInfo (<[Z.to_nat (fp - 1) := Some f]> (_cacheInfo w)) w
            /\ is_in_map fp w' = Ok (Some f) w')).
Proof.
  unfold add_to_map.
  change (Z.to_nat ISIO_MAX_OPEN_FILES) with 20%nat.
  destruct (add_to_map_scan (seq 0 20) (_cacheInfo w)) as [i|] eqn:Hscan.
  - destruct (add_to_map_scan_seq _ _ _ _ Hscan) as (Hi & Hslot & Hbefore).
    eexists _, _. split; [reflexivity|]. right.
    assert (Ei : Z.to_nat (Z.of_nat i + 1 - 1) = i) by lia.
    rewrite Ei. unfold ISIO_MAX_OPEN_FILES.
    split; [lia|]. split; [exact Hslot|].
    split; [intros j Hj; apply Hbefore; lia|]. split; [reflexivity|].
    apply is_in_map_slot; [unfold ISIO_MAX_OPEN_FILES; lia|].
    rewrite Ei. simpl. apply list_lookup_insert_eq.
    apply lookup_lt_Some in Hslot. exact Hslot.
  - exists 0, w. split; [reflexivity|]. left.
    split; [reflexivity|]. split; [reflexivity|].
    intros j Hj. apply (add_to_map_scan_none _ _ _ Hscan).
    unfold ISIO_MAX_OPEN_FILES in Hj. lia.
Qed.

(** X1.  add_to_map and is_in_map.  add_to_map always returns.  It returns
    NULL, and changes nothing, exactly when none of the twenty slots
    holds NULL.  Otherwise the FILE * it returns is the index plus one of
    the first slot that held NULL, only that slot is changed, and
    is_in_map finds the handle again under that FILE *. *)
Theorem add_to_map_first_free_slot (f : ISIO_FILE) (w : world R) :
  exists (fp : Z) (w' : world R),
    add_to_map (Some f) w = Ok fp w'
    /\ ((fp = 0 /\ w' = w
         /\ forall j : nat, Z.of_nat j < ISIO_MAX_OPEN_FILES ->
                            _cacheInfo w !! j <> Some None)
        \/ (1 <= fp <= ISIO_MAX_OPEN_FILES
            /\ _cacheInfo w !! Z.to_nat (fp - 1) = Some None
            /\ (forall j : nat, (j < Z.to_nat (fp - 1))%nat ->
                                _cacheInfo w !! j <> Some None)
            /\ w' = set_cacheInfo (<[Z.to_nat (fp - 1) := Some f]> (_cacheInfo w)) w
            /\ is_in_map fp w' = Ok (Some f) w')).
Proof. exact (add_to_map_returns f w). Qed.

End TableLookup.

(** ** The dispatchers and the FILE * they are given *)

Section Dispatch.
Context {R : Type} `{RemoteSession R}.

Lemma is_in_map_free (i : Z) (w : world R) :
  int_range i ->
  i < 1 \/ ISIO_MAX_OPEN_FILES < i \/ _cacheInfo w !! Z.to_nat (i - 1) = Some None ->
  is_in_map i w = Ok None w.
Proof.
  unfold ISIO_MAX_OPEN_FILES, int_range. intros Hi Hfree. unfold is_in_map.
  destruct (Z.eq_dec i (- 2 ^ 31)) as [->|Hmin].
  - reflexivity.
  - rewrite (to_int_id (i - 1)) by (unfold int_range; lia).
    destruct ((0 <=? i - 1) && (i - 1 <? ISIO_MAX_OPEN_FILES)) eqn:E;
      [|reflexivity].
    unfold ISIO_MAX_OPEN_FILES in E. bool_to_prop.
    destruct Hfree as [Hlow | [Hhigh | Hslot]]; try lia.
    now rewrite Hslot.
Qed.

Lemma on_handle_free {A} (fi_stream : Z) (op : ISIO_FILE -> M R (A * ISIO_FILE))
  (w : world R) :
  is_in_map (to_int (to_size_t fi_stream)) w = Ok None w ->
  on_handle fi_stream op w = Ok Passthrough w.
Proof.
  intros Hmap. unfold on_handle. rewrite (bind_eq _ _ _ _ _ Hmap). reflexivity.
Qed.

(** X4.  A FILE * that is not a handle of the cache layer -- its value as an
    int is not one of 1..20, or the slot of that number holds NULL --
    goes to the local stdio function: every dispatcher returns without
    a call to the server and without a change to the heap, the table or
    anything else. *)
Theorem unknown_stream_passes_through
  (fi_stream : Z) (w : world R) (buffer : pointer)
  (itemsize nitems offset whence inchar : Z) :
  let i := to_int (to_size_t fi_stream) in
  i < 1 \/ ISIO_MAX_OPEN_FILES < i \/ _cacheInfo w !! Z.to_nat (i - 1) = Some None ->
  irodsfread buffer itemsize nitems fi_stream w = Ok Passthrough w
  /\ irodsfwrite buffer itemsize nitems fi_stream w = Ok Passthrough w
  /\ irodsfseek fi_stream offset whence w = Ok Passthrough w
  /\ irodsftell fi_stream w = Ok Passthrough w
  /\ irodsfflush fi_stream w = Ok Passthrough w
  /\ irodsfputc inchar fi_stream w = Ok Passthrough w
  /\ irodsfgetc fi_stream w = Ok Passthrough w
  /\ irodsfclose fi_stream w = Ok Passthrough w.
Proof.
  intros i Hfree.
  assert (Hmap : is_in_map (to_int (to_size_t fi_stream)) w = Ok None w)
    by (apply is_in_map_free; [apply to_int_range | exact Hfree]).
  unfold irodsfread, irodsfwrite, irodsfseek, irodsftell, irodsfflush,
    irodsfputc, irodsfgetc, irodsfclose.
  repeat split;
    first [ now apply on_handle_free
          | rewrite (bind_eq _ _ _ _ _ (on_handle_free _ _ _ Hmap)); reflexivity
          | rewrite (bind_eq _ _ _ _ _ Hmap); reflexivity ].
Qed.

Lemma to_int_low_bits (z k : Z) : to_int (to_size_t (z + k * 2 ^ 32)) = to_int (to_size_t z).
Proof.
  assert (Hlow : forall a, (a mod 2 ^ 64) mod 2 ^ 32 = a mod 2 ^ 32).
  { intros a. apply Z.mod_mod_divide. exists (2 ^ 32). reflexivity. }
  unfold to_int, to_size_t. f_equal.
  rewrite <- (Zplus_mod_idemp_l (_ mod 2 ^ 64)), <- (Zplus_mod_idemp_l (z mod 2 ^ 64)).
  rewrite !Hlow. now rewrite Z_mod_plus_full.
Qed.

(** X5.  The dispatchers convert the FILE * to int before they look it up:
    only its low 32 bits count.  Two FILE * values that differ by a
    multiple of [2^32] are treated alike by every dispatcher, so a local
    stream whose address ends in the number of an open handle is taken
    for that handle. *)
Theorem stream_identified_by_low_32_bits
  (fi_stream k : Z) (buffer : pointer) (itemsize nitems offset whence inchar : Z) :
  let alias := fi_stream + k * 2 ^ 32 in
  irodsfread buffer itemsize nitems alias = irodsfread buffer itemsize nitems fi_stream
  /\ irodsfwrite buffer itemsize nitems alias
     = irodsfwrite buffer itemsize nitems fi_stream
  /\ @irodsfseek R _ alias offset whence = irodsfseek fi_stream offset whence
  /\ @irodsftell R _ alias = irodsftell fi_stream
  /\ @irodsfflush R _ alias = irodsfflush fi_stream
  /\ @irodsfputc R _ inchar alias = irodsfputc inchar fi_stream
  /\ @irodsfgetc R _ alias = irodsfgetc fi_stream
  /\ @irodsfclose R _ alias = irodsfclose fi_stream.
Proof.
  intros alias. subst alias.
  unfold irodsfread, irodsfwrite, irodsfseek, irodsftell, irodsfflush,
    irodsfputc, irodsfgetc, irodsfclose, on_handle.
  rewrite !to_int_low_bits. repeat split.
Qed.

End Dispatch.

(** ** What an operation on one handle leaves of the table *)

Section TableFrame.
Context {R : Type} `{RemoteSession R}.

Lemma next_alloc_keeps_table (w : world R) :
  post next_alloc w (fun _ w' => _cacheInfo w' = _cacheInfo w).
Proof. unfold post, next_alloc. now destruct (alloc_plan w). Qed.

Lemma malloc_keeps_table (n : Z) (w : world R) :
  post (malloc n) w (fun _ w' => _cacheInfo w' = _cacheInfo w).
Proof.
  unfold post, malloc, bind, next_alloc, ret.
  now destruct (alloc_plan w) as [|[] ?].
Qed.

Lemma realloc_keeps_table (p : pointer) (n : Z) (w : world R) :
  post (realloc p n) w (fun _ w' => _cacheInfo w' = _cacheInfo w).
Proof.
  destruct p as [|b [| |]]; try exact I.
  - apply malloc_keeps_table.
  - unfold post, realloc.
    destruct (mem w !! b) as [[|]|]; trivial.
    unfold bind, next_alloc, ret.
    now destruct (alloc_plan w) as [|[] ?].
Qed.

Lemma memcpy_keeps_table (dst src : pointer) (n : Z) (w : world R) :
  post (memcpy dst src n) w (fun _ w' => _cacheInfo w' = _cacheInfo w).
Proof.
  unfold post, memcpy.
  destruct (load (mem w) src n); trivial.
  now destruct (store (mem w) dst l).
Qed.

Lemma store_bytes_keeps_table (p : pointer) (bs : list byte) (w : world R) :
  post (store_bytes p bs) w (fun _ w' => _cacheInfo w' = _cacheInfo w).
Proof. unfold post, store_bytes. now destruct (store (mem w) p bs). Qed.

Lemma do_rcDataObjWrite_keeps_table (idx : Z) (buf : pointer) (len : Z) (w : world R) :
  post (do_rcDataObjWrite idx buf len) w (fun _ w' => _cacheInfo w' = _cacheInfo w).
Proof.
  unfold do_rcDataObjWrite. post_step.
  eapply post_mono; [apply load_bytes_keeps_table|]. intros data w1 E1.
  eapply post_mono; [apply remote_call_keeps_table|]. intros st w2 E2. congruence.
Qed.

Lemma do_rcDataObjRead_keeps_table (idx : Z) (buf : pointer) (len : Z) (w : world R) :
  post (do_rcDataObjRead idx buf len) w (fun _ w' => _cacheInfo w' = _cacheInfo w).
Proof.
  unfold do_rcDataObjRead. post_step.
  eapply post_mono; [apply remote_call_keeps_table|]. intros [st data] w1 E1.
  repeat post_step; trivial.
  eapply post_mono; [apply store_bytes_keeps_table|]. intros [] w2 E2.
  post_step. congruence.
Qed.

Lemma isioFileTell_keeps_table (ifp : ISIO_FILE) (w : world R) :
  post (isioFileTell ifp) w (fun _ w' => _cacheInfo w' = _cacheInfo w).
Proof.
  unfold isioFileTell, do_rcDataObjLseek. post_step.
  eapply post_mono; [apply remote_call_keeps_table|].
  intros [st [offset|]] w1 E1; post_step; trivial.
Qed.

Lemma isioFillBuffer_keeps_table (ifp : ISIO_FILE) (w : world R) :
  post (isioFillBuffer ifp) w (fun _ w' => _cacheInfo w' = _cacheInfo w).
Proof.
  unfold isioFillBuffer. repeat post_step; trivial.
  eapply post_mono; [apply isioFileTell_keeps_table|]. intros p w1 E1.
  cbv zeta. post_step.
  eapply post_mono; [apply do_rcDataObjRead_keeps_table|]. intros st w2 E2.
  repeat post_step; congruence.
Qed.

End TableFrame.

(** One step of a cache routine, with what it leaves of the table. *)
Ltac table_step :=
  first
    [ post_step
    | eapply post_mono; [apply memcpy_keeps_table|]; intros [] ? ?
    | eapply post_mono; [apply realloc_keeps_table|]; intros ? ? ?
    | eapply post_mono; [apply isioFlush_keeps_table|]; intros [? ?] ? ?
    | eapply post_mono; [apply isioFillBuffer_keeps_table|]; intros [? ?] ? ?
    | eapply post_mono; [apply isioFileTell_keeps_table|]; intros ? ? ?
    | eapply post_mono; [apply do_rcDataObjWrite_keeps_table|]; intros ? ? ?
    | eapply post_mono; [apply remote_call_keeps_table|]; intros [? ?] ? ?
    | eapply post_mono; [apply load_bytes_keeps_table|]; intros ? ? ?
    | eapply post_mono; [apply free_keeps_table|]; intros [] ? ? ].

Section TableFrameOperations.
Context {R : Type} `{RemoteSession R}.

Lemma isioFileRead_keeps_table (ifp : ISIO_FILE) (buffer : pointer) (n : Z)
  (w : world R) :
  post (isioFileRead ifp buffer n) w (fun _ w' => _cacheInfo w' = _cacheInfo w).
Proof. unfold isioFileRead. repeat table_step; cbv zeta; congruence. Qed.

Lemma isioFileWrite_keeps_table (ifp : ISIO_FILE) (buffer : pointer) (n : Z)
  (w : world R) :
  post (isioFileWrite ifp buffer n) w (fun _ w' => _cacheInfo w' = _cacheInfo w).
Proof. unfold isioFileWrite. repeat table_step; cbv zeta; congruence. Qed.

Lemma isioFileSeek_keeps_table (ifp : ISIO_FILE) (offset whence : Z) (w : world R) :
  post (isioFileSeek ifp offset whence) w (fun _ w' => _cacheInfo w' = _cacheInfo w).
Proof.
  unfold isioFileSeek, do_rcDataObjLseek. repeat table_step; cbv zeta; congruence.
Qed.

Lemma with_local_int_keeps_table {A} (init : Z) (body : pointer -> M R A) (w : world R) :
  (forall p w0, post (body p) w0 (fun _ w' => _cacheInfo w' = _cacheInfo w0)) ->
  post (with_local_int init body) w (fun _ w' => _cacheInfo w' = _cacheInfo w).
Proof.
  intros Hbody. unfold with_local_int. post_step. unfold post at 1.
  post_step. eapply post_mono; [apply Hbody|]. intros a w1 E1. simpl in E1.
  repeat table_step. congruence.
Qed.

Lemma isioFilePutc_keeps_table (inchar : Z) (ifp : ISIO_FILE) (w : world R) :
  post (isioFilePutc inchar ifp) w (fun _ w' => _cacheInfo w' = _cacheInfo w).
Proof.
  unfold isioFilePutc. post_step.
  eapply post_mono;
    [apply with_local_int_keeps_table; intros; apply isioFileWrite_keeps_table|].
  intros [r c] w1 E1. post_step. exact E1.
Qed.

Lemma isioFileGetc_keeps_table (ifp : ISIO_FILE) (w : world R) :
  post (isioFileGetc ifp) w (fun _ w' => _cacheInfo w' = _cacheInfo w).
Proof.
  unfold isioFileGetc. post_step.
  eapply post_mono;
    [apply with_local_int_keeps_table; intros; apply isioFileRead_keeps_table|].
  intros [[st f'] c] w1 E1. repeat post_step; exact E1.
Qed.

Lemma on_handle_one_slot {A} (fi_stream : Z) (op : ISIO_FILE -> M R (A * ISIO_FILE))
  (w : world R) :
  (forall f w0, post (op f) w0 (fun _ w' => _cacheInfo w' = _cacheInfo w0)) ->
  post (on_handle fi_stream op) w
    (fun _ w' =>
       forall fp : Z,
         1 <= fp <= ISIO_MAX_OPEN_FILES -> fp <> to_int (to_size_t fi_stream) ->
         _cacheInfo w' !! Z.to_nat (fp - 1) = _cacheInfo w !! Z.to_nat (fp - 1)).
Proof.
  intros Hop. unfold on_handle. cbv zeta.
  set (i := to_int (to_size_t fi_stream)).
  assert (Hi : int_range i) by apply to_int_range.
  post_step. unfold post at 1, is_in_map.
  destruct ((0 <=? to_int (i - 1)) && (to_int (i - 1) <? ISIO_MAX_OPEN_FILES)) eqn:E.
  - destruct (_cacheInfo w !! Z.to_nat (to_int (i - 1))) as [[f|]|]; [| |exact I].
    + post_step. eapply post_mono; [apply Hop|]. intros [a f'] w1 E1.
      post_step. unfold post, update_map, bind, ret. simpl.
      intros fp Hfp Hne. rewrite E1.
      apply list_lookup_insert_ne.
      unfold ISIO_MAX_OPEN_FILES, int_range in *. bool_to_prop.
      destruct (Z.eq_dec i (- 2 ^ 31)) as [Hmin|Hmin].
      * subst i. rewrite Hmin in *. vm_compute in H1. discriminate H1.
      * rewrite (to_int_id (i - 1)) in * by (unfold int_range; lia). lia.
    + post_step. trivial.
  - unfold ret at 1. post_step. trivial.
Qed.

(** X6.  An operation on one handle leaves the other handles alone: after
    irodsfread, irodsfwrite, irodsfseek, irodsftell, irodsfflush,
    irodsfputc or irodsfgetc on a FILE *, every slot of the table but
    the one of that FILE * holds what it held before. *)
Theorem dispatch_touches_one_slot
  (fi_stream : Z) (w : world R) (buffer : pointer)
  (itemsize nitems offset whence inchar : Z) :
  let others_kept (w' : world R) :=
    forall fp : Z,
      1 <= fp <= ISIO_MAX_OPEN_FILES -> fp <> to_int (to_size_t fi_stream) ->
      _cacheInfo w' !! Z.to_nat (fp - 1) = _cacheInfo w !! Z.to_nat (fp - 1) in
  post (irodsfread buffer itemsize nitems fi_stream) w (fun _ w' => others_kept w')
  /\ post (irodsfwrite buffer itemsize nitems fi_stream) w (fun _ w' => others_kept w')
  /\ post (irodsfseek fi_stream offset whence) w (fun _ w' => others_kept w')
  /\ post (irodsftell fi_stream) w (fun _ w' => others_kept w')
  /\ post (irodsfflush fi_stream) w (fun _ w' => others_kept w')
  /\ post (irodsfputc inchar fi_stream) w (fun _ w' => others_kept w')
  /\ post (irodsfgetc fi_stream) w (fun _ w' => others_kept w').
Proof.
  intros others_kept. subst others_kept.
  unfold irodsfread, irodsfwrite, irodsfseek, irodsftell, irodsfflush,
    irodsfputc, irodsfgetc.
  repeat split.
  - post_step. eapply post_mono;
      [apply on_handle_one_slot; intros; apply isioFileRead_keeps_table|].
    intros [st|] w1 E1; [|post_step; exact E1].
    unfold size_t_div. repeat post_step; exact E1.
  - post_step. eapply post_mono;
      [apply on_handle_one_slot; intros; apply isioFileWrite_keeps_table|].
    intros [st|] w1 E1; [|post_step; exact E1].
    unfold size_t_div. repeat post_step; exact E1.
  - apply on_handle_one_slot. intros. apply isioFileSeek_keeps_table.
  - apply on_handle_one_slot. intros. post_step.
    eapply post_mono; [apply isioFileTell_keeps_table|]. intros p w1 E1.
    post_step. exact E1.
  - apply on_handle_one_slot. intros. apply isioFlush_keeps_table.
  - apply on_handle_one_slot. intros. apply isioFilePutc_keeps_table.
  - apply on_handle_one_slot. intros. apply isioFileGetc_keeps_table.
Qed.

End TableFrameOperations.

(** ** Opening a file *)

Lemma returns_ret {R A} (a : A) (w : world R) (Q : A -> world R -> Prop) :
  Q a w -> returns (ret a) w Q.
Proof. trivial. Qed.

Lemma returns_bind {R A B} (m : M R A) (k : A -> M R B) (w : world R)
  (Q : B -> world R -> Prop) :
  returns m w (fun a w' => returns (k a) w' Q) -> returns (bind m k) w Q.
Proof. unfold returns, bind. destruct (m w); trivial. Qed.

Lemma returns_mono {R A} (m : M R A) (w : world R) (Q Q' : A -> world R -> Prop) :
  returns m w Q -> (forall a w', Q a w' -> Q' a w') -> returns m w Q'.
Proof. unfold returns. destruct (m w); auto. Qed.

Lemma returns_eq {R A} (m : M R A) (w : world R) (Q : A -> world R -> Prop) :
  returns m w Q -> exists a w', m w = Ok a w' /\ Q a w'.
Proof. unfold returns. destruct (m w) as [a w'|]; [eauto | tauto]. Qed.

Ltac returns_step :=
  lazymatch goal with
  | |- returns (bind _ _) _ _ => apply returns_bind
  | |- returns (ret _) _ _ => apply returns_ret; cbv beta
  | |- returns (if ?c then _ else _) _ _ => destruct c eqn:?
  | |- returns (match ?x with _ => _ end) _ _ => destruct x eqn:?
  | |- returns (let _ := _ in _) _ _ => cbv zeta
  end.

Section Open.
Context {R : Type} `{RemoteSession R}.

Lemma next_alloc_returns (w : world R) :
  returns next_alloc w (fun _ w' => exists plan, w' = set_alloc_plan plan w).
Proof.
  unfold returns, next_alloc. destruct (alloc_plan w) as [|ok rest] eqn:E.
  - exists []. destruct w. simpl in *. now subst.
  - now exists rest.
Qed.

Lemma remote_call_returns {A} (c : call) (f : R -> A * R) (w : world R) :
  returns (remote_call c f) w
    (fun a w' => a = fst (f (remote w)) /\ w' = after_call w (snd (f (remote w))) c).
Proof. unfold returns, remote_call. now destruct (f (remote w)). Qed.

(** isioSetup: once a login has succeeded nothing is done; until then
    every call connects, and logs in if the connection was made. *)
Lemma isioSetup_returns (w : world R) :
  returns isioSetup w
    (fun st w' =>
       exists session,
         calls w' = calls w ++ session
         /\ mem w' = mem w /\ alloc_plan w' = alloc_plan w
         /\ _cacheInfo w' = _cacheInfo w
         /\ (setupFlag w <> 0 -> session = [] /\ st = 0 /\ setupFlag w' = setupFlag w)
         /\ (setupFlag w = 0 ->
             (session = [CallConnect] /\ setupFlag w' = 0)
             \/ (session = [CallConnect; CallLogin]
                 /\ (st = 0 /\ setupFlag w' = 1 \/ st <> 0 /\ setupFlag w' = 0)))).
Proof.
  unfold isioSetup. returns_step. unfold returns at 1.
  destruct (setupFlag w =? 0) eqn:Hflag; simpl; bool_to_prop.
  - returns_step. unfold returns at 1.
    destruct (getRodsEnv (remote w)) as [st0 r0].
    returns_step. unfold returns at 1, remote_call. simpl.
    destruct (rcConnect r0) as [[|errstatus] r1].
    + returns_step. unfold returns at 1, remote_call. simpl.
      destruct (clientLogin r1) as [st r2].
      destruct (st =? 0) eqn:Hst; bool_to_prop.
      * returns_step. unfold returns at 1. returns_step. simpl.
        exists [CallConnect; CallLogin]. rewrite <- app_assoc.
        repeat split; trivial; try contradiction. intros _. right. auto.
      * returns_step. simpl.
        exists [CallConnect; CallLogin]. rewrite <- app_assoc.
        repeat split; trivial; try contradiction. intros _. right. auto.
    + returns_step. simpl. exists [CallConnect].
      repeat split; trivial; try contradiction. intros _. left. auto.
  - returns_step. exists []. rewrite app_nil_r.
    repeat split; trivial. intros E. contradiction.
Qed.

Lemma new_isio_file_returns (idx : Z) (w : world R) :
  returns (new_isio_file idx) w
    (fun r w' =>
       calls w' = calls w /\ _cacheInfo w' = _cacheInfo w
       /\ setupFlag w' = setupFlag w
       /\ match r with
          | Some f =>
              f = mkISIO_FILE 0 (Ptr (length (mem w)) 0) ISIO_INITIAL_BUF_SIZE
                              (Ptr (length (mem w)) 0) 0 0 idx
              /\ exists bytes : list byte,
                   mem w' = mem w ++ [Some bytes]
                   /\ Z.of_nat (length bytes) = ISIO_INITIAL_BUF_SIZE
          | None => mem w' = mem w
          end).
Proof.
  unfold new_isio_file, malloc. returns_step.
  eapply returns_mono; [apply next_alloc_returns|]. intros ok w1 (p1 & ->).
  returns_step; [|returns_step; auto].
  returns_step. returns_step.
  eapply returns_mono; [apply next_alloc_returns|]. intros ok2 w2 (p2 & ->).
  returns_step.
  - unfold returns at 1. simpl. returns_step. simpl.
    repeat split; trivial. eexists. split; [reflexivity|].
    unfold zeros. rewrite repeat_length. reflexivity.
  - returns_step. simpl. returns_step. auto.
Qed.

Lemma isioFileOpen_returns (filename modes : string) (w : world R) :
  returns (isioFileOpen filename modes) w
    (fun r w' =>
       let objPath := snd (parseRodsPathStr filename) in
       let flags := open_flags modes in
       exists session opening,
         calls w' = calls w ++ session ++ opening
         /\ (setupFlag w <> 0 -> session = [] /\ setupFlag w' = setupFlag w)
         /\ (setupFlag w = 0 ->
             session = [CallConnect] \/ session = [CallConnect; CallLogin])
         /\ (opening = []
             \/ opening = [CallOpen objPath flags]
             \/ (flags = O_WRONLY
                 /\ opening = [CallOpen objPath flags; CallCreate objPath flags]))
         /\ _cacheInfo w' = _cacheInfo w
         /\ match r with
            | Some f =>
                opening <> []
                /\ 0 <= l1descInx f
                /\ f = mkISIO_FILE 0 (Ptr (length (mem w)) 0) ISIO_INITIAL_BUF_SIZE
                                   (Ptr (length (mem w)) 0) 0 0 (l1descInx f)
                /\ exists bytes : list byte,
                     mem w' = mem w ++ [Some bytes]
                     /\ Z.of_nat (length bytes) = ISIO_INITIAL_BUF_SIZE
            | None => mem w' = mem w
            end).
Proof.
  unfold isioFileOpen. returns_step.
  eapply returns_mono; [apply isioSetup_returns|].
  intros st w1 (session & Hcalls & Hmem & Hplan & Htbl & Hset & Hunset).
  assert (Hsession : (setupFlag w <> 0 -> session = [] /\ setupFlag w1 = setupFlag w)
                     /\ (setupFlag w = 0 ->
                         session = [CallConnect] \/ session = [CallConnect; CallLogin])).
  { split.
    - intros Hf. destruct (Hset Hf) as (? & _ & ?). auto.
    - intros Hf. destruct (Hunset Hf) as [(? & _)|(? & _)]; auto. }
  destruct Hsession as (Hs1 & Hs2).
  returns_step.
  { returns_step. exists session, []. rewrite app_nil_r.
    split; [exact Hcalls|]. split; [exact Hs1|]. split; [exact Hs2|]. auto. }
  returns_step.
  eapply returns_mono; [apply next_alloc_returns|]. intros ok w2 (p2 & ->).
  returns_step.
  { returns_step. exists session, []. rewrite app_nil_r. simpl.
    split; [exact Hcalls|]. split; [exact Hs1|]. split; [exact Hs2|]. auto. }
  destruct (parseRodsPathStr filename) as [pst objPath] eqn:Hparse. simpl.
  returns_step.
  { returns_step. exists session, []. rewrite app_nil_r. simpl.
    split; [exact Hcalls|]. split; [exact Hs1|]. split; [exact Hs2|]. auto. }
  assert (Hflags : (if String.prefix "r+" modes then O_RDWR
                    else if String.prefix "w" modes then O_WRONLY else O_RDONLY)
                   = open_flags modes) by reflexivity.
  cbv zeta. rewrite Hflags. clear Hflags.
  set (flags := open_flags modes).
  returns_step.
  eapply returns_mono; [apply remote_call_returns|]. intros st1 w3 (_ & ->).
  returns_step.
  set (opened1 := after_call (set_alloc_plan p2 w1) _ (CallOpen objPath flags)).
  assert (Hcreate :
    returns
      (if (st1 =? CAT_NO_ROWS_FOUND) && (flags =? O_WRONLY)
       then remote_call (CallCreate objPath flags) (rcDataObjCreate objPath flags)
       else ret st1) opened1
      (fun _ w' =>
         exists opening,
           calls w' = calls w ++ session ++ opening
           /\ (opening = [CallOpen objPath flags]
               \/ (flags = O_WRONLY
                   /\ opening = [CallOpen objPath flags; CallCreate objPath flags]))
           /\ mem w' = mem w /\ _cacheInfo w' = _cacheInfo w
           /\ setupFlag w' = setupFlag w1)).
  { returns_step.
    - bool_to_prop.
      eapply returns_mono; [apply remote_call_returns|]. intros st2 w4 (_ & ->).
      exists [CallOpen objPath flags; CallCreate objPath flags].
      subst opened1. simpl. rewrite Hcalls, <- !app_assoc. simpl.
      repeat split; auto.
    - returns_step. exists [CallOpen objPath flags].
      subst opened1. simpl. rewrite Hcalls, <- !app_assoc.
      repeat split; auto. }
  eapply returns_mono; [exact Hcreate|].
  intros st2 w4 (opening & Hcalls4 & Hopening & Hmem4 & Htbl4 & Hflag4).
  assert (Hs1' : forall w' : world R, setupFlag w' = setupFlag w1 ->
                   setupFlag w <> 0 -> session = [] /\ setupFlag w' = setupFlag w).
  { intros w' E Hf. destruct (Hs1 Hf). split; congruence. }
  assert (Hopening' : opening = [] \/ opening = [CallOpen objPath flags]
                      \/ (flags = O_WRONLY
                          /\ opening = [CallOpen objPath flags; CallCreate objPath flags]))
    by tauto.
  returns_step.
  { returns_step. exists session, opening.
    split; [exact Hcalls4|]. split; [now apply Hs1'|]. split; [exact Hs2|]. auto. }
  eapply returns_mono; [apply new_isio_file_returns|].
  intros r w5 (Hcalls5 & Htbl5 & Hflag5 & Hr).
  exists session, opening. bool_to_prop.
  split; [congruence|]. split; [apply Hs1'; congruence|]. split; [exact Hs2|].
  split; [exact Hopening'|]. split; [congruence|].
  destruct r as [f|]; [|congruence].
  destruct Hr as (-> & bytes & Hmem5 & Hlen). simpl. rewrite Hmem4 in *.
  split; [destruct Hopening as [->|[? ->]]; discriminate|].
  split; [lia|]. split; [reflexivity|]. exists bytes. auto.
Qed.

(** X3.  isioFileOpen and the server.  isioFileOpen always returns.  If the
    session is up (a login has succeeded before) it does not connect
    again; otherwise it connects, and logs in if the connection was
    made.  After that it makes no call (the name could not be copied or
    parsed, or the session failed), or one rcDataObjOpen, or -- only for
    a mode that starts with "w" and is opened write-only -- an
    rcDataObjOpen followed by an rcDataObjCreate.  The object is opened
    read-write for a mode that starts with "r+", write-only for one that
    starts with "w", and read-only for every other mode.  A handle is
    returned only after an open, and its descriptor is not negative. *)
Theorem isioFileOpen_calls (filename modes : string) (w : world R) :
  exists (r : option ISIO_FILE) (w' : world R) (session opening : list call),
    isioFileOpen filename modes w = Ok r w'
    /\ calls w' = calls w ++ session ++ opening
    /\ (setupFlag w <> 0 -> session = [] /\ setupFlag w' = setupFlag w)
    /\ (setupFlag w = 0 ->
        session = [CallConnect] \/ session = [CallConnect; CallLogin])
    /\ (let objPath := snd (parseRodsPathStr filename) in
        let flags :=
          if String.prefix "r+" modes then O_RDWR
          else if String.prefix "w" modes then O_WRONLY
          else O_RDONLY in
        opening = []
        \/ opening = [CallOpen objPath flags]
        \/ (String.prefix "w" modes = true /\ flags = O_WRONLY
            /\ opening = [CallOpen objPath flags; CallCreate objPath flags]))
    /\ (forall f, r = Some f -> opening <> [] /\ 0 <= l1descInx f).
Proof.
  destruct (returns_eq _ _ _ (isioFileOpen_returns filename modes w))
    as (r & w' & Hrun & session & opening & Hcalls & Hs1 & Hs2 & Hopening & _ & Hr).
  exists r, w', session, opening.
  split; [exact Hrun|]. split; [exact Hcalls|]. split; [exact Hs1|].
  split; [exact Hs2|]. split; [|intros f ->; split; apply Hr].
  - fold (open_flags modes).
    destruct Hopening as [?|[?|[Hw ?]]]; auto.
    right. right. repeat split; trivial.
    unfold open_flags, O_RDWR, O_WRONLY, O_RDONLY in Hw.
    destruct (String.prefix "r+" modes); [discriminate|].
    destruct (String.prefix "w" modes); [reflexivity|discriminate].
Qed.

End Open.

Section OpenHandle.
Context {R : Type} `{RemoteSession R}.

(** X2.  irodsfopen.  irodsfopen always returns.  A name without the prefix
    "irods:" goes to fopen and nothing changes.  For a name with the
    prefix the result is NULL, or the number (1..20) of the first table
    slot that held NULL; that slot now holds a handle which satisfies
    the assertions of isio.c: a buffer of ISIO_INITIAL_BUF_SIZE bytes
    in a block that did not exist before, the position at its start,
    nothing unread, not dirty, base_offset 0; the other slots are as
    they were, and is_in_map finds the handle under the number
    returned. *)
Theorem irodsfopen_ready_handle (filename modes : string) (w : world R) :
  exists (r : dispatch Z) (w' : world R),
    irodsfopen filename modes w = Ok r w'
    /\ match r with
       | Passthrough => String.prefix IRODS_PREFIX filename = false /\ w' = w
       | Cached fp =>
           String.prefix IRODS_PREFIX filename = true
           /\ (fp = 0
               \/ exists (f : ISIO_FILE) (b : block),
                    1 <= fp <= ISIO_MAX_OPEN_FILES
                    /\ _cacheInfo w !! Z.to_nat (fp - 1) = Some None
                    /\ (forall j : nat, (j < Z.to_nat (fp - 1))%nat ->
                                        _cacheInfo w !! j <> Some None)
                    /\ _cacheInfo w' = <[Z.to_nat (fp - 1) := Some f]> (_cacheInfo w)
                    /\ is_in_map fp w' = Ok (Some f) w'
                    /\ f = mkISIO_FILE 0 (Ptr b 0) ISIO_INITIAL_BUF_SIZE (Ptr b 0)
                                       0 0 (l1descInx f)
                    /\ 0 <= l1descInx f
                    /\ handle_ok f
                    /\ mem w !! b = None
                    /\ block_size (mem w') b = ISIO_INITIAL_BUF_SIZE)
       end.
Proof.
  unfold irodsfopen. cbv zeta.
  destruct (String.prefix IRODS_PREFIX filename) eqn:Hprefix;
    [|exists Passthrough, w; auto].
  set (name := substring _ _ filename).
  destruct (returns_eq _ _ _ (isioFileOpen_returns name modes w))
    as (r & w1 & Hopen & session & opening & _ & _ & _ & _ & Htbl & Hr).
  rewrite (bind_eq _ _ _ _ _ Hopen).
  destruct r as [f|]; [|exists (Cached 0), w1; auto].
  destruct Hr as (_ & Hidx & Hf & bytes & Hmem & Hlen).
  destruct (add_to_map_returns f w1)
    as (fp & w2 & Hadd & [(-> & _)|(Hfp & Hslot & Hfirst & -> & Hfind)]).
  - rewrite (bind_eq _ _ _ _ _ Hadd). exists (Cached 0), w2. auto.
  - rewrite (bind_eq _ _ _ _ _ Hadd). eexists (Cached fp), _.
    split; [reflexivity|]. split; [reflexivity|]. right.
    exists f, (length (mem w)). rewrite Htbl in *.
    split; [exact Hfp|]. split; [exact Hslot|]. split; [exact Hfirst|].
    split; [reflexivity|]. split; [exact Hfind|]. split; [exact Hf|].
    split; [exact Hidx|]. split.
    + rewrite Hf. unfold handle_ok, bounds_invariant, cursor, ptr_diff, int_range,
        ISIO_INITIAL_BUF_SIZE. simpl. repeat split; lia.
    + split; [apply lookup_ge_None_2; lia|].
      simpl. unfold block_size. rewrite Hmem.
      match goal with
      | |- context [?l !! ?i] =>
          replace (l !! i) with (Some (Some bytes))
            by (symmetry; apply list_lookup_middle; reflexivity)
      end.
      exact Hlen.
Qed.

End OpenHandle.

(** ** isioFileSeek *)

Lemma post_and {R A} (m : M R A) (w : world R) (Q Q' : A -> world R -> Prop) :
  post m w Q -> post m w Q' -> post m w (fun a w' => Q a w' /\ Q' a w').
Proof. unfold post. destruct (m w); auto. Qed.

Section Seek.
Context {R : Type} `{RemoteSession R}.

(** What offset_in_current_buffer has checked when it answers 1. *)
Lemma offset_in_current_buffer_some (ifp : ISIO_FILE) (offset whence adj : Z) :
  offset_in_current_buffer ifp offset whence = Some adj ->
  0 < cursor ifp + count ifp
  /\ ((whence = SEEK_SET /\ 0 <= offset
       /\ base_offset ifp <= offset < base_offset ifp + cursor ifp + count ifp
       /\ adj = offset - base_offset ifp - cursor ifp)
      \/ (whence = SEEK_CUR /\ adj = offset
          /\ (0 < offset <= count ifp \/ (offset < 0 /\ 0 < cursor ifp + offset)
              \/ offset = 0))).
Proof.
  unfold offset_in_current_buffer. fold (cursor ifp). intros Hin.
  repeat match type of Hin with
         | (if ?c then _ else _) = _ => destruct c eqn:?
         end; try discriminate; injection Hin as <-; bool_to_prop.
  all: split; [lia|].
  - left. repeat split; trivial; lia.
  - right. repeat split; trivial; lia.
  - right. repeat split; trivial; lia.
  - right. repeat split; trivial; lia.
Qed.

Lemma isioFileSeek_hit (ifp : ISIO_FILE) (offset whence adj : Z) (w : world R) :
  offset_in_current_buffer ifp offset whence = Some adj ->
  isioFileSeek ifp offset whence w
  = Ok (0, set_count (to_int (count ifp - adj)) (set_ptr (ptr_add (ptr ifp) adj) ifp)) w.
Proof. intros Hin. unfold isioFileSeek. rewrite Hin. reflexivity. Qed.

(** X7.  A seek inside the cached window.  When offset_in_current_buffer
    accepts the position, isioFileSeek returns 0 without a call to the
    server and without touching the heap: the cursor moves, the end of
    the window ([cursor + count]) stays where it is, and buffer,
    capacity, base_offset and dirty flag are unchanged.  For SEEK_SET
    the new position [base_offset + cursor] is the offset asked for; for
    SEEK_CUR the cursor has moved by the offset.  The handle still
    satisfies the assertions. *)
Theorem isioFileSeek_inside_window
  (ifp : ISIO_FILE) (offset whence adj : Z) (w : world R) :
  handle_ok ifp ->
  offset_in_current_buffer ifp offset whence = Some adj ->
  exists f' : ISIO_FILE,
    isioFileSeek ifp offset whence w = Ok (0, f') w
    /\ handle_ok f'
    /\ cursor f' + count f' = cursor ifp + count ifp
    /\ base f' = base ifp /\ bufferSize f' = bufferSize ifp
    /\ base_offset f' = base_offset ifp /\ dirty f' = dirty ifp
    /\ (whence = SEEK_SET -> base_offset f' + cursor f' = offset)
    /\ (whence = SEEK_CUR -> cursor f' = cursor ifp + offset).
Proof.
  intros (Hbase & Hptr & (Hc & Hs) & Hcount & Hb) Hin.
  eexists. split; [apply (isioFileSeek_hit _ _ _ _ _ Hin)|].
  destruct (offset_in_current_buffer_some _ _ _ _ Hin) as (Hpos & Hadj).
  assert (Hrange : - cursor ifp <= adj <= count ifp)
    by (destruct Hadj as [(_ & _ & ? & ->)|(_ & -> & ?)]; lia).
  unfold handle_ok, bounds_invariant, int_range in *. simpl.
  rewrite to_int_id by (unfold int_range; lia).
  destruct ifp as [bo [|bb bofs] bs [|pb pofs] c d l]; try discriminate.
  unfold cursor, ptr_diff, SEEK_SET, SEEK_CUR in *. simpl in *.
  repeat split; trivial; lia.
Qed.

(** X8.  A seek outside the cached window, on a clean handle.  The offset and
    whence are passed to rcDataObjLseek as they are, and the position is
    asked for next; the status of the seek, whatever it is, does not end
    the routine.  The cache is marked empty, base_offset becomes the
    position the server reported minus the status of the seek, and the
    result is that status, or 0 if it was positive. *)
Theorem isioFileSeek_outside_window
  (ifp : ISIO_FILE) (offset whence : Z) (w : world R)
  (st st2 p : Z) (res : option Z) (r1 r2 : R) :
  offset_in_current_buffer ifp offset whence = None ->
  dirty ifp = 0 ->
  rcDataObjLseek (l1descInx ifp) offset whence (remote w) = ((st, res), r1) ->
  rcDataObjLseek (l1descInx ifp) 0 SEEK_CUR r1 = ((st2, Some p), r2) ->
  exists f' : ISIO_FILE,
    isioFileSeek ifp offset whence w
    = Ok (Z.min st 0, f')
         (after_call (after_call w r1 (CallLseek (l1descInx ifp) offset whence))
                     r2 (CallLseek (l1descInx ifp) 0 SEEK_CUR))
    /\ base_offset f' = to_int (to_int p - st)
    /\ cursor f' = 0 /\ count f' = 0
    /\ base f' = base ifp /\ bufferSize f' = bufferSize ifp /\ dirty f' = 0.
Proof.
  intros Hmiss Hclean Hseek Htell.
  exists (set_count 0 (set_ptr (base ifp)
            (set_base_offset (to_int (to_int p - st)) ifp))).
  split.
  - unfold isioFileSeek. rewrite Hmiss.
    unfold bind, isioFlush, do_rcDataObjLseek, remote_call, isioFileTell, ret.
    rewrite Hclean. simpl. rewrite Hseek. simpl.
    unfold bind, do_rcDataObjLseek, remote_call. simpl. rewrite Htell.
    replace (if 0 <? st then 0 else st) with (Z.min st 0)
      by (destruct (0 <? st) eqn:E; bool_to_prop; lia).
    reflexivity.
  - simpl. unfold cursor, ptr_diff. simpl. repeat split; trivial; lia.
Qed.

Lemma isioFileSeek_status (ifp : ISIO_FILE) (offset whence : Z) (w : world R) :
  post (isioFileSeek ifp offset whence) w
    (fun '(st, f') _ =>
       st <= 0 /\ base f' = base ifp /\ bufferSize f' = bufferSize ifp
       /\ l1descInx f' = l1descInx ifp).
Proof.
  unfold isioFileSeek.
  destruct (offset_in_current_buffer ifp offset whence) as [adj|].
  - post_auto. simpl. repeat split; trivial; lia.
  - post_auto; cbv zeta; bool_to_prop; flushed_cases; subst; simpl.
    all: repeat split; trivial; try lia.
    all: destruct (0 <? _) eqn:?; bool_to_prop; lia.
Qed.

(** X9.  isioFileSeek never returns a positive status, keeps the buffer and
    its capacity, and leaves a handle that satisfies the assertions of
    isio.c if it was given one. *)
Theorem isioFileSeek_keeps_handle_ok
  (ifp : ISIO_FILE) (offset whence : Z) (w : world R) :
  handle_ok ifp ->
  post (isioFileSeek ifp offset whence) w
    (fun '(st, f') _ =>
       st <= 0 /\ handle_ok f'
       /\ base f' = base ifp /\ bufferSize f' = bufferSize ifp).
Proof.
  intros Hok.
  eapply post_mono;
    [exact (post_and _ _ _ _ (isioFileSeek_status ifp offset whence w)
                     (isioFileSeek_bounds ifp offset whence w Hok))|].
  intros [st f'] w' ((? & ? & ? & _) & ?). auto.
Qed.

End Seek.

(** ** Loads and stores *)

Lemma load_defined (h : heap) (b : block) (o n : Z) :
  0 <= o -> 0 <= n -> o + n <= block_size h b ->
  exists data, load h (Ptr b o) n = Some data.
Proof.
  unfold block_size, load. intros Ho Hn Hfit.
  destruct (h !! b) as [[bytes|]|]; try lia.
  assert (E : (0 <=? o) && (0 <=? n) && (o + n <=? Z.of_nat (length bytes)) = true).
  { rewrite !andb_true_iff, !Z.leb_le. auto. }
  rewrite E. eauto.
Qed.

Lemma store_defined (h : heap) (b : block) (o : Z) (bs : list byte) :
  0 <= o -> o + Z.of_nat (length bs) <= block_size h b ->
  exists h', store h (Ptr b o) bs = Some h'
    /\ (forall b', block_size h' b' = block_size h b')
    /\ load h' (Ptr b o) (Z.of_nat (length bs)) = Some bs
    /\ (forall b' o' n, b' <> b -> load h' (Ptr b' o') n = load h (Ptr b' o') n).
Proof.
  unfold block_size, store, heap, block in *. intros Ho Hfit.
  destruct (h !! b) as [[bytes|]|] eqn:Hb; try lia.
  assert (E : (0 <=? o) && (o + Z.of_nat (length bs) <=? Z.of_nat (length bytes)) = true).
  { rewrite !andb_true_iff, !Z.leb_le. auto. }
  rewrite E. eexists. split; [reflexivity|].
  assert (Hlt : (b < length h)%nat) by (apply lookup_lt_Some in Hb; exact Hb).
  assert (Hlen : length (take (Z.to_nat o) bytes ++ bs
                         ++ drop (Z.to_nat o + length bs) bytes) = length bytes).
  { rewrite !length_app, length_take, length_drop. lia. }
  split; [|split].
  - intros b'. unfold block_size.
    destruct (decide (b' = b)) as [->|Hne].
    + rewrite list_lookup_insert_eq by exact Hlt. rewrite Hb, Hlen. reflexivity.
    + rewrite list_lookup_insert_ne by congruence. reflexivity.
  - unfold load, heap, block. rewrite list_lookup_insert_eq by exact Hlt. rewrite Hlen.
    assert (E2 : (0 <=? o) && (0 <=? Z.of_nat (length bs))
                 && (o + Z.of_nat (length bs) <=? Z.of_nat (length bytes)) = true).
    { rewrite !andb_true_iff, !Z.leb_le. repeat split; lia. }
    rewrite E2. f_equal.
    rewrite drop_app_length'; [|rewrite length_take; lia].
    rewrite Nat2Z.id. apply take_app_length.
  - intros b' o' n Hne. unfold load, heap, block.
    rewrite list_lookup_insert_ne by congruence. reflexivity.
Qed.

Lemma load_store_prefix (h h' : heap) (b : block) (o k : Z) (bs : list byte) :
  store h (Ptr b o) bs = Some h' -> 0 <= k <= Z.of_nat (length bs) ->
  load h' (Ptr b o) k = Some (take (Z.to_nat k) bs).
Proof.
  unfold store, load, heap, block in *.
  destruct (h !! b) as [[bytes|]|] eqn:Hb; try discriminate.
  destruct (_ && _) eqn:E; [|discriminate]. bool_to_prop.
  intros [= <-] Hk.
  assert (Hlt : (b < length h)%nat) by (apply lookup_lt_Some in Hb; exact Hb).
  rewrite list_lookup_insert_eq by exact Hlt.
  assert (Hlen : length (take (Z.to_nat o) bytes ++ bs
                         ++ drop (Z.to_nat o + length bs) bytes) = length bytes).
  { rewrite !length_app, length_take, length_drop. lia. }
  rewrite Hlen.
  assert (E2 : (0 <=? o) && (0 <=? k) && (o + k <=? Z.of_nat (length bytes)) = true).
  { rewrite !andb_true_iff, !Z.leb_le. repeat split; lia. }
  rewrite E2. f_equal.
  rewrite drop_app_length'; [|rewrite length_take; lia].
  apply take_app_le. lia.
Qed.

(** ** Writing and reading inside the buffer *)

Section InsideBuffer.
Context {R : Type} `{RemoteSession R}.

(** isioFileWrite when the bytes fit between the cursor and the end of
    the buffer. *)
Lemma isioFileWrite_fits (ifp : ISIO_FILE) (buffer : pointer) (n : Z) (w : world R)
  (bs : list byte) (h : heap) :
  handle_ok ifp -> 0 < n <= bufferSize ifp - cursor ifp ->
  load (mem w) buffer n = Some bs ->
  store (mem w) (ptr ifp) bs = Some h ->
  isioFileWrite ifp buffer n w
  = Ok (n, mkISIO_FILE (base_offset ifp) (base ifp) (bufferSize ifp)
                       (ptr_add (ptr ifp) n) (Z.max (count ifp - n) 0) 1
                       (l1descInx ifp))
       (set_mem h w).
Proof.
  intros (Hbase & Hptr & Hinv & Hcount & Hb) Hn Hload Hstore.
  assert (Hn' : 0 <= n <= INT_MAX)
    by (destruct Hinv; unfold INT_MAX, int_range in *; lia).
  destruct (write_sizes ifp n Hinv Hb Hn') as (E1 & E2 & E3 & E4 & E5).
  unfold isioFileWrite. cbv zeta.
  change (bufferSize (set_dirty 1 ifp)) with (bufferSize ifp).
  change (ptr (set_dirty 1 ifp)) with (ptr ifp).
  change (base (set_dirty 1 ifp)) with (base ifp).
  rewrite E1, E2, E3, E4. clear E1 E2 E3 E4 E5.
  replace (Z.min n (bufferSize ifp - cursor ifp)) with n by lia.
  assert (E0 : (n =? 0) = false) by (apply Z.eqb_neq; lia).
  rewrite E0, Z.eqb_refl.
  unfold bind, memcpy, ret. rewrite Hload, Hstore. simpl count.
  destruct Hinv as (Hc & Hs). unfold int_range in *.
  rewrite to_int_id by (unfold int_range; lia).
  destruct (count ifp - n <? 0) eqn:E; bool_to_prop; simpl.
  - rewrite Z.max_r by lia. reflexivity.
  - rewrite Z.max_l by lia. reflexivity.
Qed.

(** isioFileRead when the flush (if there is one) succeeds and the
    unread bytes cover the request. *)
Lemma isioFileRead_hit (ifp f0 : ISIO_FILE) (buffer : pointer) (n st : Z)
  (w w0 : world R) (bs : list byte) (h : heap) :
  isioFlush ifp w = Ok (st, f0) w0 -> 0 <= st ->
  0 < n <= count f0 -> int_range (count f0) ->
  load (mem w0) (ptr f0) n = Some bs ->
  store (mem w0) buffer bs = Some h ->
  isioFileRead ifp buffer n w
  = Ok (n, set_count (count f0 - n) (set_ptr (ptr_add (ptr f0) n) f0)) (set_mem h w0).
Proof.
  intros Hflush Hst Hn Hcount Hload Hstore.
  assert (E0 : (n =? 0) = false) by (apply Z.eqb_neq; lia).
  assert (E1 : (st <? 0) = false) by (apply Z.ltb_ge; lia).
  unfold isioFileRead. rewrite E0. cbv iota.
  rewrite (bind_eq _ _ _ _ _ Hflush). rewrite E1.
  assert (Hint : int_range n) by (unfold int_range in *; lia).
  rewrite (to_int_id n Hint).
  rewrite (to_size_t_id n) by (unfold size_t_range, int_range in *; lia).
  assert (E3 : (0 <? count f0) = true) by (apply Z.ltb_lt; lia).
  assert (E4 : (n <=? count f0) = true) by (apply Z.leb_le; lia).
  rewrite E3, E4.
  unfold bind, memcpy, ret. rewrite Hload, Hstore.
  change (count (set_ptr (ptr_add (ptr f0) n) f0)) with (count f0).
  rewrite to_int_id by (unfold int_range in *; lia).
  reflexivity.
Qed.

(** X10.  A write that fits in the buffer.  When the [n] bytes fit between the
    cursor and the end of the buffer, isioFileWrite returns [n], makes
    no call to the server, and changes the heap only by placing the
    bytes at the cursor: they can be read back from there.  The cursor
    has moved on by [n], the unread count has gone down by [n] but not
    below zero, the handle is dirty, and it still satisfies the
    assertions of isio.c. *)
Theorem isioFileWrite_within_buffer
  (ifp : ISIO_FILE) (buffer : pointer) (n : Z) (w : world R) (bs : list byte) :
  handle_ok ifp -> buffer_in (mem w) ifp ->
  0 < n <= bufferSize ifp - cursor ifp ->
  load (mem w) buffer n = Some bs ->
  exists (f' : ISIO_FILE) (h : heap),
    isioFileWrite ifp buffer n w = Ok (n, f') (set_mem h w)
    /\ load h (ptr ifp) n = Some bs
    /\ (forall p k, ptr_block p <> ptr_block (ptr ifp) -> load h p k = load (mem w) p k)
    /\ handle_ok f' /\ buffer_in h f'
    /\ cursor f' = cursor ifp + n
    /\ count f' = Z.max (count ifp - n) 0
    /\ dirty f' = 1
    /\ base f' = base ifp /\ bufferSize f' = bufferSize ifp
    /\ base_offset f' = base_offset ifp.
Proof.
  intros Hok Hin Hn Hload.
  pose proof (load_length _ _ _ _ Hload) as Hlen.
  pose proof Hok as (Hbase & Hptr & (Hc & Hs) & Hcount & Hb).
  unfold buffer_in in Hin.
  destruct (base ifp) as [|cb bo] eqn:Ebase; [contradiction|].
  destruct (ptr ifp) as [|pb po] eqn:Eptr; [contradiction|].
  destruct Hin as (-> & Hbo & Hfit).
  assert (Hcur : cursor ifp = po - bo)
    by (unfold cursor, ptr_diff; rewrite Ebase, Eptr; reflexivity).
  destruct (store_defined (mem w) cb po bs) as (h & Hstore & Hsize & Hsame & Hother);
    [lia | lia |].
  exists (mkISIO_FILE (base_offset ifp) (base ifp) (bufferSize ifp)
                      (ptr_add (ptr ifp) n) (Z.max (count ifp - n) 0) 1
                      (l1descInx ifp)), h.
  split.
  - apply (isioFileWrite_fits ifp buffer n w bs h); trivial. now rewrite Eptr.
  - rewrite Hlen in Hsame. split; [exact Hsame|]. split.
    + intros [|b' o'] k Hne; [reflexivity|]. apply Hother. exact Hne.
    + unfold handle_ok, bounds_invariant, buffer_in, cursor, ptr_diff, int_range in *.
      simpl. rewrite Ebase, Eptr. simpl. rewrite Hsize.
      repeat split; trivial; lia.
Qed.

End InsideBuffer.

(** ** A flush the server took only part of *)

(** A block with [bs] stored [c] bytes into an extent, read again from
    the start of the extent. *)
Lemma take_drop_splice {A} (B bs : list A) (bo c k : nat) :
  (bo + c + length bs <= length B)%nat ->
  take (c + (length bs + (k - length bs)))
       (drop bo (take (bo + c) B ++ bs ++ drop (bo + c + length bs) B))
  = take c (take (c + k) (drop bo B)) ++ bs
    ++ drop (c + length bs) (take (c + k) (drop bo B)).
Proof.
  intros Hfit.
  rewrite drop_app_le by (rewrite length_take; lia).
  rewrite skipn_firstn_comm.
  replace (bo + c - bo)%nat with c by lia.
  rewrite take_app_add' by (rewrite length_take, length_drop; lia).
  rewrite take_app_add.
  rewrite take_take. replace (c `min` (c + k))%nat with c by lia.
  rewrite skipn_firstn_comm, drop_drop.
  replace (c + k - (c + length bs))%nat with (k - length bs)%nat by lia.
  replace (bo + (c + length bs))%nat with (bo + c + length bs)%nat by lia.
  reflexivity.
Qed.

Lemma load_after_store (h h' : heap) (b : block) (bo c k : Z) (bs data : list byte) :
  0 <= bo -> 0 <= c -> 0 <= k ->
  store h (Ptr b (bo + c)) bs = Some h' ->
  load h (Ptr b bo) (c + k) = Some data ->
  let n := Z.of_nat (length bs) in
  load h' (Ptr b bo) (c + n + Z.max (k - n) 0)
  = Some (take (Z.to_nat c) data ++ bs ++ drop (Z.to_nat c + length bs) data).
Proof.
  intros Hbo Hc Hk. unfold store, load, heap, block in *.
  destruct (h !! b) as [[bytes|]|] eqn:Hb; try discriminate.
  destruct (_ && _) eqn:E; [|discriminate]. bool_to_prop.
  intros [= <-].
  destruct (_ && _) eqn:E2; [|discriminate]. bool_to_prop.
  intros [= <-]. set (n := Z.of_nat (length bs)).
  assert (Hlt : (b < length h)%nat) by (apply lookup_lt_Some in Hb; exact Hb).
  rewrite list_lookup_insert_eq by exact Hlt.
  assert (Hlen : length (take (Z.to_nat (bo + c)) bytes ++ bs
                         ++ drop (Z.to_nat (bo + c) + length bs) bytes) = length bytes).
  { rewrite !length_app, length_take, length_drop. lia. }
  rewrite Hlen.
  assert (E3 : (0 <=? bo) && (0 <=? c + n + Z.max (k - n) 0)
               && (bo + (c + n + Z.max (k - n) 0) <=? Z.of_nat (length bytes)) = true).
  { rewrite !andb_true_iff, !Z.leb_le. subst n. repeat split; lia. }
  rewrite E3. f_equal.
  replace (Z.to_nat (bo + c)) with (Z.to_nat bo + Z.to_nat c)%nat by lia.
  replace (Z.to_nat (c + n + Z.max (k - n) 0))
    with (Z.to_nat c + (length bs + (Z.to_nat k - length bs)))%nat by (subst n; lia).
  replace (Z.to_nat (c + k)) with (Z.to_nat c + Z.to_nat k)%nat by lia.
  apply take_drop_splice. lia.
Qed.

Section ShortWrite.
Context {R : Type} `{RemoteSession R}.

(** C9, as the code has it.  On a dirty handle, whatever non-negative
    status the remote write returns -- also one that is smaller than the
    [cursor + count] bytes flush transmitted -- isioFlush returns that
    status with the dirty flag cleared and nothing else changed, after
    exactly one remote write of the whole occupied extent: a short write
    counts as a complete flush.  The bytes stay in the buffer, though,
    and the flush after a further write into the buffer sends the
    occupied extent from its start again: what the first flush sent
    before the cursor, the new bytes, and what the first flush sent past
    them. *)
Theorem isioFlush_short_write_clears_dirty
  (ifp : ISIO_FILE) (w : world R) (data : list byte) (st : Z) (r' : R) :
  dirty ifp <> 0 ->
  int_range (cursor ifp + count ifp) ->
  load (mem w) (base ifp) (cursor ifp + count ifp) = Some data ->
  rcDataObjWrite (l1descInx ifp) data (remote w) = (st, r') ->
  0 <= st ->
  let w1 := after_call w r' (CallWrite (l1descInx ifp) data) in
  isioFlush ifp w = Ok (st, set_dirty 0 ifp) w1
  /\ new_calls (isioFlush ifp) w = Some [CallWrite (l1descInx ifp) data]
  /\ forall (buffer : pointer) (n : Z) (bs : list byte),
       handle_ok ifp -> buffer_in (mem w) ifp ->
       0 < n <= bufferSize ifp - cursor ifp ->
       load (mem w) buffer n = Some bs ->
       let c := Z.to_nat (cursor ifp) in
       new_calls (do '(_, f2) <- isioFileWrite (set_dirty 0 ifp) buffer n;
                  isioFlush f2) w1
       = Some [CallWrite (l1descInx ifp)
                         (take c data ++ bs ++ drop (c + Z.to_nat n) data)].
Proof.
  intros Hd Hrange Hload Hwrite Hst w1.
  assert (Hflush : isioFlush ifp w = Ok (st, set_dirty 0 ifp) w1).
  { unfold w1. rewrite (isioFlush_dirty ifp w data st r'); trivial.
    - apply Z.leb_le in Hst. now rewrite Hst.
    - now rewrite to_int_id. }
  split; [exact Hflush|]. split.
  - now apply (new_calls_one _ w (st, set_dirty 0 ifp) r').
  - intros buffer n bs Hok Hin Hn Hbs c.
    pose proof (load_length _ _ _ _ Hbs) as Hlen.
    pose proof Hok as (Hbase & Hptr & (Hc & Hs) & Hcount & Hb).
    unfold buffer_in in Hin.
    destruct (base ifp) as [|cb bo] eqn:Ebase; [contradiction|].
    destruct (ptr ifp) as [|pb po] eqn:Eptr; [contradiction|].
    destruct Hin as (-> & Hbo & Hfit).
    assert (Hcur : cursor ifp = po - bo)
      by (unfold cursor, ptr_diff; rewrite Ebase, Eptr; reflexivity).
    destruct (store_defined (mem w) cb po bs) as (h & Hstore & _); [lia | lia |].
    set (f1 := set_dirty 0 ifp).
    assert (Hok1 : handle_ok f1).
    { unfold f1, handle_ok, bounds_invariant, cursor in *. simpl. auto. }
    set (f2 := mkISIO_FILE (base_offset f1) (base f1) (bufferSize f1)
                           (ptr_add (ptr f1) n) (Z.max (count f1 - n) 0) 1
                           (l1descInx f1)).
    assert (Hrun : isioFileWrite f1 buffer n w1 = Ok (n, f2) (set_mem h w1)).
    { apply (isioFileWrite_fits f1 buffer n w1 bs h); trivial.
      unfold f1. simpl. now rewrite Eptr. }
    set (data2 := take c data ++ bs ++ drop (c + Z.to_nat n) data).
    assert (Hload2 : load h (base f2) (to_int (cursor f2 + count f2)) = Some data2).
    { unfold f2, f1, cursor, ptr_diff. simpl. rewrite Ebase, Eptr. simpl.
      replace (po + n - bo + Z.max (count ifp - n) 0)
        with (cursor ifp + n + Z.max (count ifp - n) 0) by lia.
      rewrite to_int_id by (unfold int_range in *; lia).
      replace po with (bo + cursor ifp) in Hstore by lia.
      rewrite <- Hlen.
      replace (c + Z.to_nat (Z.of_nat (length bs)))%nat with (c + length bs)%nat in *
        by lia.
      unfold data2, c. rewrite <- Hlen.
      replace (Z.to_nat (Z.of_nat (length bs))) with (length bs) by lia.
      apply (load_after_store (mem w) h cb bo (cursor ifp) (count ifp) bs data);
        trivial; lia. }
    destruct (rcDataObjWrite (l1descInx f2) data2 (remote (set_mem h w1)))
      as [st2 r2] eqn:Hwrite2.
    pose proof (isioFlush_dirty f2 (set_mem h w1) data2 st2 r2
                  ltac:(discriminate) Hload2 Hwrite2) as Hflush2.
    unfold new_calls. rewrite (bind_eq _ _ _ _ _ Hrun). rewrite Hflush2.
    simpl. now rewrite drop_app_length.
Qed.

End ShortWrite.

(** C9, against the claim: the server takes one of the three bytes of
    the first flush, which returns 1 and leaves the handle clean; a
    fourth byte is written; the second flush sends all four bytes, the
    two the server did not take among them. *)
Lemma short_write_tail_is_sent_again :
  let w := written [x0a; x0b; x0c; x0d] 3 (mkSim [] 0 3 [None; Some 1]) in
  result_of (irodsfflush 1) w = Some (Cached 1)
  /\ new_calls (do_ irodsfflush 1;
                do_ irodsfwrite (Ptr 0%nat 3) 1 1 1;
                irodsfflush 1) w
     = Some [CallWrite 3 [x0a; x0b; x0c]; CallWrite 3 [x0a; x0b; x0c; x0d]].
Proof. vm_compute. split; reflexivity. Qed.

(** The same run, step by step. *)
Lemma isioFlush_short_write_clears_dirty_witness :
  let w := written [x0a; x0b; x0c; x0d] 3 (mkSim [] 0 3 [None; Some 1]) in
  let ifp := handle_of 1 w in
  let w1 := after_call w (mkSim [x0a] 1 4 []) (CallWrite 3 [x0a; x0b; x0c]) in
  dirty ifp = 1
  /\ isioFlush ifp w = Ok (1, set_dirty 0 ifp) w1
  /\ new_calls (isioFlush ifp) w = Some [CallWrite 3 [x0a; x0b; x0c]]
  /\ new_calls (do '(_, f2) <- isioFileWrite (set_dirty 0 ifp) (Ptr 0%nat 3) 1;
                isioFlush f2) w1
     = Some [CallWrite 3 [x0a; x0b; x0c; x0d]].
Proof.
  intros w ifp w1. split; [vm_compute; reflexivity|].
  destruct (isioFlush_short_write_clears_dirty ifp w [x0a; x0b; x0c] 1
              (mkSim [x0a] 1 4 [])) as (Hflush & Hcalls & Hlater).
  - vm_compute. intros E. discriminate E.
  - replace (cursor ifp + count ifp) with 3 by (vm_compute; reflexivity).
    unfold int_range. lia.
  - vm_compute. reflexivity.
  - vm_compute. reflexivity.
  - lia.
  - assert (Hok : handle_ok ifp)
      by (vm_compute; repeat split; try reflexivity; intros E; discriminate E).
    assert (Hin : buffer_in (mem w) ifp)
      by (vm_compute; repeat split; try reflexivity; intros E; discriminate E).
    assert (Hn : 0 < 1 <= bufferSize ifp - cursor ifp).
    { replace (bufferSize ifp - cursor ifp) with 65533 by (vm_compute; reflexivity). lia. }
    assert (Hbs : load (mem w) (Ptr 0%nat 3) 1 = Some [x0d]) by (vm_compute; reflexivity).
    specialize (Hlater (Ptr 0%nat 3) 1 [x0d] Hok Hin Hn Hbs).
    replace (l1descInx ifp) with 3 in Hflush, Hcalls, Hlater by (vm_compute; reflexivity).
    replace (Z.to_nat (cursor ifp)) with 3%nat in Hlater by (vm_compute; reflexivity).
    repeat split; assumption.
Defined.

Section RoundTrip.
Context {R : Type} `{RemoteSession R}.

(** X11.  The round trip inside the buffer.  [n] bytes written where they fit
    between the cursor and the end of the buffer, a SEEK_SET back to the
    position the write started at, and a read of [n] bytes: if the
    server accepts the flush the read starts with, the three calls
    return [n], 0 and [n], the caller's buffer holds the bytes written,
    and the only call to the server is that flush.  The position ends
    [n] past where it started, and the handle is clean and satisfies the
    assertions of isio.c. *)
Theorem write_seek_read_round_trip
  (ifp : ISIO_FILE) (src dst : pointer) (n : Z) (w : world R) (bs : list byte) :
  handle_ok ifp -> buffer_in (mem w) ifp -> 0 <= base_offset ifp ->
  0 < n <= bufferSize ifp - cursor ifp ->
  load (mem w) src n = Some bs ->
  room_at (mem w) dst n (ptr_block (ptr ifp)) ->
  (forall data, 0 <= fst (rcDataObjWrite (l1descInx ifp) data (remote w))) ->
  exists (f1 : ISIO_FILE) (w1 : world R) (f2 f3 : ISIO_FILE) (w3 : world R),
    isioFileWrite ifp src n w = Ok (n, f1) w1
    /\ isioFileSeek f1 (base_offset ifp + cursor ifp) SEEK_SET w1 = Ok (0, f2) w1
    /\ isioFileRead f2 dst n w1 = Ok (n, f3) w3
    /\ load (mem w3) dst n = Some bs
    /\ ncalls w3 = ncalls w + 1
    /\ handle_ok f3 /\ cursor f3 = cursor ifp + n /\ dirty f3 = 0.
Proof.
  intros Hok Hin Hbo Hn Hload Hroom Hsrv.
  pose proof (load_length _ _ _ _ Hload) as Hlen.
  destruct ifp as [bo [|cb bofs] size [|pb pofs] c d l];
    try (destruct Hok as (Hbase & Hptr & _); discriminate);
    try contradiction.
  destruct Hin as (-> & Hbofs & Hfit).
  destruct Hok as (_ & _ & (Hc & Hs) & Hcount & Hb).
  unfold cursor, ptr_diff, int_range in *. simpl in *.
  destruct dst as [|db dofs]; [contradiction|].
  destruct Hroom as (Hne & Hdofs & Hdfit).
  (* the write *)
  destruct (store_defined (mem w) cb pofs bs) as (h1 & Hstore & Hsize & Hsame & Hother);
    [lia | lia |].
  rewrite Hlen in Hsame.
  set (f1 := mkISIO_FILE bo (Ptr cb bofs) size (Ptr cb (pofs + n)) (Z.max (c - n) 0) 1 l).
  assert (Hwrite : isioFileWrite (mkISIO_FILE bo (Ptr cb bofs) size (Ptr cb pofs) c d l)
                                 src n w = Ok (n, f1) (set_mem h1 w)).
  { rewrite (isioFileWrite_fits _ src n w bs h1); trivial.
    unfold handle_ok, bounds_invariant, cursor, ptr_diff, int_range. simpl.
    repeat split; trivial; lia. }
  (* the seek *)
  set (f2 := mkISIO_FILE bo (Ptr cb bofs) size (Ptr cb pofs) (Z.max c n) 1 l).
  assert (Hwindow : offset_in_current_buffer f1 (bo + (pofs - bofs)) SEEK_SET = Some (- n)).
  { unfold offset_in_current_buffer, f1, ptr_diff, SEEK_SET. simpl.
    assert (E1 : (size <=? 0) = false) by (apply Z.leb_gt; lia).
    assert (E2 : (pofs + n - bofs + Z.max (c - n) 0 <=? 0) = false)
      by (apply Z.leb_gt; lia).
    assert (E3 : (0 <=? bo + (pofs - bofs)) = true) by (apply Z.leb_le; lia).
    assert (E4 : (bo <=? bo + (pofs - bofs)) = true) by (apply Z.leb_le; lia).
    assert (E5 : (bo + (pofs - bofs) <? bo + (pofs + n - bofs) + Z.max (c - n) 0) = true)
      by (apply Z.ltb_lt; lia).
    rewrite E1, E2, E3, E4, E5. simpl. f_equal. lia. }
  assert (Hseek : isioFileSeek f1 (bo + (pofs - bofs)) SEEK_SET (set_mem h1 w)
                  = Ok (0, f2) (set_mem h1 w)).
  { rewrite (isioFileSeek_hit _ _ _ _ _ Hwindow). unfold f1, f2. simpl.
    rewrite to_int_id by (unfold int_range; lia).
    unfold set_count, set_ptr. simpl.
    replace (pofs + n + - n) with pofs by lia.
    replace (Z.max (c - n) 0 - - n) with (Z.max c n) by lia.
    reflexivity. }
  (* the flush the read starts with *)
  destruct (load_defined h1 cb bofs (pofs - bofs + Z.max c n)) as (data & Hdata);
    [lia | lia | rewrite Hsize; lia |].
  destruct (rcDataObjWrite l data (remote w)) as [st r'] eqn:Hanswer.
  assert (Hst : 0 <= st) by (specialize (Hsrv data); now rewrite Hanswer in Hsrv).
  set (w2 := after_call (set_mem h1 w) r' (CallWrite l data)).
  assert (Hflush : isioFlush f2 (set_mem h1 w) = Ok (st, set_dirty 0 f2) w2).
  { rewrite (isioFlush_dirty f2 (set_mem h1 w) data st r').
    - apply Z.leb_le in Hst. now rewrite Hst.
    - discriminate.
    - unfold f2, cursor, ptr_diff. simpl.
      rewrite to_int_id by (unfold int_range; lia). exact Hdata.
    - exact Hanswer. }
  (* the read *)
  destruct (store_defined h1 db dofs bs) as (h3 & Hstore3 & _ & Hsame3 & _);
    [lia | rewrite Hsize; lia |].
  rewrite Hlen in Hsame3.
  exists f1, (set_mem h1 w), f2.
  exists (set_count (Z.max c n - n) (set_ptr (Ptr cb (pofs + n)) (set_dirty 0 f2))).
  exists (set_mem h3 w2).
  split; [exact Hwrite|]. split; [exact Hseek|]. split.
  - apply (isioFileRead_hit f2 (set_dirty 0 f2) (Ptr db dofs) n st
             (set_mem h1 w) w2 bs h3); trivial; simpl; unfold int_range; try lia.
  - split; [exact Hsame3|]. split.
    + unfold ncalls. simpl. rewrite length_app. simpl. lia.
    + unfold handle_ok, bounds_invariant, cursor, ptr_diff, int_range. simpl.
      repeat split; trivial; lia.
Qed.

End RoundTrip.

(** ** isioFileClose and isioFileTell *)

Section Close.
Context {R : Type} `{RemoteSession R}.

Lemma isioFileClose_clean (ifp : ISIO_FILE) (w : world R) (b : block)
  (bytes : list byte) :
  dirty ifp = 0 -> base ifp = Ptr b 0 -> mem w !! b = Some (Some bytes) ->
  isioFileClose ifp w
  = Ok (fst (rcDataObjClose (l1descInx ifp) (remote w)))
       (after_call (set_mem (<[b := None]> (mem w)) w)
                   (snd (rcDataObjClose (l1descInx ifp) (remote w)))
                   (CallClose (l1descInx ifp))).
Proof.
  intros Hclean Hbase Hblock. unfold isioFileClose.
  rewrite (bind_eq _ _ _ _ _ (isioFlush_clean ifp w Hclean)). simpl.
  unfold destroy_isio_file, bind, ret, free, remote_call.
  rewrite Hbase. simpl. rewrite Hblock. simpl.
  now destruct (rcDataObjClose (l1descInx ifp) (remote w)).
Qed.

Lemma isioFileClose_freed (ifp : ISIO_FILE) (w : world R) (b : block) :
  dirty ifp = 0 -> base ifp = Ptr b 0 -> mem w !! b = Some None ->
  isioFileClose ifp w = Fault.
Proof.
  intros Hclean Hbase Hblock. unfold isioFileClose.
  rewrite (bind_eq _ _ _ _ _ (isioFlush_clean ifp w Hclean)). simpl.
  unfold destroy_isio_file, bind, ret, free.
  rewrite Hbase. simpl. rewrite Hblock. reflexivity.
Qed.

(** X18.  Closing a clean handle, and closing it again.  irodsfclose on a
    clean handle frees the buffer, calls rcDataObjClose once and returns
    its status; the table still holds the handle under the same FILE *.
    A second irodsfclose on that FILE * therefore finds the handle and
    frees the freed buffer again, and a write of one or more bytes
    through it copies into the freed buffer: both are undefined
    behaviour. *)
Theorem irodsfclose_twice_is_undefined
  (fp : Z) (ifp : ISIO_FILE) (w : world R) (b : block) (o : Z)
  (buffer : pointer) (n : Z) :
  is_in_map (to_int (to_size_t fp)) w = Ok (Some ifp) w ->
  dirty ifp = 0 -> base ifp = Ptr b 0 -> ptr ifp = Ptr b o ->
  0 <= block_size (mem w) b ->
  n <> 0 ->
  exists w' : world R,
    irodsfclose fp w
    = Ok (Cached (fst (rcDataObjClose (l1descInx ifp) (remote w)))) w'
    /\ calls w' = calls w ++ [CallClose (l1descInx ifp)]
    /\ mem w' = <[b := None]> (mem w)
    /\ _cacheInfo w' = _cacheInfo w
    /\ is_in_map (to_int (to_size_t fp)) w' = Ok (Some ifp) w'
    /\ irodsfclose fp w' = Fault
    /\ isioFileWrite ifp buffer n w' = Fault.
Proof.
  intros Hmap Hclean Hbase Hptr Hlive Hn.
  assert (Hblock : exists bytes, mem w !! b = Some (Some bytes)).
  { unfold block_size in Hlive.
    destruct (mem w !! b) as [[bytes|]|]; [eauto | lia | lia]. }
  destruct Hblock as (bytes & Hblock).
  pose proof (isioFileClose_clean ifp w b bytes Hclean Hbase Hblock) as Hclose.
  set (w' := after_call (set_mem (<[b := None]> (mem w)) w)
                        (snd (rcDataObjClose (l1descInx ifp) (remote w)))
                        (CallClose (l1descInx ifp))) in *.
  assert (Hfreed : mem w' !! b = Some None).
  { simpl. unfold heap, block in *. apply list_lookup_insert_eq.
    apply lookup_lt_Some in Hblock. exact Hblock. }
  assert (Hmap' : is_in_map (to_int (to_size_t fp)) w' = Ok (Some ifp) w').
  { revert Hmap. unfold is_in_map, ret.
    destruct (_ && _); [|discriminate]. cbv beta.
    change (_cacheInfo w') with (_cacheInfo w).
    destruct (_cacheInfo w !! _) as [slot|]; [|discriminate].
    intros [= ->]. reflexivity. }
  exists w'. split; [|split; [|split; [|split; [|split; [|split]]]]]; trivial.
  - unfold irodsfclose. rewrite (bind_eq _ _ _ _ _ Hmap).
    rewrite (bind_eq _ _ _ _ _ Hclose). reflexivity.
  - unfold irodsfclose. rewrite (bind_eq _ _ _ _ _ Hmap').
    unfold bind. now rewrite (isioFileClose_freed ifp w' b).
  - unfold isioFileWrite. apply Z.eqb_neq in Hn. rewrite Hn. cbv zeta.
    unfold bind, memcpy. simpl ptr. rewrite Hptr.
    destruct (load (mem w') buffer _) as [bs|]; [|reflexivity].
    unfold store. rewrite Hfreed. reflexivity.
Qed.

(** X19.  A close whose flush fails.  When the server refuses the write of a
    dirty buffer, isioFileClose returns the status of that write and
    stops: the buffer is not freed, rcDataObjClose is not called, and
    the handle and the heap are as before. *)
Theorem isioFileClose_flush_failure
  (ifp : ISIO_FILE) (w : world R) (data : list byte) (st : Z) (r' : R) :
  dirty ifp <> 0 ->
  int_range (cursor ifp + count ifp) ->
  load (mem w) (base ifp) (cursor ifp + count ifp) = Some data ->
  rcDataObjWrite (l1descInx ifp) data (remote w) = (st, r') ->
  st < 0 ->
  exists w' : world R,
    isioFileClose ifp w = Ok st w'
    /\ calls w' = calls w ++ [CallWrite (l1descInx ifp) data]
    /\ mem w' = mem w /\ _cacheInfo w' = _cacheInfo w
    /\ isioFlush ifp w = Ok (st, ifp) w'.
Proof.
  intros Hd Hrange Hload Hwrite Hst.
  assert (Hflush : isioFlush ifp w
                   = Ok (st, ifp) (after_call w r' (CallWrite (l1descInx ifp) data))).
  { rewrite (isioFlush_dirty ifp w data st r'); trivial.
    - assert (E : (0 <=? st) = false) by (apply Z.leb_gt; lia). now rewrite E.
    - now rewrite to_int_id. }
  eexists. split; [|split; [|split; [|split]]]; [| | | |exact Hflush]; trivial.
  unfold isioFileClose. rewrite (bind_eq _ _ _ _ _ Hflush).
  assert (E : (st <? 0) = true) by (apply Z.ltb_lt; lia). now rewrite E.
Qed.

(** X20.  isioFileTell has no error path.  It returns the offset of the
    seekResult as an int, whatever the status of rcDataObjLseek: an
    offset from [2^31] up comes back as a negative number.  When the
    call leaves no seekResult the NULL pointer is dereferenced. *)
Theorem isioFileTell_answer
  (ifp : ISIO_FILE) (w : world R) (st : Z) (res : option Z) (r' : R) :
  rcDataObjLseek (l1descInx ifp) 0 SEEK_CUR (remote w) = ((st, res), r') ->
  let w' := after_call w r' (CallLseek (l1descInx ifp) 0 SEEK_CUR) in
  (res = None -> isioFileTell ifp w = Fault)
  /\ (forall p, res = Some p ->
        isioFileTell ifp w = Ok (to_int p) w'
        /\ (int_range p -> to_int p = p)
        /\ (2 ^ 31 <= p < 2 ^ 32 -> to_int p = p - 2 ^ 32 /\ to_int p < 0)).
Proof.
  intros Hseek w'.
  unfold isioFileTell, do_rcDataObjLseek, remote_call, bind. rewrite Hseek.
  split; [intros ->; reflexivity|].
  intros p ->. split; [reflexivity|]. split; [apply to_int_id|].
  intros Hp. unfold to_int.
  replace (p + 2 ^ 31) with (p - 2 ^ 31 + 1 * 2 ^ 32) by lia.
  rewrite Z_mod_plus_full, Z.mod_small by lia. lia.
Qed.

End Close.

(** ** What isioFileRead and isioFileWrite return *)

Section Results.
Context {R : Type} `{RemoteSession R}.

Lemma isioFileRead_status (ifp : ISIO_FILE) (buffer : pointer) (maxToRead : Z)
  (w : world R) :
  handle_ok ifp -> 0 <= maxToRead <= INT_MAX ->
  post (isioFileRead ifp buffer maxToRead) w (fun '(st, _) _ => st <= maxToRead).
Proof.
  intros Hok Hn.
  assert (Hint : to_int maxToRead = maxToRead)
    by (apply to_int_id; unfold int_range, INT_MAX in *; lia).
  unfold isioFileRead. rewrite Hint.
  unfold handle_ok, bounds_invariant, int_range, INT_MAX, ISIO_MAX_BUF_SIZE in *.
  destruct Hok as (Hbase & Hptr & (Hc & Hs) & Hcount & Hb).
  destruct ifp as [bo [|bb bofs] bs [|pb pofs] c d l]; try discriminate.
  unfold cursor, ptr_diff in *. simpl in *.
  repeat first
    [ post_step
    | eapply post_mono; [apply memcpy_silent|]; intros [] ? _
    | eapply post_mono; [apply realloc_silent|]; intros ? ? _
    | eapply post_mono; [apply isioFlush_calls|]; intros [? ?] ? (_ & ? & _ & _)
    | eapply post_mono; [apply isioFillBuffer_calls|];
      intros [? ?] ? [(_ & _ & _ & ?)|(_ & ? & _)] ];
    cbv zeta; bool_to_prop; flushed_cases; subst; simpl in *.
  all: try lia.
  all: repeat match goal with
       | Himp : 0 <= ?z -> _ |- _ =>
           first [ destruct Himp as (? & ?); [lia|] | clear Himp ]
       | Heq : (_, _) = (_, _) |- _ => injection Heq as ? ?; subst
       | Heq : Some _ = Some _ |- _ => injection Heq as ?; subst
       end.
  all: try discriminate.
  all: repeat (match goal with
               | |- context [if ?c then _ else _] => destruct c eqn:?
               | Hif : context [if ?c then _ else _] |- _ => destruct c eqn:?
               end; simpl in *).
  all: bool_to_prop; simpl in *.
  all: to_int_ids.
  all: to_int_atoms.
  all: try lia.
Qed.

(** X13.  isioFileRead never returns more than it was asked for, and when it
    returns a count (not an error) the handle still satisfies the
    assertions of isio.c -- provided the server never returns more bytes
    than a read asked for. *)
Theorem isioFileRead_count_and_bounds
  (ifp : ISIO_FILE) (buffer : pointer) (maxToRead : Z) (w : world R) :
  read_bounded R -> handle_ok ifp -> is_null buffer = false ->
  0 <= maxToRead <= INT_MAX ->
  post (isioFileRead ifp buffer maxToRead) w
    (fun '(st, f') _ => st <= maxToRead /\ (0 <= st -> handle_ok f')).
Proof.
  intros Hlaw Hok Hbuf Hn.
  eapply post_mono;
    [exact (post_and _ _ _ _ (isioFileRead_status ifp buffer maxToRead w Hok Hn)
                     (isioFileRead_bounds ifp buffer maxToRead w Hlaw Hok Hbuf Hn))|].
  intros [st f'] w' (? & ?). auto.
Qed.

Lemma isioFileWrite_status (ifp : ISIO_FILE) (buffer : pointer) (countToWrite : Z)
  (w : world R) :
  handle_ok ifp -> 0 <= countToWrite <= INT_MAX ->
  countToWrite - (bufferSize ifp - cursor ifp) <= ISIO_MAX_BUF_SIZE ->
  post (isioFileWrite ifp buffer countToWrite) w
    (fun '(st, f') _ =>
       st = countToWrite \/ st < 0 \/ (st = 0 /\ is_null (base f') = true)).
Proof.
  intros (Hbase & Hptr & Hinv & Hcount & Hb) Hn Hrest.
  destruct (write_sizes ifp countToWrite Hinv Hb Hn) as (E1 & E2 & E3 & E4 & E5).
  unfold isioFileWrite. cbv zeta. simpl bufferSize. simpl ptr. simpl base.
  rewrite E1, E2, E3, E4, E5. clear E1 E2 E3 E4 E5.
  unfold handle_ok, bounds_invariant, int_range, INT_MAX, ISIO_MAX_BUF_SIZE in *.
  destruct ifp as [bo [|bb bofs] bs [|pb pofs] c d l]; try discriminate.
  unfold cursor, ptr_diff in *. simpl in *.
  post_auto; cbv zeta; bool_to_prop; flushed_cases; subst.
  all: ptr_cases.
  all: repeat rewrite to_int_id in * by (unfold int_range; lia).
  all: repeat (match goal with
               | |- context [if ?c then _ else _] => destruct c eqn:?
               | Hif : context [if ?c then _ else _] |- _ => destruct c eqn:?
               end; simpl in *).
  all: bool_to_prop.
  all: try lia.
  all: try (right; right; split; [reflexivity|]; simpl; congruence).
Qed.

(** X14.  isioFileWrite when no larger buffer is needed.  If what does not fit
    between the cursor and the end of the buffer is not more than the
    buffer holds, isioFileWrite returns the number of bytes it was given
    or a negative status (of the flush), and the handle still satisfies
    the assertions of isio.c. *)
Theorem isioFileWrite_without_growth
  (ifp : ISIO_FILE) (buffer : pointer) (countToWrite : Z) (w : world R) :
  handle_ok ifp -> 0 <= countToWrite <= INT_MAX ->
  countToWrite - (bufferSize ifp - cursor ifp) <= bufferSize ifp ->
  bufferSize ifp <= ISIO_MAX_BUF_SIZE ->
  post (isioFileWrite ifp buffer countToWrite) w
    (fun '(st, f') _ => (st = countToWrite \/ st < 0) /\ handle_ok f').
Proof.
  intros Hok Hn Hrest Hmax.
  assert (Hrest' : countToWrite - (bufferSize ifp - cursor ifp) <= ISIO_MAX_BUF_SIZE)
    by lia.
  eapply post_mono;
    [exact (post_and _ _ _ _
              (isioFileWrite_status ifp buffer countToWrite w Hok Hn Hrest')
              (isioFileWrite_bounds ifp buffer countToWrite w Hok Hn))|].
  intros [st f'] w' (Hst & Hkeep & _).
  assert (Hok' : handle_ok f') by (apply Hkeep; left; exact Hrest).
  split; [|exact Hok'].
  destruct Hst as [?|[?|(_ & Hnull)]]; auto.
  destruct Hok' as (Hbase' & _). congruence.
Qed.

End Results.

(** ** isioFilePutc and isioFileGetc *)

Lemma block_size_allocated (h : heap) (b : block) :
  0 <= block_size h b -> (b < length h)%nat.
Proof.
  unfold block_size. destruct (h !! b) as [[bytes|]|] eqn:E; try lia.
  intros _. apply lookup_lt_Some in E. exact E.
Qed.

Lemma block_size_app (h : heap) (x : option (list byte)) (b : block) :
  (b < length h)%nat -> block_size (h ++ [x]) b = block_size h b.
Proof.
  intros Hb. unfold block_size, heap, block in *. now rewrite lookup_app_l.
Qed.

Lemma load_app (h : heap) (x : option (list byte)) (b : block) (o n : Z) :
  (b < length h)%nat -> load (h ++ [x]) (Ptr b o) n = load h (Ptr b o) n.
Proof.
  intros Hb. unfold load, heap, block in *. now rewrite lookup_app_l.
Qed.

Lemma load_release (h : heap) (p b : block) (o n : Z) :
  b <> p -> load (<[p := None]> h) (Ptr b o) n = load h (Ptr b o) n.
Proof.
  intros Hne. unfold load, heap, block in *.
  now rewrite list_lookup_insert_ne by congruence.
Qed.

Lemma load_known (h : heap) (b : block) (bytes : list byte) (o n : Z) :
  h !! b = Some (Some bytes) ->
  load h (Ptr b o) n
  = if (0 <=? o) && (0 <=? n) && (o + n <=? Z.of_nat (length bytes))
    then Some (take (Z.to_nat n) (drop (Z.to_nat o) bytes))
    else None.
Proof. intros Hb. unfold load. now rewrite Hb. Qed.

Lemma store_known (h : heap) (b : block) (bytes bs : list byte) (o : Z) :
  h !! b = Some (Some bytes) ->
  store h (Ptr b o) bs
  = if (0 <=? o) && (o + Z.of_nat (length bs) <=? Z.of_nat (length bytes))
    then Some (<[b := Some (take (Z.to_nat o) bytes ++ bs
                            ++ drop (Z.to_nat o + length bs) bytes)]> h)
    else None.
Proof. intros Hb. unfold store. now rewrite Hb. Qed.

Lemma Z_of_byte_range (b : byte) : 0 <= Z_of_byte b <= 255.
Proof.
  unfold Z_of_byte. pose proof (Byte.to_N_bounded b). lia.
Qed.

Section Characters.
Context {R : Type} `{RemoteSession R}.

(** The local int of isioFilePutc and isioFileGetc: it lives in a block
    of its own while [body] runs and is read and released after it. *)
Lemma with_local_int_runs {A} (init : Z) (body : pointer -> M R A) (w w1 : world R)
  (a : A) (bs : list byte) :
  let p := length (mem w) in
  body (Ptr p 0) (set_mem (mem w ++ [Some (int_bytes init)]) w) = Ok a w1 ->
  load (mem w1) (Ptr p 0) 4 = Some bs ->
  with_local_int init body w
  = Ok (a, int_of_bytes bs) (set_mem (<[p := None]> (mem w1)) w1).
Proof.
  intros p Hbody Hload. unfold with_local_int, bind, ret. simpl.
  fold p. rewrite Hbody. unfold load_bytes. rewrite Hload.
  revert Hload. unfold free, load, heap, block.
  match goal with
  | |- context [match ?x with Some _ => _ | None => _ end] =>
      destruct x as [[bytes|]|]
  end; intros E; [reflexivity | discriminate E..].
Qed.

(** X21.  isioFilePutc when there is room in the buffer: the low byte of the
    character is placed at the cursor, which moves on by one, without a
    call to the server -- and the result is 1, the count isioFileWrite
    returned, not the character written. *)
Theorem isioFilePutc_within_buffer (inchar : Z) (ifp : ISIO_FILE) (w : world R) :
  handle_ok ifp -> buffer_in (mem w) ifp ->
  1 <= bufferSize ifp - cursor ifp ->
  exists (f' : ISIO_FILE) (w' : world R),
    isioFilePutc inchar ifp w = Ok (1, f') w'
    /\ load (mem w') (ptr ifp) 1 = Some [byte_of_Z inchar]
    /\ calls w' = calls w
    /\ handle_ok f'
    /\ cursor f' = cursor ifp + 1 /\ count f' = Z.max (count ifp - 1) 0
    /\ dirty f' = 1.
Proof.
  intros Hok Hin Hroom.
  pose proof Hok as (Hbase & Hptr & (Hc & Hs) & Hcount & Hb).
  unfold buffer_in in Hin.
  destruct (base ifp) as [|cb bo] eqn:Ebase; [contradiction|].
  destruct (ptr ifp) as [|pb po] eqn:Eptr; [contradiction|].
  destruct Hin as (-> & Hbo & Hfit).
  assert (Hcur : cursor ifp = po - bo)
    by (unfold cursor, ptr_diff; rewrite Ebase, Eptr; reflexivity).
  assert (Hcb : (cb < length (mem w))%nat) by (apply block_size_allocated; lia).
  set (p := length (mem w)).
  set (h0 := mem w ++ [Some (int_bytes inchar)]).
  assert (Hp : h0 !! p = Some (Some (int_bytes inchar)))
    by (unfold h0, p, heap, block; now apply list_lookup_middle).
  assert (Hsrc : load h0 (Ptr p 0) 1 = Some [byte_of_Z inchar])
    by (rewrite (load_known h0 p (int_bytes inchar)) by exact Hp; reflexivity).
  destruct (store_defined h0 cb po [byte_of_Z inchar])
    as (h1 & Hstore & Hsize & Hsame & Hother);
    [lia | unfold h0; rewrite block_size_app by exact Hcb; simpl; lia |].
  simpl in Hsame.
  set (f1 := mkISIO_FILE (base_offset ifp) (base ifp) (bufferSize ifp)
                         (ptr_add (ptr ifp) 1) (Z.max (count ifp - 1) 0) 1
                         (l1descInx ifp)).
  assert (Hwrite : isioFileWrite ifp (Ptr p 0) 1 (set_mem h0 w)
                   = Ok (1, f1) (set_mem h1 (set_mem h0 w))).
  { apply (isioFileWrite_fits ifp (Ptr p 0) 1 (set_mem h0 w) [byte_of_Z inchar] h1);
      trivial; [lia | now rewrite Eptr]. }
  assert (Hlocal : load h1 (Ptr p 0) 4 = Some (int_bytes inchar)).
  { rewrite Hother by lia.
    rewrite (load_known h0 p (int_bytes inchar)) by exact Hp. reflexivity. }
  exists f1, (set_mem (<[p := None]> h1) (set_mem h1 (set_mem h0 w))).
  split.
  - unfold isioFilePutc.
    rewrite (bind_eq _ _ _ _ _
               (with_local_int_runs inchar (fun q => isioFileWrite ifp q 1) w _ _ _
                                    Hwrite Hlocal)).
    reflexivity.
  - split.
    { change (load (<[p := None]> h1) (Ptr cb po) 1 = Some [byte_of_Z inchar]).
      rewrite load_release by (unfold p; lia). exact Hsame. }
    split; [reflexivity|].
    unfold handle_ok, bounds_invariant, cursor, ptr_diff, int_range in *.
    simpl. rewrite Ebase, Eptr in *. simpl in *.
    repeat split; trivial; lia.
Qed.

(** X22.  isioFileGetc from the cache: on a clean handle with an unread byte,
    isioFileGetc returns that byte as a number from 0 to 255 (never EOF
    or an error status) without a call to the server, and the cursor
    moves on by one. *)
Theorem isioFileGetc_from_cache (ifp : ISIO_FILE) (w : world R) (b : byte) :
  handle_ok ifp -> buffer_in (mem w) ifp -> dirty ifp = 0 ->
  1 <= count ifp ->
  load (mem w) (ptr ifp) 1 = Some [b] ->
  exists (f' : ISIO_FILE) (w' : world R),
    isioFileGetc ifp w = Ok (Z_of_byte b, f') w'
    /\ 0 <= Z_of_byte b <= 255
    /\ calls w' = calls w
    /\ handle_ok f'
    /\ cursor f' = cursor ifp + 1 /\ count f' = count ifp - 1.
Proof.
  intros Hok Hin Hclean Hunread Hbyte.
  pose proof Hok as (Hbase & Hptr & (Hc & Hs) & Hcount & Hb).
  unfold buffer_in in Hin.
  destruct (base ifp) as [|cb bo] eqn:Ebase; [contradiction|].
  destruct (ptr ifp) as [|pb po] eqn:Eptr; [contradiction|].
  destruct Hin as (-> & Hbo & Hfit).
  assert (Hcb : (cb < length (mem w))%nat)
    by (apply block_size_allocated; unfold int_range in *; lia).
  set (p := length (mem w)).
  set (h0 := mem w ++ [Some (int_bytes 0)]).
  assert (Hp : h0 !! p = Some (Some [x00; x00; x00; x00]))
    by (unfold h0, p, heap, block; now apply list_lookup_middle).
  set (h1 := <[p := Some [b; x00; x00; x00]]> h0).
  assert (Hstore : store h0 (Ptr p 0) [b] = Some h1)
    by (rewrite (store_known h0 p [x00; x00; x00; x00]) by exact Hp; reflexivity).
  assert (Hlt : (p < length h0)%nat)
    by (unfold h0, p; rewrite length_app; simpl; lia).
  assert (Hlocal : load h1 (Ptr p 0) 4 = Some [b; x00; x00; x00]).
  { rewrite (load_known h1 p [b; x00; x00; x00]); [reflexivity|].
    unfold h1, heap, block. apply list_lookup_insert_eq. exact Hlt. }
  set (f1 := set_count (count ifp - 1) (set_ptr (ptr_add (ptr ifp) 1) ifp)).
  assert (Hread : isioFileRead ifp (Ptr p 0) 1 (set_mem h0 w)
                  = Ok (1, f1) (set_mem h1 (set_mem h0 w))).
  { apply (isioFileRead_hit ifp ifp (Ptr p 0) 1 0 (set_mem h0 w) (set_mem h0 w) [b] h1);
      trivial; try lia.
    - now apply isioFlush_clean.
    - unfold int_range in *. lia.
    - simpl. rewrite Eptr. unfold h0. rewrite load_app by exact Hcb.
      exact Hbyte. }
  pose proof (Z_of_byte_range b) as Hrange.
  exists f1, (set_mem (<[p := None]> h1) (set_mem h1 (set_mem h0 w))).
  split.
  - unfold isioFileGetc.
    rewrite (bind_eq _ _ _ _ _
               (with_local_int_runs 0 (fun q => isioFileRead ifp q 1) w _ _ _
                                    Hread Hlocal)).
    simpl. unfold ret. do 2 f_equal.
    change (Z_of_byte x00) with 0.
    rewrite !Z.mul_0_r, !Z.add_0_r. apply to_int_id. unfold int_range. lia.
  - split; [exact Hrange|]. split; [reflexivity|].
    unfold handle_ok, bounds_invariant, cursor, ptr_diff, int_range in *.
    simpl. rewrite Ebase, Eptr in *. simpl in *.
    repeat split; trivial; lia.
Qed.

End Characters.

(** ** The large requests and the failed allocations, for every handle *)

Section PastCache.
Context {R : Type} `{RemoteSession R}.

(** X16.  A read that goes past the cache.  When what the unread bytes do not
    cover needs a buffer larger than ISIO_MAX_BUF_SIZE, isioFileRead
    reads into the caller's buffer.  If it returns a count, the handle
    has its own buffer and capacity back and the cache is empty.  If it
    returns an error, either the flush failed and the handle is as it
    was, or the read from the server failed and the handle is left with
    base pointing into the caller's buffer and bufferSize the size of
    the request. *)
Theorem isioFileRead_past_cache
  (ifp : ISIO_FILE) (buffer : pointer) (maxToRead : Z) (w : world R) :
  handle_ok ifp -> is_null buffer = false ->
  let rest := maxToRead - count ifp in
  0 < rest -> bufferSize ifp < 2 * rest + 8 -> ISIO_MAX_BUF_SIZE < 2 * rest + 8 ->
  2 * rest + 8 < 2 ^ 31 -> 0 < maxToRead <= INT_MAX ->
  post (isioFileRead ifp buffer maxToRead) w
    (fun '(st, f') _ =>
       (0 <= st ->
        base f' = base ifp /\ bufferSize f' = bufferSize ifp
        /\ cursor f' = 0 /\ count f' = 0)
       /\ (st < 0 ->
           f' = ifp
           \/ (base f' = (if 0 <? count ifp then ptr_add buffer (count ifp) else buffer)
               /\ bufferSize f' = rest))).
Proof. exact (isioFileRead_bypass ifp buffer maxToRead w). Qed.

(** X17.  A write that goes past the cache.  When what does not fit in the
    buffer is larger than ISIO_MAX_BUF_SIZE, isioFileWrite flushes the
    full buffer and sends the rest in a second write.  It makes two
    calls to the server, or one if the flush fails.  When it does not
    return an error, what it returns is the server's answer to the
    second write -- not the number of bytes written in all --, the cache
    is empty, and base_offset has moved on by bufferSize plus the size
    of the rest. *)
Theorem isioFileWrite_past_cache
  (ifp : ISIO_FILE) (buffer : pointer) (countToWrite : Z) (w : world R) :
  handle_ok ifp -> 0 <= countToWrite <= INT_MAX ->
  let rest := countToWrite - (bufferSize ifp - cursor ifp) in
  ISIO_MAX_BUF_SIZE < rest ->
  post (isioFileWrite ifp buffer countToWrite) w
    (fun '(st, f') w' =>
       (ncalls w' - ncalls w = 2 \/ (ncalls w' - ncalls w = 1 /\ st < 0))
       /\ (0 <= st ->
           (exists (r : R) (data : list byte),
               Z.of_nat (length data) = rest
               /\ rcDataObjWrite (l1descInx ifp) data r = (st, remote w'))
           /\ base_offset f'
              = to_long (base_offset ifp + to_int (bufferSize ifp + rest))
           /\ cursor f' = 0 /\ count f' = 0)).
Proof.
  intros Hok Hn rest Hrest.
  pose proof Hok as (_ & _ & Hinv & _ & Hb).
  eapply post_mono;
    [exact (post_and _ _ _ _
              (isioFileWrite_calls ifp buffer countToWrite w Hinv Hb Hn)
              (isioFileWrite_bypass ifp buffer countToWrite w Hok Hn Hrest))|].
  intros [st f'] w' ((_ & _ & Hcalls) & Hst). split; [|exact Hst].
  subst rest. destruct Hinv as (Hc & _).
  unfold ISIO_MAX_BUF_SIZE in *.
  destruct Hcalls as [(? & ?)|?]; [lia | lia | auto | auto].
Qed.

(** X23.  irodsexit disconnects if the session was set up, and does nothing
    else: no handle is flushed or closed, so what was written to a
    handle and not flushed never reaches the server. *)
Theorem irodsexit_does_not_flush (exitValue : Z) (w : world R) :
  exists w' : world R,
    irodsexit exitValue w = Ok exitValue w'
    /\ calls w' = calls w ++ (if 0 <? setupFlag w then [CallDisconnect] else [])
    /\ mem w' = mem w /\ _cacheInfo w' = _cacheInfo w.
Proof.
  unfold irodsexit, bind, ret, remote_call.
  destruct (0 <? setupFlag w).
  - destruct (rcDisconnect (remote w)) as [st r]. eexists. split; [reflexivity|].
    simpl. auto.
  - exists w. rewrite app_nil_r. auto.
Qed.

End PastCache.

(** ** A read that refills the cache *)

Lemma bind_ret {R A B} (a : A) (k : A -> M R B) (w : world R) :
  bind (ret a) k w = k a w.
Proof. reflexivity. Qed.

(** Reduction of the field accesses and updates of a handle. *)
Ltac fields_once :=
  cbv beta iota zeta delta
    [count base bufferSize ptr dirty l1descInx base_offset
     set_ptr set_count set_base set_bufferSize set_base_offset set_dirty
     is_null ptr_add].

Ltac fields :=
  fields_once; repeat (progress change (0 <? 0) with false; fields_once).

Section Refill.
Context {R : Type} `{RemoteSession R}.

(** isioFillBuffer when the server answers the position query with
    [p] and the read of bufferSize bytes with [data]. *)
Lemma isioFillBuffer_filled (ifp : ISIO_FILE) (w : world R) (cb : block) (bo : Z)
  (s0 p st : Z) (data : list byte) (r1 r2 : R) (h : heap) :
  base ifp = Ptr cb bo -> 0 < bufferSize ifp ->
  rcDataObjLseek (l1descInx ifp) 0 SEEK_CUR (remote w) = ((s0, Some p), r1) ->
  rcDataObjRead (l1descInx ifp) (bufferSize ifp) r1 = ((st, data), r2) ->
  0 <= st -> store (mem w) (Ptr cb bo) data = Some h ->
  isioFillBuffer ifp w
  = Ok (0, set_count st (set_ptr (Ptr cb bo) (set_base_offset (to_int p) ifp)))
       (set_mem h
          (after_call (after_call w r1 (CallLseek (l1descInx ifp) 0 SEEK_CUR))
                      r2 (CallRead (l1descInx ifp) (bufferSize ifp)))).
Proof.
  intros Hbase Hsize Htell Hread Hst Hstore.
  set (wa := after_call w r1 (CallLseek (l1descInx ifp) 0 SEEK_CUR)).
  assert (Hpos : isioFileTell ifp w = Ok (to_int p) wa).
  { unfold isioFileTell, do_rcDataObjLseek, remote_call, bind, ret.
    now rewrite Htell. }
  assert (E1 : (bufferSize ifp <=? 0) = false) by (apply Z.leb_gt; lia).
  assert (E2 : (st <? 0) = false) by (apply Z.ltb_ge; lia).
  assert (Hget : do_rcDataObjRead (l1descInx ifp) (Ptr cb bo) (bufferSize ifp) wa
                 = Ok st (set_mem h (after_call wa r2
                                       (CallRead (l1descInx ifp) (bufferSize ifp))))).
  { unfold do_rcDataObjRead, remote_call, bind, store_bytes, ret.
    change (remote wa) with r1. rewrite Hread, E2. cbn [mem].
    change (mem wa) with (mem w). now rewrite Hstore. }
  unfold isioFillBuffer. rewrite Hbase, E1.
  change (is_null (Ptr cb bo)) with false. cbv iota.
  rewrite (bind_eq _ _ _ _ _ Hpos). cbv zeta.
  change (l1descInx (set_base_offset (to_int p) ifp)) with (l1descInx ifp).
  change (bufferSize (set_base_offset (to_int p) ifp)) with (bufferSize ifp).
  change (base (set_base_offset (to_int p) ifp)) with (base ifp).
  rewrite Hbase.
  rewrite (bind_eq _ _ _ _ _ Hget). rewrite E2. reflexivity.
Qed.

(** X12.  A read on a clean handle with nothing unread, for a request the
    buffer is large enough for ([2 * n + 8 <= bufferSize]).  The server
    is asked for its position and then for bufferSize bytes.  If it
    sends [st] bytes, isioFileRead returns the smaller of [n] and [st],
    the caller's buffer holds that many bytes from the start of what the
    server sent, and the rest stays in the cache as unread bytes;
    base_offset is the position the server reported before the read.
    At the end of the object ([st = 0]) the result is 0. *)
Theorem isioFileRead_refill
  (ifp : ISIO_FILE) (dst : pointer) (n : Z) (w : world R)
  (s0 p st : Z) (data : list byte) (r1 r2 : R) :
  handle_ok ifp -> buffer_in (mem w) ifp ->
  dirty ifp = 0 -> count ifp = 0 ->
  0 < n -> 2 * n + 8 <= bufferSize ifp ->
  room_at (mem w) dst n (ptr_block (ptr ifp)) ->
  rcDataObjLseek (l1descInx ifp) 0 SEEK_CUR (remote w) = ((s0, Some p), r1) ->
  rcDataObjRead (l1descInx ifp) (bufferSize ifp) r1 = ((st, data), r2) ->
  Z.of_nat (length data) = st -> st <= bufferSize ifp ->
  exists (f' : ISIO_FILE) (w' : world R),
    isioFileRead ifp dst n w = Ok (Z.min n st, f') w'
    /\ load (mem w') dst (Z.min n st) = Some (take (Z.to_nat (Z.min n st)) data)
    /\ calls w' = calls w ++ [CallLseek (l1descInx ifp) 0 SEEK_CUR;
                              CallRead (l1descInx ifp) (bufferSize ifp)]
    /\ handle_ok f'
    /\ base_offset f' = to_int p
    /\ cursor f' = Z.min n st /\ count f' = st - Z.min n st.
Proof.
  intros Hok Hin Hclean Hempty Hn Hbig Hroom Htell Hread Hlen Hfits.
  destruct ifp as [bo [|cb bofs] size [|pb pofs] c d l];
    try (destruct Hok as (Hbase & Hptr & _); discriminate);
    try contradiction.
  destruct Hin as (-> & Hbofs & Hfit).
  destruct Hok as (_ & _ & (Hc & Hs) & Hcount & Hb).
  unfold cursor, ptr_diff, int_range in *. simpl in *. subst c d.
  destruct dst as [|db dofs]; [contradiction|].
  destruct Hroom as (Hne & Hdofs & Hdfit).
  assert (Hst : 0 <= st) by lia.
  (* the refill *)
  destruct (store_defined (mem w) cb bofs data) as (h1 & Hstore & Hsize & _ & Hother);
    [lia | lia |].
  set (f0 := mkISIO_FILE bo (Ptr cb bofs) size (Ptr cb bofs) 0 0 l).
  set (w1 := set_mem h1
               (after_call (after_call w r1 (CallLseek l 0 SEEK_CUR))
                           r2 (CallRead l size))).
  set (f1 := mkISIO_FILE (to_int p) (Ptr cb bofs) size (Ptr cb bofs) st 0 l).
  assert (Hfill : isioFillBuffer f0 w = Ok (0, f1) w1).
  { apply (isioFillBuffer_filled f0 w cb bofs s0 p st data r1 r2 h1); trivial.
    simpl. lia. }
  (* the copy to the caller *)
  set (k := Z.min n st).
  assert (Hprefix : load h1 (Ptr cb bofs) k = Some (take (Z.to_nat k) data))
    by (apply (load_store_prefix (mem w)); [exact Hstore | lia]).
  assert (Hklen : Z.of_nat (length (take (Z.to_nat k) data)) = k)
    by (rewrite length_take; lia).
  destruct (store_defined h1 db dofs (take (Z.to_nat k) data))
    as (h2 & Hstore2 & _ & Hsame2 & _); [lia | rewrite Hsize; lia |].
  rewrite Hklen in Hsame2.
  assert (Hint : to_int n = n) by (apply to_int_id; unfold int_range; lia).
  assert (Hnew : to_int (2 * n + 8) = 2 * n + 8)
    by (apply to_int_id; unfold int_range; lia).
  assert (Hrun : isioFileRead (mkISIO_FILE bo (Ptr cb bofs) size (Ptr cb pofs) 0 0 l)
                              (Ptr db dofs) n w
                 = if 0 <? k
                   then Ok (k, mkISIO_FILE (to_int p) (Ptr cb bofs) size
                                           (Ptr cb (bofs + k)) (st - k) 0 l)
                           (set_mem h2 w1)
                   else Ok (k, f1) w1).
  { unfold isioFileRead.
    assert (E0 : (n =? 0) = false) by (apply Z.eqb_neq; lia).
    assert (E1 : (size <? 2 * n + 8) = false) by (apply Z.ltb_ge; lia).
    rewrite E0. cbv iota.
    rewrite (bind_eq _ _ _ _ _
               (isioFlush_clean (mkISIO_FILE bo (Ptr cb bofs) size (Ptr cb pofs) 0 0 l)
                                w eq_refl)).
    fields. rewrite bind_ret, Hint. fields. rewrite Hnew, E1. fields.
    rewrite bind_ret. fields. fold f0.
    rewrite (bind_eq _ _ _ _ _ Hfill). unfold f1. fields.
    replace (if st <? n then st else n) with k
      by (unfold k; destruct (st <? n) eqn:E; bool_to_prop; lia).
    rewrite (Z.add_0_l k), (to_int_id k) by (unfold int_range; lia).
    destruct (0 <? k) eqn:Ek; [|reflexivity].
    bool_to_prop.
    rewrite (to_size_t_id k) by (unfold size_t_range; lia).
    unfold bind, memcpy, ret. change (mem w1) with h1.
    rewrite Hprefix, Hstore2.
    rewrite (to_int_id (st - k)) by (unfold int_range; lia).
    reflexivity. }
  destruct (0 <? k) eqn:Ek; bool_to_prop.
  - eexists _, _. split; [exact Hrun|].
    split; [exact Hsame2|]. split; [simpl; now rewrite <- app_assoc|].
    unfold handle_ok, bounds_invariant, cursor, ptr_diff, int_range. simpl.
    repeat split; trivial; lia.
  - eexists _, _. split; [exact Hrun|].
    assert (Hk0 : k = 0) by lia.
    split.
    { destruct (load_defined h1 db dofs k) as (d0 & Hd0);
        [lia | lia | rewrite Hsize; lia |].
      change (load h1 (Ptr db dofs) k = Some (take (Z.to_nat k) data)).
      rewrite Hd0. f_equal.
      pose proof (load_length _ _ _ _ Hd0) as Hd0len.
      rewrite Hk0 in *. destruct d0; [reflexivity | simpl in Hd0len; lia]. }
    split; [simpl; now rewrite <- app_assoc|].
    unfold handle_ok, bounds_invariant, cursor, ptr_diff, int_range. simpl.
    repeat split; trivial; lia.
Qed.

End Refill.

(** ** The position after a write that overflows the buffer *)

Section Overflow.
Context {R : Type} `{RemoteSession R}.

(** X15.  A write that does not fit in the buffer but stays in the cache.
    When more is written than fits between the cursor and the end of the
    buffer, and the rest is not larger than ISIO_MAX_BUF_SIZE, the full
    buffer is flushed and the rest is placed at the start of the buffer.
    base_offset is left as it was: after the write the position
    [base_offset + cursor] is bufferSize short of where the write
    ended. *)
Theorem isioFileWrite_overflow_position
  (ifp : ISIO_FILE) (buffer : pointer) (countToWrite : Z) (w : world R) :
  handle_ok ifp -> 0 <= countToWrite <= INT_MAX ->
  let rest := countToWrite - (bufferSize ifp - cursor ifp) in
  0 < rest <= ISIO_MAX_BUF_SIZE ->
  post (isioFileWrite ifp buffer countToWrite) w
    (fun '(st, f') _ =>
       0 < st ->
       st = countToWrite
       /\ base_offset f' = base_offset ifp /\ cursor f' = rest
       /\ base_offset f' + cursor f'
          = base_offset ifp + cursor ifp + countToWrite - bufferSize ifp).
Proof.
  intros (Hbase & Hptr & Hinv & Hcount & Hb) Hn rest Hrest.
  destruct (write_sizes ifp countToWrite Hinv Hb Hn) as (E1 & E2 & E3 & E4 & E5).
  unfold isioFileWrite. cbv zeta. simpl bufferSize. simpl ptr. simpl base.
  rewrite E1, E2, E3, E4, E5. clear E1 E2 E3 E4 E5.
  subst rest.
  unfold handle_ok, bounds_invariant, int_range, INT_MAX, ISIO_MAX_BUF_SIZE in *.
  destruct ifp as [bo [|bb bofs] bs [|pb pofs] c d l]; try discriminate.
  unfold cursor, ptr_diff in *. simpl in *.
  post_auto; cbv zeta; bool_to_prop; flushed_cases; subst.
  all: ptr_cases.
  all: repeat rewrite to_int_id in * by (unfold int_range; lia).
  all: repeat (match goal with
               | |- context [if ?c then _ else _] => destruct c eqn:?
               | Hif : context [if ?c then _ else _] |- _ => destruct c eqn:?
               end; simpl in *).
  all: bool_to_prop.
  all: intros; repeat split; trivial; try lia.
Qed.

End Overflow.

(** * Properties of bam_decode.c *)

Section Barcodes.
Import BamDecode.

Lemma noCalls_from_bounds (s : string) (n : Z) :
  0 <= n -> n + Z.of_nat (String.length s) <= INT_MAX ->
  n <= noCalls_from s n <= n + Z.of_nat (String.length s).
Proof.
  unfold INT_MAX. revert n. induction s as [|c s IH]; intros n Hn Hlen; simpl in *.
  - lia.
  - destruct (isNoCall c).
    + rewrite to_int_id by (unfold int_range; lia).
      specialize (IH (n + 1)). lia.
    + specialize (IH n). lia.
Qed.

(** Mismatches and noCalls of the tag together, position by position. *)
Lemma countMismatches_from_bounds (t bs : string) (n k : Z) :
  (String.length t <= String.length bs)%nat ->
  0 <= n -> 0 <= k ->
  n + Z.of_nat (String.length t) <= INT_MAX ->
  k + Z.of_nat (String.length t) <= INT_MAX ->
  exists m, countMismatches_from t (Some bs) n = Some m
            /\ n <= m
            /\ (m - n) + (noCalls_from t k - k) <= Z.of_nat (String.length t).
Proof.
  unfold INT_MAX. revert bs n k.
  induction t as [|tc t IH]; intros bs n k Hlen Hn Hk Hmax Hkmax; simpl in *.
  - exists n. split; [reflexivity|]. lia.
  - destruct bs as [|bc bs]; simpl in Hlen; [lia|].
    destruct (isNoCall tc).
    + rewrite to_int_id by (unfold int_range; lia).
      destruct (IH bs n (k + 1)) as (m & Hrun & Hlow & Hsum); try lia.
      exists m. split; [exact Hrun|]. lia.
    + destruct (isNoCall bc); [|destruct (Ascii.eqb tc bc)].
      * destruct (IH bs n k) as (m & Hrun & Hlow & Hsum); try lia.
        exists m. split; [exact Hrun|]. lia.
      * destruct (IH bs n k) as (m & Hrun & Hlow & Hsum); try lia.
        exists m. split; [exact Hrun|]. lia.
      * rewrite to_int_id by (unfold int_range; lia).
        destruct (IH bs (n + 1) k) as (m & Hrun & Hlow & Hsum); try lia.
        exists m. split; [exact Hrun|]. lia.
Qed.

Lemma countMismatches_from_grows (t : string) (b : option string) (n m : Z) :
  countMismatches_from t b n = Some m ->
  0 <= n -> n + Z.of_nat (String.length t) <= INT_MAX -> n <= m.
Proof.
  unfold INT_MAX. revert b n.
  induction t as [|tc t IH]; intros b n Hrun Hn Hmax; simpl in *.
  - injection Hrun as <-. lia.
  - destruct (isNoCall tc).
    + apply IH in Hrun; lia.
    + destruct b as [bs|]; [|discriminate].
      destruct (isNoCall _); [|destruct (Ascii.eqb tc _)].
      * apply IH in Hrun; lia.
      * apply IH in Hrun; lia.
      * rewrite to_int_id in Hrun by (unfold int_range; lia).
        apply IH in Hrun; lia.
Qed.

Lemma countMismatches_from_same (t : string) (n : Z) :
  countMismatches_from t (Some t) n = Some n.
Proof.
  revert n. induction t as [|c t IH]; intros n; simpl; [reflexivity|].
  destruct (isNoCall c); [apply IH|]. rewrite Ascii.eqb_refl. apply IH.
Qed.

Lemma countMismatches_from_longer (t bs extra : string) (n : Z) :
  (String.length t <= String.length bs)%nat ->
  countMismatches_from t (Some (String.append bs extra)) n
  = countMismatches_from t (Some bs) n.
Proof.
  revert bs n. induction t as [|tc t IH]; intros bs n Hlen; simpl in *;
    [reflexivity|].
  destruct bs as [|bc bs]; simpl in Hlen; [lia|]. simpl.
  destruct (isNoCall tc); [apply IH; lia|].
  apply IH. lia.
Qed.

Lemma countMismatches_from_past_end (t : string) (n : Z) :
  t <> EmptyString ->
  (forall i c, String.get i t = Some c -> isNoCall c = false) ->
  countMismatches_from t None n = None.
Proof.
  destruct t as [|c t]; [congruence|]. intros _ Hcalls. simpl.
  now rewrite (Hcalls 0%nat c eq_refl).
Qed.

(** X24.  countMismatches.  When the tag is not longer than the barcode read,
    countMismatches returns a count that is not negative and, together
    with the number of noCalls in the tag, not more than the length of
    the tag: a position where the tag has a noCall never counts.  A
    sequence has no mismatch with itself.  What the barcode read has
    past the length of the tag is not looked at. *)
Theorem countMismatches_bounds (tag barcode : string) :
  (String.length tag <= String.length barcode)%nat ->
  Z.of_nat (String.length tag) <= INT_MAX ->
  (exists m, countMismatches tag barcode = Some m
             /\ 0 <= m
             /\ m + noCalls tag <= Z.of_nat (String.length tag))
  /\ countMismatches tag tag = Some 0
  /\ (forall extra,
        countMismatches tag (String.append barcode extra)
        = countMismatches tag barcode).
Proof.
  intros Hlen Hmax. split; [|split].
  - destruct (countMismatches_from_bounds tag barcode 0 0) as (m & Hrun & Hlow & Hsum);
      try lia.
    exists m. unfold countMismatches, noCalls. split; [exact Hrun|]. lia.
  - apply countMismatches_from_same.
  - intros extra. now apply countMismatches_from_longer.
Qed.

(** X25.  A barcode read that is too short.  When the tag has no noCall and is
    at least two characters longer than the barcode read, countMismatches
    reads past the terminator of the barcode read. *)
Theorem countMismatches_reads_past_short_barcode (tag barcode : string) :
  (String.length barcode + 2 <= String.length tag)%nat ->
  (forall i c, String.get i tag = Some c -> isNoCall c = false) ->
  countMismatches tag barcode = None.
Proof.
  unfold countMismatches. generalize 0 as n.
  revert barcode. induction tag as [|tc tag IH]; intros barcode n Hlen Hcalls;
    simpl in *; [lia|].
  rewrite (Hcalls 0%nat tc eq_refl).
  assert (Hrest : forall i c, String.get i tag = Some c -> isNoCall c = false)
    by (intros i c Hi; apply (Hcalls (S i) c); exact Hi).
  destruct barcode as [|bc barcode]; simpl in *.
  - apply countMismatches_from_past_end; [|exact Hrest].
    destruct tag; simpl in Hlen; [lia | discriminate].
  - apply IH; [lia | exact Hrest].
Qed.

End Barcodes.

Section BestMatch.
Import BamDecode.

(** What the loop of findBestMatch keeps: [seen] are the entries visited
    so far, with their mismatch counts. *)
Lemma findBestMatch_loop_invariant
  (entries seen : list bc_details_t) (barcode : string) (bcLen : Z)
  (best : option string) (nmBest nm2Best : Z)
  (best' : option string) (nmBest' nm2Best' : Z) :
  findBestMatch_loop entries barcode best nmBest nm2Best
  = Some (best', nmBest', nm2Best') ->
  (* the invariant before *)
  nm2Best <= bcLen -> nmBest <= nm2Best ->
  match best with
  | None =>
      nmBest = bcLen
      /\ forall j bcd m, seen !! j = Some bcd ->
                         countMismatches (seq bcd) barcode = Some m -> nm2Best <= m
  | Some s =>
      exists i bcd,
        seen !! i = Some bcd /\ seq bcd = s
        /\ countMismatches s barcode = Some nmBest /\ nmBest < bcLen
        /\ forall j bcd' m, j <> i -> seen !! j = Some bcd' ->
                            countMismatches (seq bcd') barcode = Some m -> nm2Best <= m
  end ->
  (* the invariant after *)
  nm2Best' <= bcLen /\ nmBest' <= nm2Best'
  /\ match best' with
     | None => nmBest' = bcLen
     | Some s =>
         exists i bcd,
           (seen ++ entries) !! i = Some bcd /\ seq bcd = s
           /\ countMismatches s barcode = Some nmBest' /\ nmBest' < bcLen
           /\ forall j bcd' m, j <> i -> (seen ++ entries) !! j = Some bcd' ->
                               countMismatches (seq bcd') barcode = Some m ->
                               nm2Best' <= m
     end.
Proof.
  revert seen best nmBest nm2Best.
  induction entries as [|bcd rest IH]; intros seen best nmBest nm2Best Hrun H2 H1 Hinv.
  - simpl in Hrun. injection Hrun as <- <- <-. rewrite app_nil_r.
    split; [exact H2|]. split; [exact H1|].
    destruct best as [s|]; [exact Hinv | apply Hinv].
  - simpl in Hrun.
    destruct (countMismatches (seq bcd) barcode) as [nM|] eqn:Hcount; [|discriminate].
    replace (seen ++ bcd :: rest) with ((seen ++ [bcd]) ++ rest)
      by (rewrite <- app_assoc; reflexivity).
    assert (Hnew : (seen ++ [bcd]) !! length seen = Some bcd)
      by (apply list_lookup_middle; reflexivity).
    assert (Hold : forall j x, (seen ++ [bcd]) !! j = Some x -> j <> length seen ->
                               seen !! j = Some x).
    { intros j x Hj Hne. apply lookup_app_Some in Hj as [Hj|[Hge Hj]]; [exact Hj|].
      apply list_lookup_singleton_Some in Hj as [Hj _]. lia. }
    destruct (nM <? nmBest) eqn:Hlt; bool_to_prop.
    + (* a new best match *)
      apply (IH (seen ++ [bcd])) in Hrun; [exact Hrun | | |].
      * destruct best; lia.
      * destruct best; lia.
      * exists (length seen), bcd.
        split; [exact Hnew|]. split; [reflexivity|]. split; [exact Hcount|].
        split; [destruct best as [s|]; [destruct Hinv as (? & ? & _ & _ & _ & ? & _)|
                                        destruct Hinv as (? & _)]; lia|].
        intros j bcd' m Hne Hj Hm.
        pose proof (Hold j bcd' Hj Hne) as Hseen.
        destruct best as [s|].
        -- destruct Hinv as (i & bcd0 & Hi & Hs & Hbest & _ & Hothers).
           destruct (decide (j = i)) as [->|Hji].
           ++ assert (bcd' = bcd0) by congruence. subst bcd'.
              rewrite Hs in Hm. assert (m = nmBest) by congruence. lia.
           ++ specialize (Hothers j bcd' m Hji Hseen Hm). lia.
        -- destruct Hinv as (_ & Hothers). apply (Hothers j bcd' m Hseen Hm).
    + (* not better than the best *)
      apply (IH (seen ++ [bcd])) in Hrun; [exact Hrun | | |].
      * destruct (nM <? nm2Best) eqn:E; bool_to_prop; lia.
      * destruct (nM <? nm2Best) eqn:E; bool_to_prop; lia.
      * assert (Hmin : (if nM <? nm2Best then nM else nm2Best) <= nM
                       /\ (if nM <? nm2Best then nM else nm2Best) <= nm2Best)
          by (destruct (nM <? nm2Best) eqn:E; bool_to_prop; lia).
        destruct best as [s|].
        -- destruct Hinv as (i & bcd0 & Hi & Hs & Hbest & Hlen & Hothers).
           exists i, bcd0.
           split; [apply lookup_app_l_Some; exact Hi|].
           split; [exact Hs|]. split; [exact Hbest|]. split; [exact Hlen|].
           intros j bcd' m Hne Hj Hm.
           destruct (decide (j = length seen)) as [->|Hjn].
           ++ assert (bcd' = bcd) by congruence. subst bcd'.
              assert (m = nM) by congruence. lia.
           ++ specialize (Hothers j bcd' m Hne (Hold j bcd' Hj Hjn) Hm). lia.
        -- destruct Hinv as (Hbc & Hothers). split; [exact Hbc|].
           intros j bcd' m Hj Hm.
           destruct (decide (j = length seen)) as [->|Hjn].
           ++ assert (bcd' = bcd) by congruence. subst bcd'.
              assert (m = nM) by congruence. lia.
           ++ specialize (Hothers j bcd' m (Hold j bcd' Hj Hjn) Hm). lia.
Qed.

(** X26.  findBestMatch.  When findBestMatch returns a tag, it is the sequence
    of an entry of the barcode file whose number of mismatches with the
    barcode read is below tag_length and not above max_mismatches; the
    barcode read has no more than max_no_calls noCalls; and every other
    entry has at least min_mismatch_delta more mismatches than the one
    returned. *)
Theorem findBestMatch_is_best_by_delta
  (strdup_ok : bool) (barcode : string) (barcodeHash : list bc_details_t)
  (state : state_t) (s : string) :
  0 <= tag_length state <= INT_MAX ->
  Z.of_nat (String.length s) <= INT_MAX ->
  findBestMatch strdup_ok (Some barcode) barcodeHash state = Some (Some s) ->
  exists (i : nat) (bcd : bc_details_t) (m : Z),
    barcodeHash !! i = Some bcd /\ seq bcd = s
    /\ countMismatches s barcode = Some m
    /\ 0 <= m < tag_length state /\ m <= max_mismatches state
    /\ noCalls barcode <= max_no_calls state
    /\ forall j bcd' m',
         j <> i -> barcodeHash !! j = Some bcd' ->
         countMismatches (seq bcd') barcode = Some m' ->
         m + min_mismatch_delta state <= m'.
Proof.
  intros Hlen Hslen. unfold findBestMatch.
  destruct (findBestMatch_loop barcodeHash barcode None (tag_length state)
                               (tag_length state))
    as [[[best nmBest] nm2Best]|] eqn:Hloop; [|discriminate].
  destruct best as [s'|]; [|discriminate].
  destruct (_ && _) eqn:Hmatched; [|discriminate].
  unfold strdup. destruct strdup_ok; [|discriminate]. intros [= ->].
  bool_to_prop.
  destruct (findBestMatch_loop_invariant barcodeHash [] barcode (tag_length state)
              None _ _ _ _ _ Hloop) as (Hn2 & Hn1 & i & bcd & Hi & Hs & Hm & Hlt & Hothers);
    [lia | lia | |].
  { split; [reflexivity|]. intros j bcd0 m Hj. rewrite lookup_nil in Hj. discriminate. }
  simpl in Hi, Hothers.
  assert (Hpos : 0 <= nmBest).
  { apply (countMismatches_from_grows s (Some barcode) 0 nmBest Hm); lia. }
  exists i, bcd, nmBest. repeat split; trivial.
  intros j bcd' m' Hne Hj Hm'.
  specialize (Hothers j bcd' m' Hne Hj Hm').
  rewrite to_int_id in * by (unfold int_range, INT_MAX in *; lia). lia.
Qed.

End BestMatch.

Section QualityAndMetrics.
Import BamDecode.
Import Stdlib.Strings.Ascii.

Lemma checkBarcodeQuality_loop_length (b q : string) (mlq : Z) :
  String.length b = String.length q ->
  String.length (checkBarcodeQuality_loop b q mlq) = String.length b.
Proof.
  revert q. induction b as [|bc b IH]; intros [|qc q] Hlen; simpl in *;
    try discriminate; [reflexivity|].
  f_equal. apply IH. congruence.
Qed.

Lemma checkBarcodeQuality_loop_get (b q : string) (mlq : Z) (i : nat)
  (bc qc : Ascii.ascii) :
  String.get i b = Some bc -> String.get i q = Some qc ->
  String.get i (checkBarcodeQuality_loop b q mlq)
  = Some (if char_value qc - 33 <=? mlq then "N"%char else bc).
Proof.
  revert q i. induction b as [|b0 b IH]; intros [|q0 q] i Hb Hq; simpl in *;
    try discriminate.
  destruct i as [|i].
  - injection Hb as <-. injection Hq as <-. reflexivity.
  - now apply IH.
Qed.

(** X27.  checkBarcodeQuality.  Without a quality string the barcode read is
    returned as it is.  With one of another length the result is NULL.
    With one of the same length the result has the length of the barcode
    read, and at each position 'N' if the quality character minus 33 is
    not above the threshold, the base of the barcode read otherwise.
    The threshold is max_low_quality_to_convert, except that 0 stands
    for the default 15: a threshold of 0 cannot be asked for. *)
Theorem checkBarcodeQuality_converts (barcode quality : string) (threshold : Z) :
  let mlq := if threshold =? 0 then DEFAULT_MAX_LOW_QUALITY_TO_CONVERT else threshold in
  checkBarcodeQuality true (Some barcode) None threshold = Some (Some barcode)
  /\ (String.length barcode <> String.length quality ->
      checkBarcodeQuality true (Some barcode) (Some quality) threshold = Some None)
  /\ (String.length barcode = String.length quality ->
      exists r,
        checkBarcodeQuality true (Some barcode) (Some quality) threshold = Some (Some r)
        /\ String.length r = String.length barcode
        /\ forall i bc qc,
             String.get i barcode = Some bc -> String.get i quality = Some qc ->
             String.get i r
             = Some (if char_value qc - 33 <=? mlq then "N"%char else bc))
  /\ checkBarcodeQuality true (Some barcode) (Some quality) 0
     = checkBarcodeQuality true (Some barcode) (Some quality)
                           DEFAULT_MAX_LOW_QUALITY_TO_CONVERT.
Proof.
  intros mlq. split; [reflexivity|]. split; [|split].
  - intros Hne. unfold checkBarcodeQuality.
    apply Nat.eqb_neq in Hne. now rewrite Hne.
  - intros Hlen. unfold checkBarcodeQuality.
    pose proof Hlen as Heq. apply Nat.eqb_eq in Heq. rewrite Heq. simpl.
    eexists. split; [reflexivity|].
    replace (if negb (threshold =? 0) then threshold
             else DEFAULT_MAX_LOW_QUALITY_TO_CONVERT) with mlq
      by (unfold mlq; now destruct (threshold =? 0)).
    split; [now apply checkBarcodeQuality_loop_length|].
    intros i bc qc. apply checkBarcodeQuality_loop_get.
  - reflexivity.
Qed.

(** X28.  updateMetrics.  Each call counts one read.  If the counters of an
    entry are consistent before -- the passing reads among the reads,
    the passing perfect and one-mismatch matches among the perfect and
    one-mismatch matches, and these among the reads (passing reads) --
    they are consistent after.  A read that matched no barcode (NULL)
    counts neither as perfect nor as one mismatch. *)
Theorem updateMetrics_keeps_counts
  (bcd bcd' : bc_details_t) (read : option string) (isPf : bool) :
  let consistent (d : bc_details_t) :=
    0 <= pf_reads d <= reads d
    /\ 0 <= pf_perfect d <= perfect d
    /\ 0 <= pf_one_mismatch d <= one_mismatch d
    /\ perfect d + one_mismatch d <= reads d
    /\ pf_perfect d + pf_one_mismatch d <= pf_reads d in
  consistent bcd -> reads bcd < INT_MAX ->
  updateMetrics bcd read isPf = Some bcd' ->
  consistent bcd'
  /\ reads bcd' = reads bcd + 1
  /\ pf_reads bcd' = pf_reads bcd + (if isPf then 1 else 0)
  /\ seq bcd' = seq bcd /\ name bcd' = name bcd
  /\ (read = None ->
      perfect bcd' = perfect bcd /\ one_mismatch bcd' = one_mismatch bcd).
Proof.
  intros consistent (Hpf & Hperfect & Hone & Hsum & Hpfsum) Hmax.
  unfold updateMetrics, INT_MAX in *.
  destruct (match read with Some s => _ | None => _ end) as [n|] eqn:Hn;
    [|discriminate].
  cbv zeta. intros [= <-]. unfold consistent. simpl.
  assert (Hnull : read = None -> n = 99) by (intros ->; congruence).
  destruct isPf, (n =? 0) eqn:E0, (n =? 1) eqn:E1; bool_to_prop; simpl;
    try lia;
    repeat rewrite to_int_id by (unfold int_range; lia);
    repeat split; try lia;
    match goal with Hr : read = None |- _ => apply Hnull in Hr end; lia.
Qed.

End QualityAndMetrics.

Section BarcodeNames.
Import BamDecode.

Lemma sum_reads_insert (l : list bc_details_t) (k : nat) (bcd bcd' : bc_details_t) :
  l !! k = Some bcd ->
  fold_right Z.add 0 (map reads (<[k := bcd']> l))
  = fold_right Z.add 0 (map reads l) + (reads bcd' - reads bcd).
Proof.
  revert k. induction l as [|d l IH]; intros k Hk; [discriminate|].
  destruct k as [|k]; simpl in *.
  - injection Hk as ->. lia.
  - rewrite (IH k Hk). lia.
Qed.

Lemma total_reads_sum (l : list bc_details_t) (nullMetric : bc_details_t) :
  Forall (fun bcd => 0 <= reads bcd) l ->
  0 <= reads nullMetric ->
  reads nullMetric + fold_right Z.add 0 (map reads l) <= INT_MAX ->
  total_reads l nullMetric = reads nullMetric + fold_right Z.add 0 (map reads l).
Proof.
  unfold total_reads. generalize (reads nullMetric) as a.
  induction l as [|d l IH]; intros a Hall Ha Hsum; simpl in *; [lia|].
  inversion Hall as [|? ? Hd Hl]; subst.
  assert (0 <= fold_right Z.add 0 (map reads l)) as Hrest.
  { clear -Hl. induction Hl; simpl; lia. }
  rewrite to_int_id by (unfold int_range, INT_MAX in *; lia).
  rewrite IH; [lia|assumption|lia|lia].
Qed.

Lemma kh_get_found (barcodeHash : list bc_details_t) (s : string) (k : nat) :
  kh_get barcodeHash s = Some k ->
  exists bcd, barcodeHash !! k = Some bcd /\ seq bcd = s.
Proof.
  revert k. induction barcodeHash as [|d l IH]; intros k; simpl; [discriminate|].
  destruct (String.eqb (seq d) s) eqn:E.
  - intros [= <-]. exists d. split; [reflexivity|]. now apply String.eqb_eq.
  - destruct (kh_get l s) as [i|]; [|discriminate].
    intros [= <-]. apply (IH i). reflexivity.
Qed.

Lemma updateMetrics_reads (bcd bcd' : bc_details_t) (read : option string)
  (isPf : bool) :
  0 <= reads bcd < INT_MAX ->
  updateMetrics bcd read isPf = Some bcd' ->
  reads bcd' = reads bcd + 1.
Proof.
  unfold updateMetrics, INT_MAX. intros Hr.
  destruct (match read with Some s => _ | None => _ end) as [n|]; [|discriminate].
  cbv zeta. intros [= <-]. simpl. apply to_int_id. unfold int_range. lia.
Qed.

(** X29.  findBarcodeName.  Each call counts exactly one read: in the entry of
    the tag findBestMatch returned, whose name is the result, or in
    nullMetric when there was no match and the result is NULL, so that
    the total writeMetrics reports grows by one.  No other entry is
    changed. *)
Theorem findBarcodeName_counts_one_read
  (strdup_ok : bool) (barcode : option string) (barcodeHash : list bc_details_t)
  (nullMetric : bc_details_t) (state : state_t) (isPf : bool)
  (found : option string) (barcodeHash' : list bc_details_t)
  (nullMetric' : bc_details_t) :
  Forall (fun bcd => 0 <= reads bcd) barcodeHash ->
  0 <= reads nullMetric ->
  reads nullMetric + fold_right Z.add 0 (map reads barcodeHash) < INT_MAX ->
  findBarcodeName strdup_ok barcode barcodeHash nullMetric state isPf
  = Some (found, barcodeHash', nullMetric') ->
  total_reads barcodeHash' nullMetric' = total_reads barcodeHash nullMetric + 1
  /\ match found with
     | None =>
         barcodeHash' = barcodeHash
         /\ reads nullMetric' = reads nullMetric + 1
         /\ findBestMatch strdup_ok barcode barcodeHash state = Some None
     | Some n =>
         nullMetric' = nullMetric
         /\ exists k bcd bcd',
              barcodeHash !! k = Some bcd /\ name bcd = n
              /\ findBestMatch strdup_ok barcode barcodeHash state = Some (Some (seq bcd))
              /\ barcodeHash' = <[k := bcd']> barcodeHash
              /\ reads bcd' = reads bcd + 1
     end.
Proof.
  intros Hentries Hnull Hsum.
  assert (0 <= fold_right Z.add 0 (map reads barcodeHash)) as Hrest.
  { clear -Hentries. induction Hentries; simpl; lia. }
  rewrite (total_reads_sum barcodeHash nullMetric Hentries Hnull) by lia.
  unfold findBarcodeName.
  destruct (findBestMatch strdup_ok barcode barcodeHash state) as [[s|]|] eqn:Hbest;
    [| |discriminate].
  - destruct (kh_get barcodeHash s) as [k|] eqn:Hget; [|discriminate].
    destruct (kh_get_found _ _ _ Hget) as (bcd & Hk & Hs).
    rewrite Hk.
    destruct (updateMetrics bcd barcode isPf) as [bcd'|] eqn:Hupd; [|discriminate].
    intros [= <- <- <-].
    pose proof (Forall_lookup_1 _ _ _ _ Hentries Hk) as Hbcd. simpl in Hbcd.
    assert (fold_right Z.add 0 (map reads barcodeHash) >= reads bcd) as Hle.
    { clear -Hentries Hk. revert k Hk.
      induction Hentries as [|d l Hd Hl IH]; intros k Hk; [discriminate|].
      assert (0 <= fold_right Z.add 0 (map reads l)) by (clear -Hl; induction Hl; simpl; lia).
      destruct k as [|k]; simpl in *.
      - injection Hk as ->. lia.
      - specialize (IH k Hk). lia. }
    assert (reads bcd' = reads bcd + 1) as Hreads.
    { apply (updateMetrics_reads bcd bcd' barcode isPf); [lia|exact Hupd]. }
    split.
    + rewrite total_reads_sum.
      * rewrite (sum_reads_insert barcodeHash k bcd bcd' Hk). lia.
      * apply Forall_insert; [exact Hentries|simpl; lia].
      * exact Hnull.
      * rewrite (sum_reads_insert barcodeHash k bcd bcd' Hk). lia.
    + split; [reflexivity|]. exists k, bcd, bcd'. rewrite Hs. auto.
  - destruct (updateMetrics nullMetric None isPf) as [nm'|] eqn:Hupd; [|discriminate].
    intros [= <- <- <-].
    assert (reads nm' = reads nullMetric + 1) as Hreads.
    { apply (updateMetrics_reads nullMetric nm' None isPf); [lia|exact Hupd]. }
    split; [|auto].
    rewrite total_reads_sum; [lia|exact Hentries|lia|lia].
Qed.

(** X30.  A quality tag of another length.  With convert_low_quality set, a
    record whose quality tag is not as long as its barcode tag makes
    checkBarcodeQuality return NULL, and decode passes that NULL on to
    findBarcodeName, where noCalls dereferences it.  The same happens
    without a conversion when the strdup of the barcode tag fails. *)
Theorem decode_barcode_null_read
  (newseq_ok quality_ok match_ok : bool) (barcode_tag qual : string)
  (quality_tag : option string)
  (barcodeHash : list bc_details_t) (nullMetric : bc_details_t) (state : state_t)
  (isPf : bool) :
  (convert_low_quality state = true ->
   String.length barcode_tag <> String.length qual ->
   decode_barcode newseq_ok quality_ok match_ok barcode_tag (Some qual)
                  barcodeHash nullMetric state isPf = None)
  /\ (convert_low_quality state = false ->
      decode_barcode false quality_ok match_ok barcode_tag quality_tag
                     barcodeHash nullMetric state isPf = None).
Proof.
  unfold decode_barcode. split.
  - intros -> Hlen. unfold checkBarcodeQuality.
    apply Nat.eqb_neq in Hlen. rewrite Hlen. reflexivity.
  - intros ->. reflexivity.
Qed.

End BarcodeNames.

(** ** The properties above, on runs against the server *)

Ltac by_computation :=
  vm_compute; repeat split; try reflexivity;
  try (let E := fresh "E" in intros E; discriminate E).

Lemma sim_read_bounded : read_bounded sim.
Proof.
  intros idx len s Hlen. simpl. unfold sim_read, sim_next.
  destruct (script s) as [|[st|] rest]; simpl.
  - rewrite length_take. lia.
  - destruct (st <? 0) eqn:E; simpl; bool_to_prop; [lia|].
    rewrite !length_take. lia.
  - rewrite length_take. lia.
Qed.

(** An address on the heap of a 64-bit process is no handle. *)
Lemma unknown_stream_passes_through_witness :
  let fp := 94354534732448 in
  let w := fresh 4 in
  to_int (to_size_t fp) < 1
  /\ irodsfread user_buffer 1 4 fp w = Ok Passthrough w
  /\ irodsfclose fp w = Ok Passthrough w.
Proof.
  intros fp w.
  assert (Hi : to_int (to_size_t fp) < 1) by (vm_compute; reflexivity).
  pose proof (unknown_stream_passes_through fp w user_buffer 1 4 0 SEEK_SET 0) as Hpass.
  cbv zeta in Hpass.
  destruct (Hpass (or_introl Hi)) as (Hread & _ & _ & _ & _ & _ & _ & Hclose).
  auto.
Defined.

(** Three bytes written, and a seek back to the second of them. *)
Lemma isioFileSeek_inside_window_witness :
  let w := written [x0a; x0b; x0c] 3 sim0 in
  let ifp := handle_of 1 w in
  (cursor ifp = 3 /\ offset_in_current_buffer ifp 1 SEEK_SET = Some (-2))
  /\ exists f' : ISIO_FILE,
       isioFileSeek ifp 1 SEEK_SET w = Ok (0, f') w
       /\ base_offset f' + cursor f' = 1.
Proof.
  intros w ifp.
  assert (Hok : handle_ok ifp) by by_computation.
  assert (Hin : offset_in_current_buffer ifp 1 SEEK_SET = Some (-2))
    by (vm_compute; reflexivity).
  split; [split; [vm_compute; reflexivity | exact Hin]|].
  destruct (isioFileSeek_inside_window ifp 1 SEEK_SET (-2) w Hok Hin)
    as (f' & Hrun & _ & _ & _ & _ & _ & _ & Hset & _).
  exists f'. split; [exact Hrun | now apply Hset].
Defined.

(** A seek to offset 2 on a fresh handle, whose cache is empty. *)
Lemma isioFileSeek_outside_window_witness :
  let w := opened (zeros 4) sim4 in
  let ifp := handle_of 1 w in
  let r := mkSim [x01; x02; x03; x04] 2 4 [] in
  exists f' : ISIO_FILE,
    isioFileSeek ifp 2 SEEK_SET w
    = Ok (0, f') (after_call (after_call w r (CallLseek (l1descInx ifp) 2 SEEK_SET))
                             r (CallLseek (l1descInx ifp) 0 SEEK_CUR))
    /\ base_offset f' = 2 /\ cursor f' = 0 /\ count f' = 0.
Proof.
  intros w ifp r.
  destruct (isioFileSeek_outside_window ifp 2 SEEK_SET w 0 0 2 (Some 2) r r)
    as (f' & Hrun & Hbase & Hcur & Hcount & _);
    [vm_compute; reflexivity .. |].
  exists f'. auto.
Defined.

Lemma isioFileSeek_keeps_handle_ok_witness :
  let w := opened (zeros 4) sim4 in
  let ifp := handle_of 1 w in
  handle_ok ifp
  /\ post (isioFileSeek ifp 2 SEEK_SET) w
       (fun '(st, f') _ =>
          st <= 0 /\ handle_ok f'
          /\ base f' = base ifp /\ bufferSize f' = bufferSize ifp).
Proof.
  intros w ifp.
  assert (Hok : handle_ok ifp) by by_computation.
  split; [exact Hok|].
  exact (isioFileSeek_keeps_handle_ok ifp 2 SEEK_SET w Hok).
Defined.

(** Three bytes written to a fresh handle. *)
Lemma isioFileWrite_within_buffer_witness :
  let w := opened [x0a; x0b; x0c] sim0 in
  let ifp := handle_of 1 w in
  load (mem w) user_buffer 3 = Some [x0a; x0b; x0c]
  /\ exists (f' : ISIO_FILE) (h : heap),
       isioFileWrite ifp user_buffer 3 w = Ok (3, f') (set_mem h w)
       /\ load h (ptr ifp) 3 = Some [x0a; x0b; x0c]
       /\ cursor f' = cursor ifp + 3 /\ dirty f' = 1.
Proof.
  intros w ifp.
  assert (Hok : handle_ok ifp) by by_computation.
  assert (Hin : buffer_in (mem w) ifp) by by_computation.
  assert (Hn : 0 < 3 <= bufferSize ifp - cursor ifp) by by_computation.
  assert (Hload : load (mem w) user_buffer 3 = Some [x0a; x0b; x0c])
    by (vm_compute; reflexivity).
  split; [exact Hload|].
  destruct (isioFileWrite_within_buffer ifp user_buffer 3 w [x0a; x0b; x0c]
              Hok Hin Hn Hload)
    as (f' & h & Hrun & Hsame & _ & _ & _ & Hcur & _ & Hdirty & _).
  exists f', h. auto.
Defined.

(** Three bytes written to a fresh handle, a seek back to offset 0 and
    a read of three bytes into the buffer they came from. *)
Lemma write_seek_read_round_trip_witness :
  let w := opened [x0a; x0b; x0c] sim0 in
  let ifp := handle_of 1 w in
  exists (f1 : ISIO_FILE) (w1 : world sim) (f2 f3 : ISIO_FILE) (w3 : world sim),
    isioFileWrite ifp user_buffer 3 w = Ok (3, f1) w1
    /\ isioFileSeek f1 (base_offset ifp + cursor ifp) SEEK_SET w1 = Ok (0, f2) w1
    /\ isioFileRead f2 user_buffer 3 w1 = Ok (3, f3) w3
    /\ load (mem w3) user_buffer 3 = Some [x0a; x0b; x0c]
    /\ ncalls w3 = ncalls w + 1.
Proof.
  intros w ifp.
  assert (Hok : handle_ok ifp) by by_computation.
  assert (Hin : buffer_in (mem w) ifp) by by_computation.
  assert (Hbo : 0 <= base_offset ifp) by by_computation.
  assert (Hn : 0 < 3 <= bufferSize ifp - cursor ifp) by by_computation.
  assert (Hload : load (mem w) user_buffer 3 = Some [x0a; x0b; x0c])
    by (vm_compute; reflexivity).
  assert (Hroom : room_at (mem w) user_buffer 3 (ptr_block (ptr ifp)))
    by by_computation.
  assert (Hsrv : forall data,
             0 <= fst (rcDataObjWrite (l1descInx ifp) data (remote w))).
  { intros data.
    replace (remote w) with (mkSim [] 0 4 []) by (vm_compute; reflexivity).
    simpl. lia. }
  destruct (write_seek_read_round_trip ifp user_buffer user_buffer 3 w
              [x0a; x0b; x0c] Hok Hin Hbo Hn Hload Hroom Hsrv)
    as (f1 & w1 & f2 & f3 & w3 & H1 & H2 & H3 & H4 & H5 & _).
  exists f1, w1, f2, f3, w3. auto.
Defined.

(** A fresh handle closed twice. *)
Lemma irodsfclose_twice_is_undefined_witness :
  let w := opened (zeros 4) sim4 in
  let ifp := handle_of 1 w in
  exists w' : world sim,
    irodsfclose 1 w = Ok (Cached (fst (rcDataObjClose (l1descInx ifp) (remote w)))) w'
    /\ irodsfclose 1 w' = Fault
    /\ isioFileWrite ifp user_buffer 1 w' = Fault.
Proof.
  intros w ifp.
  assert (Hmap : is_in_map (to_int (to_size_t 1)) w = Ok (Some ifp) w).
  { apply (is_in_map_handle_of 1 ifp).
    - unfold ISIO_MAX_OPEN_FILES. lia.
    - vm_compute. reflexivity. }
  destruct (irodsfclose_twice_is_undefined 1 ifp w 1%nat 0 user_buffer 1 Hmap)
    as (w' & Hclose & _ & _ & _ & _ & Hagain & Hwrite);
    [by_computation .. | lia |].
  exists w'. auto.
Defined.

(** Three bytes written, and a server that refuses the flush with -2. *)
Lemma isioFileClose_flush_failure_witness :
  let w := refusing in
  let ifp := handle_of 1 w in
  exists w' : world sim,
    isioFileClose ifp w = Ok (-2) w'
    /\ calls w' = calls w ++ [CallWrite (l1descInx ifp) [x00; x00; x00]]
    /\ mem w' = mem w.
Proof.
  intros w ifp.
  destruct (isioFileClose_flush_failure ifp w [x00; x00; x00] (-2) (mkSim [] 0 4 []))
    as (w' & Hrun & Hcalls & Hmem & _);
    [by_computation .. | lia |].
  exists w'. auto.
Defined.

(** The position query on a fresh handle. *)
Lemma isioFileTell_answer_witness :
  let w := opened (zeros 4) sim4 in
  let ifp := handle_of 1 w in
  isioFileTell ifp w
  = Ok 0 (after_call w (remote w) (CallLseek (l1descInx ifp) 0 SEEK_CUR)).
Proof.
  intros w ifp.
  assert (Hseek : rcDataObjLseek (l1descInx ifp) 0 SEEK_CUR (remote w)
                  = ((0, Some 0), remote w)) by (vm_compute; reflexivity).
  destruct (isioFileTell_answer ifp w 0 (Some 0) (remote w) Hseek) as (_ & Hsome).
  destruct (Hsome 0 eq_refl) as (Hrun & _). exact Hrun.
Defined.

(** A read of four bytes on a fresh handle. *)
Lemma isioFileRead_count_and_bounds_witness :
  let w := opened (zeros 4) sim4 in
  let ifp := handle_of 1 w in
  handle_ok ifp
  /\ post (isioFileRead ifp user_buffer 4) w
       (fun '(st, f') _ => st <= 4 /\ (0 <= st -> handle_ok f')).
Proof.
  intros w ifp.
  assert (Hok : handle_ok ifp) by by_computation.
  split; [exact Hok|].
  apply (isioFileRead_count_and_bounds ifp user_buffer 4 w sim_read_bounded Hok).
  - reflexivity.
  - unfold INT_MAX. lia.
Defined.

(** A write of three bytes to a fresh handle. *)
Lemma isioFileWrite_without_growth_witness :
  let w := opened [x0a; x0b; x0c] sim0 in
  let ifp := handle_of 1 w in
  handle_ok ifp
  /\ post (isioFileWrite ifp user_buffer 3) w
       (fun '(st, f') _ => (st = 3 \/ st < 0) /\ handle_ok f').
Proof.
  intros w ifp.
  assert (Hok : handle_ok ifp) by by_computation.
  split; [exact Hok|].
  apply (isioFileWrite_without_growth ifp user_buffer 3 w Hok).
  - unfold INT_MAX. lia.
  - by_computation.
  - by_computation.
Defined.

(** The character 'A' put to a fresh handle. *)
Lemma isioFilePutc_within_buffer_witness :
  let w := fresh 4 in
  let ifp := handle_of 1 w in
  exists (f' : ISIO_FILE) (w' : world sim),
    isioFilePutc 65 ifp w = Ok (1, f') w'
    /\ load (mem w') (ptr ifp) 1 = Some [x41]
    /\ cursor f' = cursor ifp + 1.
Proof.
  intros w ifp.
  destruct (isioFilePutc_within_buffer 65 ifp w)
    as (f' & w' & Hrun & Hload & _ & _ & Hcur & _); [by_computation ..|].
  exists f', w'. auto.
Defined.

(** The second byte of the four-byte object, from the cache. *)
Lemma isioFileGetc_from_cache_witness :
  let w := read_one in
  let ifp := handle_of 1 w in
  (cursor ifp = 1 /\ count ifp = 3)
  /\ exists (f' : ISIO_FILE) (w' : world sim),
       isioFileGetc ifp w = Ok (2, f') w'
       /\ calls w' = calls w
       /\ cursor f' = 2 /\ count f' = 2.
Proof.
  intros w ifp.
  assert (Hstate : cursor ifp = 1 /\ count ifp = 3) by by_computation.
  split; [exact Hstate|]. destruct Hstate as (Hcur & Hcount).
  destruct (isioFileGetc_from_cache ifp w x02)
    as (f' & w' & Hrun & _ & Hcalls & _ & Hcur' & Hcount');
    [by_computation ..|].
  exists f', w'. rewrite Hcur in Hcur'. rewrite Hcount in Hcount'. auto.
Defined.

(** A read of 1048573 bytes on a fresh handle. *)
Lemma isioFileRead_past_cache_witness :
  let w := reading 1048573 [] in
  let ifp := handle_of 1 w in
  handle_ok ifp
  /\ post (isioFileRead ifp user_buffer 1048573) w
       (fun '(st, f') _ =>
          (0 <= st ->
           base f' = base ifp /\ bufferSize f' = bufferSize ifp
           /\ cursor f' = 0 /\ count f' = 0)
          /\ (st < 0 ->
              f' = ifp
              \/ (base f' = (if 0 <? count ifp
                             then ptr_add user_buffer (count ifp) else user_buffer)
                  /\ bufferSize f' = 1048573 - count ifp))).
Proof.
  intros w ifp.
  assert (Hok : handle_ok ifp) by by_computation.
  split; [exact Hok|].
  apply (isioFileRead_past_cache ifp user_buffer 1048573 w Hok);
    [reflexivity | by_computation ..].
Defined.

(** A write of 65536 + 2097153 bytes to a fresh handle. *)
Lemma isioFileWrite_past_cache_witness :
  let n := 65536 + 2097153 in
  let w := fresh n in
  let ifp := handle_of 1 w in
  (handle_ok ifp /\ ISIO_MAX_BUF_SIZE < n - (bufferSize ifp - cursor ifp))
  /\ post (isioFileWrite ifp user_buffer n) w
       (fun '(st, f') w' =>
          (ncalls w' - ncalls w = 2 \/ (ncalls w' - ncalls w = 1 /\ st < 0))
          /\ (0 <= st ->
              (exists (r : sim) (data : list byte),
                  Z.of_nat (length data) = n - (bufferSize ifp - cursor ifp)
                  /\ rcDataObjWrite (l1descInx ifp) data r = (st, remote w'))
              /\ base_offset f'
                 = to_long (base_offset ifp
                            + to_int (bufferSize ifp
                                      + (n - (bufferSize ifp - cursor ifp))))
              /\ cursor f' = 0 /\ count f' = 0)).
Proof.
  intros n w ifp.
  assert (Hok : handle_ok ifp) by by_computation.
  assert (Hrest : ISIO_MAX_BUF_SIZE < n - (bufferSize ifp - cursor ifp))
    by by_computation.
  split; [auto|].
  apply (isioFileWrite_past_cache ifp user_buffer n w Hok); [|exact Hrest].
  by_computation.
Defined.

(** Two bytes read from the four-byte object through a fresh handle. *)
Lemma isioFileRead_refill_witness :
  let w := opened (zeros 4) sim4 in
  let ifp := handle_of 1 w in
  exists (f' : ISIO_FILE) (w' : world sim),
    isioFileRead ifp user_buffer 2 w = Ok (2, f') w'
    /\ load (mem w') user_buffer 2 = Some [x01; x02]
    /\ cursor f' = 2 /\ count f' = 2.
Proof.
  intros w ifp.
  destruct (isioFileRead_refill ifp user_buffer 2 w 0 0 4 [x01; x02; x03; x04]
              (mkSim [x01; x02; x03; x04] 0 4 []) (mkSim [x01; x02; x03; x04] 4 4 []))
    as (f' & w' & Hrun & Hload & _ & _ & _ & Hcur & Hcount);
    [by_computation ..|].
  exists f', w'. auto.
Defined.

(** 65537 bytes written to a fresh handle. *)
Lemma isioFileWrite_overflow_position_witness :
  let w := fresh 65537 in
  let ifp := handle_of 1 w in
  (handle_ok ifp /\ bufferSize ifp = 65536 /\ cursor ifp = 0)
  /\ post (isioFileWrite ifp user_buffer 65537) w
       (fun '(st, f') _ =>
          0 < st ->
          st = 65537
          /\ base_offset f' = base_offset ifp
          /\ cursor f' = 65537 - (bufferSize ifp - cursor ifp)
          /\ base_offset f' + cursor f'
             = base_offset ifp + cursor ifp + 65537 - bufferSize ifp).
Proof.
  intros w ifp.
  assert (Hok : handle_ok ifp) by by_computation.
  split; [split; [exact Hok | by_computation]|].
  apply (isioFileWrite_overflow_position ifp user_buffer 65537 w Hok);
    by_computation.
Defined.

Section BarcodeRuns.
Import BamDecode.
Open Scope string_scope.

(** A tag with a noCall at its end against a read that differs in one
    base. *)
Lemma countMismatches_bounds_witness :
  exists m, countMismatches "ACGTN" "ACCTA" = Some m
            /\ 0 <= m /\ m + noCalls "ACGTN" <= 5.
Proof.
  destruct (countMismatches_bounds "ACGTN" "ACCTA") as ((m & Hrun & Hpos & Hsum) & _).
  - simpl. lia.
  - vm_compute. intros E. discriminate E.
  - exists m. auto.
Defined.

(** A read of two bases against a tag of four. *)
Lemma countMismatches_reads_past_short_barcode_witness :
  countMismatches "ACGT" "AC" = None.
Proof.
  apply countMismatches_reads_past_short_barcode.
  - simpl. lia.
  - intros [|[|[|[|i]]]] c Hc; simpl in Hc; try discriminate Hc;
      injection Hc as <-; reflexivity.
Defined.

(** Two tags, and a read one mismatch from the first and two from the
    second. *)
Lemma findBestMatch_is_best_by_delta_witness :
  let barcodeHash := [mk_bc_details "ACGT" "1" 0 0 0 0 0 0;
                      mk_bc_details "TTGA" "2" 0 0 0 0 0 0] in
  let state := mk_state 4 false 0 2 1 1 in
  findBestMatch true (Some "ACGA") barcodeHash state = Some (Some "ACGT")
  /\ exists (i : nat) (bcd : bc_details_t) (m : Z),
       barcodeHash !! i = Some bcd /\ seq bcd = "ACGT"
       /\ countMismatches "ACGT" "ACGA" = Some m
       /\ forall j bcd' m',
            j <> i -> barcodeHash !! j = Some bcd' ->
            countMismatches (seq bcd') "ACGA" = Some m' ->
            m + 1 <= m'.
Proof.
  intros barcodeHash state.
  assert (Hrun : findBestMatch true (Some "ACGA") barcodeHash state = Some (Some "ACGT"))
    by (vm_compute; reflexivity).
  split; [exact Hrun|].
  destruct (findBestMatch_is_best_by_delta true "ACGA" barcodeHash state "ACGT")
    as (i & bcd & m & Hi & Hs & Hm & _ & _ & _ & Hothers).
  - vm_compute. split; intros E; discriminate E.
  - vm_compute. intros E. discriminate E.
  - exact Hrun.
  - exists i, bcd, m. auto.
Defined.

(** The first read of an entry, a perfect match that passed the
    filter. *)
Lemma updateMetrics_keeps_counts_witness :
  let bcd := mk_bc_details "ACGT" "1" 0 0 0 0 0 0 in
  let bcd' := mk_bc_details "ACGT" "1" 1 1 1 1 0 0 in
  updateMetrics bcd (Some "ACGT") true = Some bcd'
  /\ reads bcd' = reads bcd + 1
  /\ perfect bcd' + one_mismatch bcd' <= reads bcd'.
Proof.
  intros bcd bcd'.
  assert (Hrun : updateMetrics bcd (Some "ACGT") true = Some bcd')
    by (vm_compute; reflexivity).
  split; [exact Hrun|].
  destruct (updateMetrics_keeps_counts bcd bcd' (Some "ACGT") true)
    as ((_ & _ & _ & Hsum & _) & Hreads & _).
  - vm_compute. repeat split; intros E; discriminate E.
  - vm_compute. reflexivity.
  - exact Hrun.
  - auto.
Defined.

End BarcodeRuns.

Section BarcodeNameRuns.
Import BamDecode.
Open Scope string_scope.

(** Two tags with some reads counted already, and a read one mismatch
    from the first. *)
Lemma findBarcodeName_counts_one_read_witness :
  let barcodeHash := [mk_bc_details "ACGT" "1" 7 5 3 2 1 1;
                      mk_bc_details "TTGA" "2" 4 4 4 4 0 0] in
  let nullMetric := mk_bc_details "NNNN" "0" 2 1 0 0 0 0 in
  let state := mk_state 4 false 0 2 1 1 in
  let barcodeHash' := [mk_bc_details "ACGT" "1" 8 6 3 2 2 2;
                       mk_bc_details "TTGA" "2" 4 4 4 4 0 0] in
  findBarcodeName true (Some "ACGA") barcodeHash nullMetric state true
  = Some (Some "1", barcodeHash', nullMetric)
  /\ total_reads barcodeHash' nullMetric = total_reads barcodeHash nullMetric + 1.
Proof.
  intros barcodeHash nullMetric state barcodeHash'.
  assert (Hrun : findBarcodeName true (Some "ACGA") barcodeHash nullMetric state true
                 = Some (Some "1", barcodeHash', nullMetric))
    by (vm_compute; reflexivity).
  split; [exact Hrun|].
  destruct (findBarcodeName_counts_one_read true (Some "ACGA") barcodeHash nullMetric
              state true (Some "1") barcodeHash' nullMetric) as (Htotal & _).
  - repeat constructor; vm_compute; intros E; discriminate E.
  - vm_compute. intros E. discriminate E.
  - vm_compute. reflexivity.
  - exact Hrun.
  - exact Htotal.
Defined.

(** A barcode tag of four bases with a quality tag of three. *)
Lemma decode_barcode_null_read_witness :
  let state := mk_state 4 true 15 2 1 1 in
  decode_barcode true true true "ACGT" (Some "III")
                 [mk_bc_details "ACGT" "1" 0 0 0 0 0 0]
                 (mk_bc_details "NNNN" "0" 0 0 0 0 0 0) state true = None.
Proof.
  intros state.
  apply (decode_barcode_null_read true true true "ACGT" "III" (Some "III")).
  - reflexivity.
  - simpl. lia.
Defined.

End BarcodeNameRuns.
